(** * Racing: the track follower, the physics ramp and the progress flags

    A shallow embedding of [racing.js] and of the helper file that exports
    [deg2rad], [rad2deg] and [getClosestCurvePointOnTrack].

    Numbers.  A JavaScript number is modelled as a real number ([R]); the
    only NaN the track follower can meet on a well-formed track comes from
    reading a sample that is not in [curve_verts], and such a vector is
    modelled as [None] (type [nvec]).  Time stamps are integers of
    milliseconds ([Z]).  Arithmetic is exact: the model does not round, and
    a division by zero (two equal neighbouring samples, or the angle of a
    vector of length 0), which gives NaN in the program, has the value of
    [/ 0]; the property of the pitch excludes both cases by hypothesis.
    The two physics ramps, whose properties are about exact values, are
    replayed on binary64 doubles in module [Binary64].

    Left out: rendering, audio and the fetching of assets.  [carBox], which
    [calculateCarBox] computes once at load, is data of the state;
    [calculateCarBox] itself, [getFormattedVertices], the shuffle of
    [randomRacingMode] and the text of the timer are modelled as functions
    of their inputs. *)

From Stdlib Require Import Reals Lra Lia ZArith List Bool String Ascii.
From Stdlib Require Import DecimalString Permutation.
From Stdlib Require Floats.
Import ListNotations.
Open Scope R_scope.

(* ================================================================== *)
(** ** Vectors and the glMatrix functions the game calls *)

Record vec3 : Type := Vec { v0 : R; v1 : R; v2 : R }.

(** A vector that may be all-NaN. *)
Definition nvec : Type := option vec3.

(** JavaScript drops the arguments a function has no parameter for. *)
Definition call_surplus {A B C T : Type} (f : A -> B -> T) (a : A) (b : B)
  (_surplus : C) : T := f a b.

Module GlMatrix.

(** Modelled from the spec: glMatrix's [vec3.create] is not under src/; it
    returns the zero vector. *)
Definition create : vec3 := Vec 0 0 0.

(** Modelled from the spec: glMatrix's [vec3.subtract(out, a, b)] is not
    under src/. *)
Definition subtract (a b : vec3) : vec3 :=
  Vec (v0 a - v0 b) (v1 a - v1 b) (v2 a - v2 b).

(** Modelled from the spec: glMatrix's [vec3.add(out, a, b)] is not under
    src/. *)
Definition add (a b : vec3) : vec3 :=
  Vec (v0 a + v0 b) (v1 a + v1 b) (v2 a + v2 b).

(** Modelled from the spec: glMatrix's [vec3.scaleAndAdd(out, a, b, scale)]
    is not under src/ ("scaleAndAdd(origin, direction, t)"). *)
Definition scaleAndAdd (a b : vec3) (scale : R) : vec3 :=
  Vec (v0 a + v0 b * scale) (v1 a + v1 b * scale) (v2 a + v2 b * scale).

(** Modelled from the spec: glMatrix's [vec3.distance(a, b)] is not under
    src/; it has two parameters ("distance(a,b)") and returns the Euclidean
    distance between them. *)
Definition distance (a b : vec3) : R :=
  sqrt ((v0 b - v0 a) * (v0 b - v0 a) + (v1 b - v1 a) * (v1 b - v1 a)
        + (v2 b - v2 a) * (v2 b - v2 a)).

(** Modelled from the spec: glMatrix's [vec3.rotateX(out, a, b, rad)] is not
    under src/ ("rotateAxis(point, pivot, angle) for X/Y/Z axes
    independently"): [a] is rotated about the pivot [b]. *)
Definition rotateX (a b : vec3) (rad : R) : vec3 :=
  let p0 := v0 a - v0 b in
  let p1 := v1 a - v1 b in
  let p2 := v2 a - v2 b in
  Vec (p0 + v0 b)
      (p1 * cos rad - p2 * sin rad + v1 b)
      (p1 * sin rad + p2 * cos rad + v2 b).

(** Modelled from the spec: glMatrix's [vec3.rotateY(out, a, b, rad)] is not
    under src/. *)
Definition rotateY (a b : vec3) (rad : R) : vec3 :=
  let p0 := v0 a - v0 b in
  let p1 := v1 a - v1 b in
  let p2 := v2 a - v2 b in
  Vec (p2 * sin rad + p0 * cos rad + v0 b)
      (p1 + v1 b)
      (p2 * cos rad - p0 * sin rad + v2 b).

(** Modelled from the spec: glMatrix's [vec3.rotateZ(out, a, b, rad)] is not
    under src/. *)
Definition rotateZ (a b : vec3) (rad : R) : vec3 :=
  let p0 := v0 a - v0 b in
  let p1 := v1 a - v1 b in
  let p2 := v2 a - v2 b in
  Vec (p0 * cos rad - p1 * sin rad + v0 b)
      (p0 * sin rad + p1 * cos rad + v1 b)
      (p2 + v2 b).

Definition dot (a b : vec3) : R := v0 a * v0 b + v1 a * v1 b + v2 a * v2 b.

(** Modelled from the spec: glMatrix's [vec3.angle(a, b)] is not under src/
    ("angleBetween(u,v): radians, via dot-product/magnitude").  [acos]
    already clamps its argument to [-1, 1]. *)
Definition angle (a b : vec3) : R :=
  acos (dot a b / (sqrt (dot a a) * sqrt (dot b b))).

End GlMatrix.

(* ================================================================== *)
(** ** The helper file: degrees, radians and the projection on a line *)

Definition deg2rad (degrees : R) : R := degrees * PI / 180.

Definition rad2deg (radians : R) : R := radians * 180 / PI.

(** [getClosestCurvePointOnTrack(vertexOnTrack, closestVertex, carPosition)]:
    the point of the line through [closestVertex] and [vertexOnTrack] that is
    nearest to [carPosition]; it is not clamped to the segment. *)
Definition getClosestCurvePointOnTrack
  (vertexOnTrack closestVertex carPosition : vec3) : vec3 :=
  let V := GlMatrix.subtract vertexOnTrack closestVertex in
  let t := (- v0 V * v0 closestVertex + v0 V * v0 carPosition
            - v1 V * v1 closestVertex + v1 V * v1 carPosition
            - v2 V * v2 closestVertex + v2 V * v2 carPosition)
           / (v0 V ^ 2 + v1 V ^ 2 + v2 V ^ 2) in
  GlMatrix.scaleAndAdd closestVertex V t.

(** The same on vectors that may be NaN: any NaN operand poisons the
    result. *)
Definition getClosestCurvePointOnTrackN
  (vertexOnTrack closestVertex : nvec) (carPosition : vec3) : nvec :=
  match vertexOnTrack, closestVertex with
  | Some v, Some c => Some (getClosestCurvePointOnTrack v c carPosition)
  | _, _ => None
  end.

(* ================================================================== *)
(** ** Global state of [racing.js] *)

(** One entry of [controls]. *)
Record Control : Type := { pressed : bool; value : R }.

(** The logical directions.  [controls] is an object keyed by the four bound
    keys, inserted in the order forward, right, backward, left; the bound
    keys are pairwise distinct in every mode, so the object is modelled as a
    record with one field per direction. *)
Inductive Dir : Type := Forward | Right | Backward | Left.

Record Controls : Type := {
  c_forward : Control;
  c_right : Control;
  c_backward : Control;
  c_left : Control
}.

Record TurningWhileIdle : Type := { isTurning : bool; direction : string }.

Record CarBox : Type := { maxX : R; minX : R; maxZ : R; minZ : R }.

Record State : Type := {
  (* game time data; [gameStartTime] is the number 0 ([None]) until the
     first accepted key, a Date afterwards *)
  gameStartTime : option Z;
  gamePausedTime : Z;
  gameCurrTime : Z;
  (* game state data *)
  atTitleScreen : bool;
  inHelpMenu : bool;
  hasStarted : bool;
  isPaused : bool;
  isIdle : bool;
  hasCrashed : bool;
  hasWon : bool;
  hasReachedCheckpoint : bool;
  turningWhileIdle : TurningWhileIdle;
  (* game controls *)
  forward : string;
  backward : string;
  right : string;
  left : string;
  controls : Controls;
  (* track render and movement data *)
  curve_verts : list R;
  rotation : vec3;
  previousYRotation : R;
  previousXRotation : R;
  trackPosition : vec3;
  (* car data *)
  carBox : CarBox;
  (* whether [onKeyDown] is registered for 'keydown' on the window *)
  keydownListener : bool;
  (* gl.message.textContent *)
  message : string
}.

(** Physics constants. *)
Definition maxPower : R := 0.01.
Definition maxReverse : R := -0.002.
Definition powerFactor : R := 0.00001.
Definition reverseFactor : R := -0.000005.

Definition carPosition : vec3 := Vec 0.01 (-0.08) (-0.155).

(** Assignments to the globals, one setter per variable that is assigned
    after load. *)

Definition set_gameStartTime (x : option Z) (s : State) : State :=
  {| gameStartTime := x; gamePausedTime := gamePausedTime s;
     gameCurrTime := gameCurrTime s; atTitleScreen := atTitleScreen s;
     inHelpMenu := inHelpMenu s; hasStarted := hasStarted s;
     isPaused := isPaused s; isIdle := isIdle s; hasCrashed := hasCrashed s;
     hasWon := hasWon s; hasReachedCheckpoint := hasReachedCheckpoint s;
     turningWhileIdle := turningWhileIdle s; forward := forward s;
     backward := backward s; right := right s; left := left s;
     controls := controls s; curve_verts := curve_verts s;
     rotation := rotation s; previousYRotation := previousYRotation s;
     previousXRotation := previousXRotation s;
     trackPosition := trackPosition s; carBox := carBox s;
     keydownListener := keydownListener s; message := message s |}.

Definition set_gamePausedTime (x : Z) (s : State) : State :=
  {| gameStartTime := gameStartTime s; gamePausedTime := x;
     gameCurrTime := gameCurrTime s; atTitleScreen := atTitleScreen s;
     inHelpMenu := inHelpMenu s; hasStarted := hasStarted s;
     isPaused := isPaused s; isIdle := isIdle s; hasCrashed := hasCrashed s;
     hasWon := hasWon s; hasReachedCheckpoint := hasReachedCheckpoint s;
     turningWhileIdle := turningWhileIdle s; forward := forward s;
     backward := backward s; right := right s; left := left s;
     controls := controls s; curve_verts := curve_verts s;
     rotation := rotation s; previousYRotation := previousYRotation s;
     previousXRotation := previousXRotation s;
     trackPosition := trackPosition s; carBox := carBox s;
     keydownListener := keydownListener s; message := message s |}.

Definition set_gameCurrTime (x : Z) (s : State) : State :=
  {| gameStartTime := gameStartTime s; gamePausedTime := gamePausedTime s;
     gameCurrTime := x; atTitleScreen := atTitleScreen s;
     inHelpMenu := inHelpMenu s; hasStarted := hasStarted s;
     isPaused := isPaused s; isIdle := isIdle s; hasCrashed := hasCrashed s;
     hasWon := hasWon s; hasReachedCheckpoint := hasReachedCheckpoint s;
     turningWhileIdle := turningWhileIdle s; forward := forward s;
     backward := backward s; right := right s; left := left s;
     controls := controls s; curve_verts := curve_verts s;
     rotation := rotation s; previousYRotation := previousYRotation s;
     previousXRotation := previousXRotation s;
     trackPosition := trackPosition s; carBox := carBox s;
     keydownListener := keydownListener s; message := message s |}.

Definition set_atTitleScreen (x : bool) (s : State) : State :=
  {| gameStartTime := gameStartTime s; gamePausedTime := gamePausedTime s;
     gameCurrTime := gameCurrTime s; atTitleScreen := x;
     inHelpMenu := inHelpMenu s; hasStarted := hasStarted s;
     isPaused := isPaused s; isIdle := isIdle s; hasCrashed := hasCrashed s;
     hasWon := hasWon s; hasReachedCheckpoint := hasReachedCheckpoint s;
     turningWhileIdle := turningWhileIdle s; forward := forward s;
     backward := backward s; right := right s; left := left s;
     controls := controls s; curve_verts := curve_verts s;
     rotation := rotation s; previousYRotation := previousYRotation s;
     previousXRotation := previousXRotation s;
     trackPosition := trackPosition s; carBox := carBox s;
     keydownListener := keydownListener s; message := message s |}.

Definition set_inHelpMenu (x : bool) (s : State) : State :=
  {| gameStartTime := gameStartTime s; gamePausedTime := gamePausedTime s;
     gameCurrTime := gameCurrTime s; atTitleScreen := atTitleScreen s;
     inHelpMenu := x; hasStarted := hasStarted s; isPaused := isPaused s;
     isIdle := isIdle s; hasCrashed := hasCrashed s; hasWon := hasWon s;
     hasReachedCheckpoint := hasReachedCheckpoint s;
     turningWhileIdle := turningWhileIdle s; forward := forward s;
     backward := backward s; right := right s; left := left s;
     controls := controls s; curve_verts := curve_verts s;
     rotation := rotation s; previousYRotation := previousYRotation s;
     previousXRotation := previousXRotation s;
     trackPosition := trackPosition s; carBox := carBox s;
     keydownListener := keydownListener s; message := message s |}.

Definition set_hasStarted (x : bool) (s : State) : State :=
  {| gameStartTime := gameStartTime s; gamePausedTime := gamePausedTime s;
     gameCurrTime := gameCurrTime s; atTitleScreen := atTitleScreen s;
     inHelpMenu := inHelpMenu s; hasStarted := x; isPaused := isPaused s;
     isIdle := isIdle s; hasCrashed := hasCrashed s; hasWon := hasWon s;
     hasReachedCheckpoint := hasReachedCheckpoint s;
     turningWhileIdle := turningWhileIdle s; forward := forward s;
     backward := backward s; right := right s; left := left s;
     controls := controls s; curve_verts := curve_verts s;
     rotation := rotation s; previousYRotation := previousYRotation s;
     previousXRotation := previousXRotation s;
     trackPosition := trackPosition s; carBox := carBox s;
     keydownListener := keydownListener s; message := message s |}.

Definition set_isPaused (x : bool) (s : State) : State :=
  {| gameStartTime := gameStartTime s; gamePausedTime := gamePausedTime s;
     gameCurrTime := gameCurrTime s; atTitleScreen := atTitleScreen s;
     inHelpMenu := inHelpMenu s; hasStarted := hasStarted s; isPaused := x;
     isIdle := isIdle s; hasCrashed := hasCrashed s; hasWon := hasWon s;
     hasReachedCheckpoint := hasReachedCheckpoint s;
     turningWhileIdle := turningWhileIdle s; forward := forward s;
     backward := backward s; right := right s; left := left s;
     controls := controls s; curve_verts := curve_verts s;
     rotation := rotation s; previousYRotation := previousYRotation s;
     previousXRotation := previousXRotation s;
     trackPosition := trackPosition s; carBox := carBox s;
     keydownListener := keydownListener s; message := message s |}.

Definition set_isIdle (x : bool) (s : State) : State :=
  {| gameStartTime := gameStartTime s; gamePausedTime := gamePausedTime s;
     gameCurrTime := gameCurrTime s; atTitleScreen := atTitleScreen s;
     inHelpMenu := inHelpMenu s; hasStarted := hasStarted s;
     isPaused := isPaused s; isIdle := x; hasCrashed := hasCrashed s;
     hasWon := hasWon s; hasReachedCheckpoint := hasReachedCheckpoint s;
     turningWhileIdle := turningWhileIdle s; forward := forward s;
     backward := backward s; right := right s; left := left s;
     controls := controls s; curve_verts := curve_verts s;
     rotation := rotation s; previousYRotation := previousYRotation s;
     previousXRotation := previousXRotation s;
     trackPosition := trackPosition s; carBox := carBox s;
     keydownListener := keydownListener s; message := message s |}.

Definition set_hasCrashed (x : bool) (s : State) : State :=
  {| gameStartTime := gameStartTime s; gamePausedTime := gamePausedTime s;
     gameCurrTime := gameCurrTime s; atTitleScreen := atTitleScreen s;
     inHelpMenu := inHelpMenu s; hasStarted := hasStarted s;
     isPaused := isPaused s; isIdle := isIdle s; hasCrashed := x;
     hasWon := hasWon s; hasReachedCheckpoint := hasReachedCheckpoint s;
     turningWhileIdle := turningWhileIdle s; forward := forward s;
     backward := backward s; right := right s; left := left s;
     controls := controls s; curve_verts := curve_verts s;
     rotation := rotation s; previousYRotation := previousYRotation s;
     previousXRotation := previousXRotation s;
     trackPosition := trackPosition s; carBox := carBox s;
     keydownListener := keydownListener s; message := message s |}.

Definition set_hasWon (x : bool) (s : State) : State :=
  {| gameStartTime := gameStartTime s; gamePausedTime := gamePausedTime s;
     gameCurrTime := gameCurrTime s; atTitleScreen := atTitleScreen s;
     inHelpMenu := inHelpMenu s; hasStarted := hasStarted s;
     isPaused := isPaused s; isIdle := isIdle s; hasCrashed := hasCrashed s;
     hasWon := x; hasReachedCheckpoint := hasReachedCheckpoint s;
     turningWhileIdle := turningWhileIdle s; forward := forward s;
     backward := backward s; right := right s; left := left s;
     controls := controls s; curve_verts := curve_verts s;
     rotation := rotation s; previousYRotation := previousYRotation s;
     previousXRotation := previousXRotation s;
     trackPosition := trackPosition s; carBox := carBox s;
     keydownListener := keydownListener s; message := message s |}.

Definition set_hasReachedCheckpoint (x : bool) (s : State) : State :=
  {| gameStartTime := gameStartTime s; gamePausedTime := gamePausedTime s;
     gameCurrTime := gameCurrTime s; atTitleScreen := atTitleScreen s;
     inHelpMenu := inHelpMenu s; hasStarted := hasStarted s;
     isPaused := isPaused s; isIdle := isIdle s; hasCrashed := hasCrashed s;
     hasWon := hasWon s; hasReachedCheckpoint := x;
     turningWhileIdle := turningWhileIdle s; forward := forward s;
     backward := backward s; right := right s; left := left s;
     controls := controls s; curve_verts := curve_verts s;
     rotation := rotation s; previousYRotation := previousYRotation s;
     previousXRotation := previousXRotation s;
     trackPosition := trackPosition s; carBox := carBox s;
     keydownListener := keydownListener s; message := message s |}.

Definition set_turningWhileIdle (x : TurningWhileIdle) (s : State) : State :=
  {| gameStartTime := gameStartTime s; gamePausedTime := gamePausedTime s;
     gameCurrTime := gameCurrTime s; atTitleScreen := atTitleScreen s;
     inHelpMenu := inHelpMenu s; hasStarted := hasStarted s;
     isPaused := isPaused s; isIdle := isIdle s; hasCrashed := hasCrashed s;
     hasWon := hasWon s; hasReachedCheckpoint := hasReachedCheckpoint s;
     turningWhileIdle := x; forward := forward s; backward := backward s;
     right := right s; left := left s; controls := controls s;
     curve_verts := curve_verts s; rotation := rotation s;
     previousYRotation := previousYRotation s;
     previousXRotation := previousXRotation s;
     trackPosition := trackPosition s; carBox := carBox s;
     keydownListener := keydownListener s; message := message s |}.

Definition set_forward (x : string) (s : State) : State :=
  {| gameStartTime := gameStartTime s; gamePausedTime := gamePausedTime s;
     gameCurrTime := gameCurrTime s; atTitleScreen := atTitleScreen s;
     inHelpMenu := inHelpMenu s; hasStarted := hasStarted s;
     isPaused := isPaused s; isIdle := isIdle s; hasCrashed := hasCrashed s;
     hasWon := hasWon s; hasReachedCheckpoint := hasReachedCheckpoint s;
     turningWhileIdle := turningWhileIdle s; forward := x;
     backward := backward s; right := right s; left := left s;
     controls := controls s; curve_verts := curve_verts s;
     rotation := rotation s; previousYRotation := previousYRotation s;
     previousXRotation := previousXRotation s;
     trackPosition := trackPosition s; carBox := carBox s;
     keydownListener := keydownListener s; message := message s |}.

Definition set_backward (x : string) (s : State) : State :=
  {| gameStartTime := gameStartTime s; gamePausedTime := gamePausedTime s;
     gameCurrTime := gameCurrTime s; atTitleScreen := atTitleScreen s;
     inHelpMenu := inHelpMenu s; hasStarted := hasStarted s;
     isPaused := isPaused s; isIdle := isIdle s; hasCrashed := hasCrashed s;
     hasWon := hasWon s; hasReachedCheckpoint := hasReachedCheckpoint s;
     turningWhileIdle := turningWhileIdle s; forward := forward s;
     backward := x; right := right s; left := left s; controls := controls s;
     curve_verts := curve_verts s; rotation := rotation s;
     previousYRotation := previousYRotation s;
     previousXRotation := previousXRotation s;
     trackPosition := trackPosition s; carBox := carBox s;
     keydownListener := keydownListener s; message := message s |}.

Definition set_right (x : string) (s : State) : State :=
  {| gameStartTime := gameStartTime s; gamePausedTime := gamePausedTime s;
     gameCurrTime := gameCurrTime s; atTitleScreen := atTitleScreen s;
     inHelpMenu := inHelpMenu s; hasStarted := hasStarted s;
     isPaused := isPaused s; isIdle := isIdle s; hasCrashed := hasCrashed s;
     hasWon := hasWon s; hasReachedCheckpoint := hasReachedCheckpoint s;
     turningWhileIdle := turningWhileIdle s; forward := forward s;
     backward := backward s; right := x; left := left s;
     controls := controls s; curve_verts := curve_verts s;
     rotation := rotation s; previousYRotation := previousYRotation s;
     previousXRotation := previousXRotation s;
     trackPosition := trackPosition s; carBox := carBox s;
     keydownListener := keydownListener s; message := message s |}.

Definition set_left (x : string) (s : State) : State :=
  {| gameStartTime := gameStartTime s; gamePausedTime := gamePausedTime s;
     gameCurrTime := gameCurrTime s; atTitleScreen := atTitleScreen s;
     inHelpMenu := inHelpMenu s; hasStarted := hasStarted s;
     isPaused := isPaused s; isIdle := isIdle s; hasCrashed := hasCrashed s;
     hasWon := hasWon s; hasReachedCheckpoint := hasReachedCheckpoint s;
     turningWhileIdle := turningWhileIdle s; forward := forward s;
     backward := backward s; right := right s; left := x;
     controls := controls s; curve_verts := curve_verts s;
     rotation := rotation s; previousYRotation := previousYRotation s;
     previousXRotation := previousXRotation s;
     trackPosition := trackPosition s; carBox := carBox s;
     keydownListener := keydownListener s; message := message s |}.

Definition set_controls (x : Controls) (s : State) : State :=
  {| gameStartTime := gameStartTime s; gamePausedTime := gamePausedTime s;
     gameCurrTime := gameCurrTime s; atTitleScreen := atTitleScreen s;
     inHelpMenu := inHelpMenu s; hasStarted := hasStarted s;
     isPaused := isPaused s; isIdle := isIdle s; hasCrashed := hasCrashed s;
     hasWon := hasWon s; hasReachedCheckpoint := hasReachedCheckpoint s;
     turningWhileIdle := turningWhileIdle s; forward := forward s;
     backward := backward s; right := right s; left := left s; controls := x;
     curve_verts := curve_verts s; rotation := rotation s;
     previousYRotation := previousYRotation s;
     previousXRotation := previousXRotation s;
     trackPosition := trackPosition s; carBox := carBox s;
     keydownListener := keydownListener s; message := message s |}.

Definition set_rotation (x : vec3) (s : State) : State :=
  {| gameStartTime := gameStartTime s; gamePausedTime := gamePausedTime s;
     gameCurrTime := gameCurrTime s; atTitleScreen := atTitleScreen s;
     inHelpMenu := inHelpMenu s; hasStarted := hasStarted s;
     isPaused := isPaused s; isIdle := isIdle s; hasCrashed := hasCrashed s;
     hasWon := hasWon s; hasReachedCheckpoint := hasReachedCheckpoint s;
     turningWhileIdle := turningWhileIdle s; forward := forward s;
     backward := backward s; right := right s; left := left s;
     controls := controls s; curve_verts := curve_verts s; rotation := x;
     previousYRotation := previousYRotation s;
     previousXRotation := previousXRotation s;
     trackPosition := trackPosition s; carBox := carBox s;
     keydownListener := keydownListener s; message := message s |}.

Definition set_previousYRotation (x : R) (s : State) : State :=
  {| gameStartTime := gameStartTime s; gamePausedTime := gamePausedTime s;
     gameCurrTime := gameCurrTime s; atTitleScreen := atTitleScreen s;
     inHelpMenu := inHelpMenu s; hasStarted := hasStarted s;
     isPaused := isPaused s; isIdle := isIdle s; hasCrashed := hasCrashed s;
     hasWon := hasWon s; hasReachedCheckpoint := hasReachedCheckpoint s;
     turningWhileIdle := turningWhileIdle s; forward := forward s;
     backward := backward s; right := right s; left := left s;
     controls := controls s; curve_verts := curve_verts s;
     rotation := rotation s; previousYRotation := x;
     previousXRotation := previousXRotation s;
     trackPosition := trackPosition s; carBox := carBox s;
     keydownListener := keydownListener s; message := message s |}.

Definition set_previousXRotation (x : R) (s : State) : State :=
  {| gameStartTime := gameStartTime s; gamePausedTime := gamePausedTime s;
     gameCurrTime := gameCurrTime s; atTitleScreen := atTitleScreen s;
     inHelpMenu := inHelpMenu s; hasStarted := hasStarted s;
     isPaused := isPaused s; isIdle := isIdle s; hasCrashed := hasCrashed s;
     hasWon := hasWon s; hasReachedCheckpoint := hasReachedCheckpoint s;
     turningWhileIdle := turningWhileIdle s; forward := forward s;
     backward := backward s; right := right s; left := left s;
     controls := controls s; curve_verts := curve_verts s;
     rotation := rotation s; previousYRotation := previousYRotation s;
     previousXRotation := x; trackPosition := trackPosition s;
     carBox := carBox s; keydownListener := keydownListener s;
     message := message s |}.

Definition set_trackPosition (x : vec3) (s : State) : State :=
  {| gameStartTime := gameStartTime s; gamePausedTime := gamePausedTime s;
     gameCurrTime := gameCurrTime s; atTitleScreen := atTitleScreen s;
     inHelpMenu := inHelpMenu s; hasStarted := hasStarted s;
     isPaused := isPaused s; isIdle := isIdle s; hasCrashed := hasCrashed s;
     hasWon := hasWon s; hasReachedCheckpoint := hasReachedCheckpoint s;
     turningWhileIdle := turningWhileIdle s; forward := forward s;
     backward := backward s; right := right s; left := left s;
     controls := controls s; curve_verts := curve_verts s;
     rotation := rotation s; previousYRotation := previousYRotation s;
     previousXRotation := previousXRotation s; trackPosition := x;
     carBox := carBox s; keydownListener := keydownListener s;
     message := message s |}.

Definition set_keydownListener (x : bool) (s : State) : State :=
  {| gameStartTime := gameStartTime s; gamePausedTime := gamePausedTime s;
     gameCurrTime := gameCurrTime s; atTitleScreen := atTitleScreen s;
     inHelpMenu := inHelpMenu s; hasStarted := hasStarted s;
     isPaused := isPaused s; isIdle := isIdle s; hasCrashed := hasCrashed s;
     hasWon := hasWon s; hasReachedCheckpoint := hasReachedCheckpoint s;
     turningWhileIdle := turningWhileIdle s; forward := forward s;
     backward := backward s; right := right s; left := left s;
     controls := controls s; curve_verts := curve_verts s;
     rotation := rotation s; previousYRotation := previousYRotation s;
     previousXRotation := previousXRotation s;
     trackPosition := trackPosition s; carBox := carBox s;
     keydownListener := x; message := message s |}.

Definition set_message (x : string) (s : State) : State :=
  {| gameStartTime := gameStartTime s; gamePausedTime := gamePausedTime s;
     gameCurrTime := gameCurrTime s; atTitleScreen := atTitleScreen s;
     inHelpMenu := inHelpMenu s; hasStarted := hasStarted s;
     isPaused := isPaused s; isIdle := isIdle s; hasCrashed := hasCrashed s;
     hasWon := hasWon s; hasReachedCheckpoint := hasReachedCheckpoint s;
     turningWhileIdle := turningWhileIdle s; forward := forward s;
     backward := backward s; right := right s; left := left s;
     controls := controls s; curve_verts := curve_verts s;
     rotation := rotation s; previousYRotation := previousYRotation s;
     previousXRotation := previousXRotation s;
     trackPosition := trackPosition s; carBox := carBox s;
     keydownListener := keydownListener s; message := x |}.

(* ================================================================== *)
(** ** Comparisons and [controls] *)

Definition Rltb (a b : R) : bool := if Rlt_dec a b then true else false.
Definition Rgtb (a b : R) : bool := Rltb b a.
Definition Reqb (a b : R) : bool := if Req_dec_T a b then true else false.

(** A number that may be NaN; a comparison with NaN is false. *)
Definition ltN (a b : option R) : bool :=
  match a, b with
  | Some x, Some y => Rltb x y
  | _, _ => false
  end.

(** [controls[key]] for a bound key: the direction the key is bound to.
    The tests follow the insertion order of [setControls]. *)
Definition dirOfKey (s : State) (key : string) : option Dir :=
  if String.eqb key (forward s) then Some Forward
  else if String.eqb key (right s) then Some Right
  else if String.eqb key (backward s) then Some Backward
  else if String.eqb key (left s) then Some Left
  else None.

Definition keyOfDir (s : State) (d : Dir) : string :=
  match d with
  | Forward => forward s
  | Right => right s
  | Backward => backward s
  | Left => left s
  end.

Definition getControl (c : Controls) (d : Dir) : Control :=
  match d with
  | Forward => c_forward c
  | Right => c_right c
  | Backward => c_backward c
  | Left => c_left c
  end.

Definition setControl (c : Controls) (d : Dir) (x : Control) : Controls :=
  match d with
  | Forward => {| c_forward := x; c_right := c_right c;
                  c_backward := c_backward c; c_left := c_left c |}
  | Right => {| c_forward := c_forward c; c_right := x;
                c_backward := c_backward c; c_left := c_left c |}
  | Backward => {| c_forward := c_forward c; c_right := c_right c;
                   c_backward := x; c_left := c_left c |}
  | Left => {| c_forward := c_forward c; c_right := c_right c;
               c_backward := c_backward c; c_left := x |}
  end.

Definition setPressed (d : Dir) (b : bool) (s : State) : State :=
  let c := getControl (controls s) d in
  set_controls
    (setControl (controls s) d {| pressed := b; value := value c |}) s.

Definition setValue (d : Dir) (x : R) (s : State) : State :=
  let c := getControl (controls s) d in
  set_controls
    (setControl (controls s) d {| pressed := pressed c; value := x |}) s.

Definition ctl (s : State) (d : Dir) : Control := getControl (controls s) d.

(** [setControls]. *)
Definition setControls (s : State) : State :=
  set_controls
    {| c_forward := {| pressed := false; value := 0 |};
       c_right := {| pressed := false; value := -0.5 |};
       c_backward := {| pressed := false; value := 0 |};
       c_left := {| pressed := false; value := 0.5 |} |} s.

(* ================================================================== *)
(** ** Physics: [round], [accelerate], [crash] *)

(** [Math.round]: the nearest integer, halves going up. *)
Definition Math_round (x : R) : R := IZR (Zfloor (x + 1 / 2)).

(** [round(value, factor)]: to the nearest millionth. *)
Definition round (value factor : R) : R :=
  Math_round (1000000 * (value + factor)) / 1000000.

(** [accelerate()]. *)
Definition accelerate (s : State) : State :=
  let forwardVel := value (ctl s Forward) in
  let backwardVel := value (ctl s Backward) in
  let s :=
    if negb (isPaused s) then
      let s :=
        if pressed (ctl s Forward) then
          if Rltb forwardVel maxPower
          then setValue Forward (round forwardVel powerFactor) s else s
        else if negb (pressed (ctl s Forward)) then
          if Rgtb forwardVel 0
          then setValue Forward (round forwardVel (- powerFactor)) s else s
        else s in
      if pressed (ctl s Backward) then
        if hasCrashed s
        then setValue Backward (round backwardVel (- reverseFactor * 5)) s
        else if Rgtb backwardVel maxReverse
        then setValue Backward (round backwardVel reverseFactor) s else s
      else if negb (pressed (ctl s Backward)) then
        if Rltb backwardVel 0
        then setValue Backward (round backwardVel (- reverseFactor)) s else s
      else s
    else s in
  if Reqb (value (ctl s Forward)) 0 && Reqb (value (ctl s Backward)) 0
  then set_isIdle true s else s.

(** [crash()]. *)
Definition crash (s : State) : State :=
  let s := set_hasCrashed true s in
  let s := setPressed Backward true s in
  let s := setValue Backward maxReverse s in
  set_keydownListener false s.

(* ================================================================== *)
(** ** Timer and progress flags *)

(** [calculateElapsedTime()]; [currTime] is the value of [new Date()]. *)
Definition calculateElapsedTime (currTime : Z) (s : State) : State :=
  let s := if isPaused s
           then set_gamePausedTime (currTime - gameCurrTime s)%Z s else s in
  if negb (hasWon s)
  then set_gameCurrTime (currTime - gamePausedTime s)%Z s else s.

(** The whole seconds [updateTimer] shows ([Math.round] of the elapsed
    milliseconds over 1000); the text of the display is left out. *)
Definition elapsedTime (s : State) : Z :=
  match gameStartTime s with
  | Some start => ((2 * (gameCurrTime s - start) + 1000) / 2000)%Z
  | None => ((2 * gameCurrTime s + 1000) / 2000)%Z
  end.

(** [updateTimer()]. *)
Definition updateTimer (currTime : Z) (s : State) : State :=
  calculateElapsedTime currTime s.

(** [checkReachedCheckpoint()].  [vec3.distance] is called with three
    arguments, a fresh [vec3.create()] first. *)
Definition checkReachedCheckpoint (s : State) : State :=
  if Rgtb (call_surplus GlMatrix.distance GlMatrix.create (trackPosition s)
             carPosition) 3.5
  then set_hasReachedCheckpoint true s else s.

(** [checkReachedFinish()]. *)
Definition checkReachedFinish (s : State) : State :=
  if Rltb (call_surplus GlMatrix.distance GlMatrix.create (trackPosition s)
             carPosition) 0.3
  then
    let s := set_keydownListener false s in
    let s := set_hasWon true s in
    set_message "COMPLETE!" s
  else s.

(* ================================================================== *)
(** ** The track follower: [stayOnTrack] and its inner functions *)

(** [TypedArray.prototype.subarray(begin, end)]: a negative bound counts
    from the end, both bounds are clamped to the array. *)
Definition subarray (a : list R) (b e : Z) : list R :=
  let len := Z.of_nat (List.length a) in
  let clamp (i : Z) := if (i <? 0)%Z then Z.max (len + i) 0 else Z.min i len in
  let beginIndex := clamp b in
  let endIndex := clamp e in
  firstn (Z.to_nat (Z.max (endIndex - beginIndex) 0))
         (skipn (Z.to_nat beginIndex) a).

(** Elements 0, 1 and 2 of an array as a vector; a missing element reads as
    [undefined] and turns the vector into NaN. *)
Definition vecOfArray (a : list R) : nvec :=
  match a with
  | x :: y :: z :: _ => Some (Vec x y z)
  | _ => None
  end.

Definition distanceN (a : vec3) (b : nvec) : option R :=
  option_map (GlMatrix.distance a) b.

(** [track.curve_verts.length]. *)
Definition curveLength (s : State) : Z :=
  Z.of_nat (List.length (curve_verts s)).

(** [getCurvePoint(start_index)].  The second and the third rotation take
    [curve_point] as their input again and overwrite [rotatedCurvePoint]. *)
Definition getCurvePoint (s : State) (start_index : Z) : nvec * Z :=
  let curve_point :=
    vecOfArray (subarray (curve_verts s) start_index (start_index + 3)) in
  let origin := Vec 0 0 0 in
  (match curve_point with
   | Some curve_point =>
     let rotatedCurvePoint :=
       GlMatrix.rotateX curve_point origin (deg2rad (v0 (rotation s))) in
     let rotatedCurvePoint :=
       GlMatrix.rotateY curve_point origin (deg2rad (v1 (rotation s))) in
     let rotatedCurvePoint :=
       GlMatrix.rotateZ curve_point origin (deg2rad (v2 (rotation s))) in
     let rotatedCurvePoint :=
       GlMatrix.rotateY rotatedCurvePoint origin (deg2rad 85) in
     Some (GlMatrix.add rotatedCurvePoint
             (Vec (v0 (trackPosition s)) (v1 (trackPosition s))
                  (v2 (trackPosition s) + v2 carPosition)))
   | None => None
   end, start_index).

(** [determinePointByDistance(beforePoint, afterPoint)].  Both calls of
    [vec3.distance] have three arguments. *)
Definition determinePointByDistance {A : Type} (beforePoint afterPoint : A)
  : A :=
  let pointBeforeDistance :=
    call_surplus GlMatrix.distance GlMatrix.create carPosition beforePoint in
  let pointAfterDistance :=
    call_surplus GlMatrix.distance GlMatrix.create carPosition afterPoint in
  if Rltb pointAfterDistance pointBeforeDistance
  then afterPoint else beforePoint.

(** The object [shortestDistance]. *)
Record Shortest : Type := {
  vertex : nvec;
  distance : option R;
  index : Z
}.

(** The [for] loop of [getClosestPointOnCurve]: [j] is the index to read,
    [i] the index read last, which is what the loop condition tests.  The
    start indices passed to [getCurvePoint] are logged in [calls]. *)
Fixpoint closestLoop (fuel : nat) (s : State) (j i : Z)
  (shortestDistance : Shortest) (calls : list Z)
  : option (Shortest * list Z) :=
  match fuel with
  | O => None
  | S fuel =>
    if (i <? curveLength s)%Z then
      let '(curve_point, i) := getCurvePoint s j in
      let distance' := distanceN carPosition curve_point in
      let shortestDistance :=
        if ltN distance' (distance shortestDistance)
        then {| vertex := curve_point; distance := distance'; index := i |}
        else shortestDistance in
      closestLoop fuel s (j + 3) i shortestDistance (calls ++ [j])
    else Some (shortestDistance, calls)
  end.

(** [getClosestPointOnCurve()], with the log of its [getCurvePoint] calls. *)
Definition getClosestPointOnCurveLog (s : State)
  : option (Shortest * list Z) :=
  let '(curve_point, i) := getCurvePoint s 0 in
  let distance' := distanceN carPosition curve_point in
  let shortestDistance :=
    {| vertex := curve_point; distance := distance'; index := i |} in
  closestLoop (S (List.length (curve_verts s))) s 3 i shortestDistance [0%Z].

Definition getClosestPointOnCurve (s : State) : option Shortest :=
  option_map fst (getClosestPointOnCurveLog s).

(** The start indices [getClosestPointOnCurve] passes to [getCurvePoint]. *)
Definition getClosestPointOnCurve_calls (s : State) : option (list Z) :=
  option_map snd (getClosestPointOnCurveLog s).

(** [getDirection()]: [i] takes the values 0, 3, 6 and 9. *)
Definition getDirection (s : State) : bool :=
  existsb (fun i => Rgtb (v1 (rotation s)) (90 * i)
                    && Rltb (v1 (rotation s)) (90 * (i + 1)))
          [0; 3; 6; 9].

Definition addX (d : R) (v : vec3) : vec3 := Vec (v0 v + d) (v1 v) (v2 v).

(** [collide(point, directionVector, topLeft, topRight)]. *)
Definition collide (s : State) (point directionVector : vec3)
  (topLeft topRight : R) : State * vec3 :=
  let dirForward := getDirection s in
  let '(s, directionVector) :=
    if dirForward then
      if Rgtb (v0 point) 0 then
        if Rgtb topLeft 0.2
        then (crash s, addX (- 0.05) directionVector)
        else (s, directionVector)
      else
        if Rgtb topRight 0.1
        then (crash s, addX 0.05 directionVector)
        else (s, directionVector)
    else
      if Rgtb (v0 point) 0 then
        if Rgtb topRight 0.1
        then (crash s, addX (- 0.05) directionVector)
        else (s, directionVector)
      else
        if Rgtb topLeft 0.2
        then (crash s, addX 0.50 directionVector)
        else (s, directionVector) in
  let s := set_previousXRotation (v0 (rotation s)) s in
  let s := set_previousYRotation (v1 (rotation s)) s in
  (s, directionVector).

(** The statements of [stayOnTrack] that find the neighbours of the closest
    sample and project the car on the two segments: the final [vertex],
    [pointAfter] and [pointBefore]. *)
Definition adjacentPoints (s : State) (shortestDistance : Shortest)
  : nvec * nvec * nvec :=
  let '(vertex', j) := getCurvePoint s (index shortestDistance + 3) in
  let '(beforeVertex, k) := getCurvePoint s (index shortestDistance - 3) in
  let pointAfter :=
    getClosestCurvePointOnTrackN vertex' (vertex shortestDistance)
      carPosition in
  let pointBefore :=
    getClosestCurvePointOnTrackN beforeVertex (vertex shortestDistance)
      carPosition in
  if (j >=? curveLength s)%Z then
    let '(vertex', _) := getCurvePoint s 0 in
    (vertex',
     getClosestCurvePointOnTrackN vertex' (vertex shortestDistance)
       carPosition,
     pointBefore)
  else if (k <? 0)%Z then
    let '(vertex', _) := getCurvePoint s (curveLength s - 3) in
    (vertex',
     pointAfter,
     getClosestCurvePointOnTrackN vertex' (vertex shortestDistance)
       carPosition)
  else (vertex', pointAfter, pointBefore).

(** [getRotationAngleAndTranslate(vertex, beforePoint, afterPoint)]: the
    angle, and [directionVector] with its elevation changed.  [None] when
    the chosen point is NaN. *)
Definition getRotationAngleAndTranslate (directionVector vertex' : vec3)
  (beforePoint afterPoint : nvec) : option (R * vec3) :=
  match determinePointByDistance beforePoint afterPoint with
  | Some point =>
    let directionVector :=
      Vec (v0 directionVector)
          (v1 directionVector + (v1 carPosition - v1 point))
          (v2 directionVector) in
    let angle :=
      GlMatrix.angle
        (GlMatrix.subtract (Vec (v0 point) (v1 point + 0.1) (v2 point))
           point)
        (GlMatrix.subtract vertex' point) in
    Some (angle, directionVector)
  | None => None
  end.

(** What [stayOnTrack] hands to [collide]. *)
Record CollideArgs : Type := {
  ca_state : State;
  ca_point : vec3;
  ca_directionVector : vec3;
  ca_topLeft : R;
  ca_topRight : R
}.

(** [stayOnTrack(directionVector)] up to its call of [collide].  [None] when
    the loop ran out of fuel (it never does) or when [vertex] or the chosen
    point is NaN, which needs a track of fewer than two samples. *)
Definition stayOnTrack_toCollide (s : State) (directionVector : vec3)
  : option CollideArgs :=
  match getClosestPointOnCurve s with
  | None => None
  | Some shortestDistance =>
    let '(vertex', pointAfter, pointBefore) :=
      adjacentPoints s shortestDistance in
    match vertex' with
    | None => None
    | Some vertex' =>
      match getRotationAngleAndTranslate directionVector vertex'
              pointBefore pointAfter with
      | None => None
      | Some (angle, directionVector) =>
        let s :=
          set_rotation (Vec (- (90 - rad2deg angle)) (v1 (rotation s))
                            (v2 (rotation s))) s in
        match determinePointByDistance pointBefore pointAfter with
        | None => None
        | Some point =>
          let origin := Vec 0 0 0 in
          let point :=
            GlMatrix.rotateX point origin
              (- deg2rad (v0 (rotation s) - previousXRotation s)) in
          let point :=
            GlMatrix.rotateY point origin
              (- deg2rad (v1 (rotation s) - previousYRotation s)) in
          let topLeftDist :=
            GlMatrix.distance
              (Vec (minX (carBox s)) (v1 carPosition) (minZ (carBox s)))
              point in
          let topRightDist :=
            GlMatrix.distance
              (Vec (maxX (carBox s)) (v1 carPosition) (minZ (carBox s)))
              point in
          Some {| ca_state := s; ca_point := point;
                  ca_directionVector := directionVector;
                  ca_topLeft := topLeftDist; ca_topRight := topRightDist |}
        end
      end
    end
  end.

(** [stayOnTrack(directionVector)]: the state and the vector returned. *)
Definition stayOnTrack (s : State) (directionVector : vec3)
  : option (State * vec3) :=
  match stayOnTrack_toCollide s directionVector with
  | Some a =>
    Some (collide (ca_state a) (ca_point a) (ca_directionVector a)
            (ca_topLeft a) (ca_topRight a))
  | None => None
  end.

(** Whether [collide] calls [crash()]. *)
Definition collideCrashes (s : State) (point : vec3) (topLeft topRight : R)
  : bool :=
  if getDirection s then
    if Rgtb (v0 point) 0 then Rgtb topLeft 0.2 else Rgtb topRight 0.1
  else
    if Rgtb (v0 point) 0 then Rgtb topRight 0.1 else Rgtb topLeft 0.2.

(* ================================================================== *)
(** ** The frame: [updatePosition] and [render] *)

(** The body of the [forEach] over [Object.keys(controls)] in
    [updatePosition], for one key. *)
Definition driveKey (acc : State * vec3) (key : Dir) : State * vec3 :=
  let '(s, directionVector) := acc in
  let value' := value (ctl s key) in
  let directionVector :=
    match key with
    | Forward | Backward =>
      Vec (v0 directionVector) (v1 directionVector)
          (v2 directionVector + value')
    | _ => directionVector
    end in
  let turn (s : State) :=
    set_rotation (Vec (v0 (rotation s)) (v1 (rotation s) + value')
                      (v2 (rotation s))) s in
  let s :=
    match key with
    | Right => if pressed (ctl s key) then turn s else s
    | Left => if pressed (ctl s key) then turn s else s
    | _ => s
    end in
  (s, directionVector).

(** The block of [updatePosition] guarded by [if (!isPaused)]. *)
Definition drive (s : State) (directionVector : vec3) : State * vec3 :=
  if negb (isPaused s) then
    if negb (hasCrashed s) then
      fold_left driveKey [Forward; Right; Backward; Left]
        (s, directionVector)
    else
      let value' := value (ctl s Backward) in
      if Reqb (value (ctl s Backward)) 0 then
        let s := set_hasCrashed false s in
        let s := setPressed Backward false s in
        (set_keydownListener true s, directionVector)
      else
        (s, Vec (v0 directionVector) (v1 directionVector)
                (v2 directionVector + value'))
  else (s, directionVector).

(** The start of [updatePosition]: the progress check. *)
Definition checkProgress (s : State) : State :=
  if negb (hasReachedCheckpoint s) then checkReachedCheckpoint s
  else checkReachedFinish s.

(** [updatePosition()] up to its call of [stayOnTrack]: the state and the
    rotated [directionVector]. *)
Definition updatePosition_toTrack (s : State) : State * vec3 :=
  let directionVector := Vec 0 0 0 in
  let s := checkProgress s in
  let s := accelerate s in
  let '(s, directionVector) := drive s directionVector in
  let origin := Vec 0 0 0 in
  let directionVector :=
    GlMatrix.rotateX directionVector origin (- deg2rad (v0 (rotation s))) in
  let directionVector :=
    GlMatrix.rotateY directionVector origin (- deg2rad (v1 (rotation s))) in
  let directionVector :=
    GlMatrix.rotateZ directionVector origin (- deg2rad (v2 (rotation s))) in
  (s, directionVector).

(** [updatePosition()].  The matrices it builds for the renderer are left
    out. *)
Definition updatePosition (s : State) : option State :=
  let '(s, directionVector) := updatePosition_toTrack s in
  match stayOnTrack s directionVector with
  | Some (s, vector) =>
    Some (set_trackPosition (GlMatrix.add (trackPosition s) vector) s)
  | None => None
  end.

(** Whether [collide] calls [crash()] in the frame that starts in [s]. *)
Definition frameCrashes (s : State) : bool :=
  let '(s, directionVector) := updatePosition_toTrack s in
  match stayOnTrack_toCollide s directionVector with
  | Some a =>
    collideCrashes (ca_state a) (ca_point a) (ca_topLeft a) (ca_topRight a)
  | None => false
  end.

(** [render()], drawing left out; [now] is what [new Date()] returns. *)
Definition render (now : Z) (s : State) : option State :=
  match updatePosition s with
  | Some s =>
    Some (match gameStartTime s with
          | Some _ => updateTimer now s
          | None => s
          end)
  | None => None
  end.

(* ================================================================== *)
(** ** Event handlers *)

(** [pause()]. *)
Definition pause (s : State) : State :=
  if isPaused s then
    let s := set_keydownListener true s in
    let s := set_message "" s in
    set_isPaused false s
  else
    let s := set_keydownListener false s in
    let s := fold_left (fun s key => setPressed key false s)
               [Forward; Right; Backward; Left] s in
    let s := set_message "PAUSED" s in
    set_isPaused true s.

(** [onKeyDown(e)] with [key = e.key]. *)
Definition onKeyDown (now : Z) (key : string) (s : State) : State :=
  if negb (hasStarted s) then s
  else
    match dirOfKey s key with
    | Some d =>
      let s :=
        match gameStartTime s with
        | None => if hasStarted s then set_gameStartTime (Some now) s else s
        | Some _ => s
        end in
      if (String.eqb key (right s) || String.eqb key (left s)) && isIdle s
      then
        let s := setPressed d false s in
        set_turningWhileIdle {| isTurning := true; direction := key |} s
      else
        let s := setPressed d true s in
        let s := set_isIdle false s in
        if (String.eqb key (forward s) || String.eqb key (backward s))
           && isTurning (turningWhileIdle s)
        then
          match dirOfKey s (direction (turningWhileIdle s)) with
          | Some t => setPressed t true s
          | None => s
          end
        else s
    | None => s
    end.

(** [startPlaying()], audio left out. *)
Definition startPlaying (s : State) : State := set_hasStarted true s.

(** [initializeGame()]. *)
Definition initializeGame (now : Z) (s : State) : option State :=
  render now (startPlaying (setControls s)).

(** [randomRacingMode()]; [f], [r], [b], [l] are the shuffled keys. *)
Definition randomRacingMode (now : Z) (f r b l : string) (s : State)
  : option State :=
  let s := set_forward f s in
  let s := set_right r s in
  let s := set_backward b s in
  let s := set_left l s in
  initializeGame now s.

(** [onKeyUp(e)] with [key = e.key]. *)
Definition onKeyUp (now : Z) (shuffled : string * string * string * string)
  (key : string) (s : State) : option State :=
  if atTitleScreen s then Some (set_atTitleScreen false s)
  else if negb (hasStarted s) then
    if String.eqb key "1" then initializeGame now s
    else if String.eqb key "2" then
      let '(f, r, b, l) := shuffled in randomRacingMode now f r b l s
    else if String.eqb key "3" then initializeGame now s
    else if String.eqb key "h" && negb (inHelpMenu s)
    then Some (set_inHelpMenu true s)
    else if String.eqb key "b" && inHelpMenu s
    then Some (set_inHelpMenu false s)
    else Some s
  else if String.eqb key "p" then Some (pause s)
  else
    match dirOfKey s key with
    | Some d =>
      let s := setPressed d false s in
      let s :=
        if (String.eqb key (forward s) || String.eqb key (backward s))
           && isTurning (turningWhileIdle s)
        then
          match dirOfKey s (direction (turningWhileIdle s)) with
          | Some t => setPressed t false s
          | None => s
          end
        else s in
      Some (if String.eqb (direction (turningWhileIdle s)) key
            then set_turningWhileIdle
                   {| isTurning := false;
                      direction := direction (turningWhileIdle s) |} s
            else s)
    | None => Some s
    end.

(** What the browser can deliver: a key event or an animation frame. *)
Inductive Event : Type :=
| KeyDown (now : Z) (key : string)
| KeyUp (now : Z) (shuffled : string * string * string * string)
        (key : string)
| AnimationFrame (now : Z).

(** One step of the session.  A 'keydown' reaches [onKeyDown] only while the
    listener is registered; frames are requested from [initializeGame] on. *)
Definition step (e : Event) (s : State) : option State :=
  match e with
  | KeyDown now key =>
    Some (if keydownListener s then onKeyDown now key s else s)
  | KeyUp now shuffled key => onKeyUp now shuffled key s
  | AnimationFrame now => if hasStarted s then render now s else Some s
  end.

(** A run of the session: the events delivered one after the other. *)
Fixpoint run (es : list Event) (s : State) : option State :=
  match es with
  | [] => Some s
  | e :: es =>
    match step e s with
    | Some s => run es s
    | None => None
    end
  end.

(** [n] frames in a row, with no key event in between. *)
Fixpoint frames (n : nat) (s : State) : option State :=
  match n with
  | O => Some s
  | S n =>
    match updatePosition s with
    | Some s => frames n s
    | None => None
    end
  end.

(** [k] millionths. *)
Definition micro (k : Z) : R := IZR k / 1000000.

(** [n] calls of [accelerate] in a row. *)
Definition ticks (n : nat) (s : State) : State := Nat.iter n accelerate s.

(* ================================================================== *)
(** ** The two ramps in binary64

    The branches of [accelerate] that move the forward value while the key
    is held or released, and the backward value during a crash recovery,
    on IEEE 754 doubles as JavaScript computes them.  They are used to
    check that the exact model above and the doubles agree on the ramps. *)

Module Binary64.
Import Floats.

(* the decimal constants are rounded to the nearest double, as JavaScript
   reads them *)
Set Warnings "-inexact-float".

Definition two52 : float := 4503599627370496%float.

(** The largest integer not above [x], for [|x| < 2^51]. *)
Definition floor (x : float) : float :=
  let r := if (x <? 0)%float then ((x - two52) + two52)%float
           else ((x + two52) - two52)%float in
  if (x <? r)%float then (r - 1)%float else r.

(** [Math.round] on that range: the nearest integer, halves going up. *)
Definition Math_round (x : float) : float :=
  let f := floor x in
  if (x - f <? 0.5)%float then f else (f + 1)%float.

(** [round(value, factor)]. *)
Definition round (value factor : float) : float :=
  (Math_round (1000000 * (value + factor)) / 1000000)%float.

Definition maxPower : float := 0.01%float.
Definition maxReverse : float := (-0.002)%float.
Definition powerFactor : float := 0.00001%float.
Definition reverseFactor : float := (-0.000005)%float.

(** Forward pressed. *)
Definition forwardHeld (forwardVel : float) : float :=
  if (forwardVel <? maxPower)%float then round forwardVel powerFactor
  else forwardVel.

(** Forward not pressed. *)
Definition forwardReleased (forwardVel : float) : float :=
  if (0 <? forwardVel)%float then round forwardVel (- powerFactor)%float
  else forwardVel.

(** Backward pressed and [hasCrashed]. *)
Definition backwardCrashed (backwardVel : float) : float :=
  round backwardVel (- reverseFactor * 5)%float.

(** The values before each of [n] ticks, and the value after them. *)
Fixpoint trajectory (tick : float -> float) (n : nat) (v : float)
  : list float * float :=
  match n with
  | O => ([], v)
  | S n => let '(l, w) := trajectory tick n (tick v) in (v :: l, w)
  end.

Fixpoint increasing (l : list float) : bool :=
  match l with
  | a :: (b :: _) as t => (a <? b)%float && increasing t
  | _ => true
  end.

Fixpoint sameValues (l m : list float) : bool :=
  match l, m with
  | [], [] => true
  | a :: l, b :: m => (a =? b)%float && sameValues l m
  | _, _ => false
  end.

End Binary64.

(* ================================================================== *)
(** ** Derived notions used in the statements *)

(** Sample [k] of the polyline in world space, as [getCurvePoint] hands it
    out, and its distance to the car. *)
Definition worldSample (s : State) (k : nat) : nvec :=
  fst (getCurvePoint s (3 * Z.of_nat k)).

Definition sampleDistance (s : State) (k : nat) : option R :=
  distanceN carPosition (worldSample s k).

(** What the progress check compares with the thresholds: the distance from
    the scene origin to [trackPosition]; [carPosition] is a surplus
    argument. *)
Definition progressDistance (s : State) : R :=
  GlMatrix.distance GlMatrix.create (trackPosition s).

(** The world-space transform of a sample as the specification words it:
    pitch about X, then yaw about Y, then roll about Z, then the fixed 85
    degrees about Y, then the translation by the track's offset plus the
    car's longitudinal offset. *)
Definition specWorldTransform (s : State) (p : vec3) : vec3 :=
  let origin := Vec 0 0 0 in
  let q := GlMatrix.rotateX p origin (deg2rad (v0 (rotation s))) in
  let q := GlMatrix.rotateY q origin (deg2rad (v1 (rotation s))) in
  let q := GlMatrix.rotateZ q origin (deg2rad (v2 (rotation s))) in
  let q := GlMatrix.rotateY q origin (deg2rad 85) in
  GlMatrix.add q
    (Vec (v0 (trackPosition s)) (v1 (trackPosition s))
         (v2 (trackPosition s) + v2 carPosition)).

(** Cosine and sine of the fixed 85 degrees. *)
Definition c85 : R := cos (deg2rad 85).
Definition s85 : R := sin (deg2rad 85).

(* ================================================================== *)
(** ** Concrete tracks and states used below *)

(** The globals as [racing.js] initialises them, once the assets are loaded
    and [initEvents] has run. *)
Definition initialState (verts : list R) (box : CarBox) : State :=
  {| gameStartTime := None; gamePausedTime := 0; gameCurrTime := 0;
     atTitleScreen := true; inHelpMenu := false; hasStarted := false;
     isPaused := false; isIdle := true; hasCrashed := false;
     hasWon := false; hasReachedCheckpoint := false;
     turningWhileIdle := {| isTurning := false; direction := "" |};
     forward := "w"; backward := "s"; right := "a"; left := "d";
     controls :=
       {| c_forward := {| pressed := false; value := 0 |};
          c_right := {| pressed := false; value := -0.5 |};
          c_backward := {| pressed := false; value := 0 |};
          c_left := {| pressed := false; value := 0.5 |} |};
     curve_verts := verts; rotation := Vec 0 0 0;
     previousYRotation := 0; previousXRotation := 0;
     trackPosition := Vec 0 (-0.15) (-0.25);
     carBox := box; keydownListener := true; message := "" |}.

(** A track of two samples, (0,0,0) and (1,0,0). *)
Definition straightTrack : list R := [0; 0; 0; 1; 0; 0].

Definition smallBox : CarBox :=
  {| maxX := 0.02; minX := 0; maxZ := 0; minZ := -0.155 |}.

(** A session in play on [straightTrack]. *)
Definition playing : State :=
  set_atTitleScreen false
    (set_hasStarted true (initialState straightTrack smallBox)).

(** In play, checkpoint not reached yet, the track origin 3.50 and a bit
    from the scene origin. *)
Definition nearCheckpoint : State :=
  set_trackPosition (Vec 0.3 (-0.15) (-3.49)) playing.

(** In play, checkpoint reached, the track origin back near the scene
    origin. *)
Definition nearFinish : State :=
  set_hasReachedCheckpoint true
    (set_trackPosition (Vec (-0.2) (-0.15) 0.1) playing).

(** Paused in play on [straightTrack], the car over the first sample and
    0.07 above the track line. *)
Definition pausedAboveTrack : State :=
  set_isPaused true (set_trackPosition (Vec 0.01 (-0.15) 0) playing).

(** In play on [straightTrack], the car over the first sample and heading
    along the track (yaw 5), right after [crash()]. *)
Definition crashedOnStraight : State :=
  crash
    (set_previousYRotation 5
       (set_rotation (Vec 0 5 0)
          (set_trackPosition (Vec 0.01 (-0.08) 0) playing))).

(** The same recovery one tick before its end: the backward value is
    -0.000025. *)
Definition recoveryLastTick : State :=
  setValue Backward (-0.000025) crashedOnStraight.

(** In play on [straightTrack] after a quarter turn: yaw 90. *)
Definition quarterTurn : State := set_rotation (Vec 0 90 0) playing.

(** A track of two samples that climbs: (0,0,0) and (1,1,0). *)
Definition slopedTrack : list R := [0; 0; 0; 1; 1; 0].

(** The session on [slopedTrack] when the page has loaded. *)
Definition gameStart : State := initialState slopedTrack smallBox.


(** A track of three samples with a bend at the second one: (0,0,1),
    (0,0,0) and (0,1,0). *)
Definition bentTrack : list R := [0; 0; 1; 0; 0; 0; 0; 1; 0].

(** The session on [bentTrack] when [initializeGame] draws the first frame:
    a key has left the title screen and '1' has chosen the mode. *)
Definition bentStart : State :=
  startPlaying
    (setControls (set_atTitleScreen false (initialState bentTrack smallBox))).

(* ================================================================== *)
(** ** Predicates and relations used in the statements *)

(** The part of the state that only event handlers and the progress check
    write. *)
Record sameSession (s s' : State) : Prop := {
  ss_hasWon : hasWon s' = hasWon s;
  ss_checkpoint : hasReachedCheckpoint s' = hasReachedCheckpoint s;
  ss_isPaused : isPaused s' = isPaused s;
  ss_hasStarted : hasStarted s' = hasStarted s;
  ss_atTitleScreen : atTitleScreen s' = atTitleScreen s;
  ss_gameStartTime : gameStartTime s' = gameStartTime s;
  ss_gameCurrTime : gameCurrTime s' = gameCurrTime s;
  ss_gamePausedTime : gamePausedTime s' = gamePausedTime s;
  ss_curve_verts : curve_verts s' = curve_verts s;
  ss_carBox : carBox s' = carBox s
}.

(** [sd] is the first nearest sample among samples [0 .. m] (those of them
    that exist). *)
Definition bestUpTo (s : State) (N m : nat) (sd : Shortest) : Prop :=
  exists k d,
    (k <= m)%nat /\ (k < N)%nat
    /\ index sd = (3 * Z.of_nat k)%Z
    /\ vertex sd = worldSample s k
    /\ distance sd = Some d
    /\ sampleDistance s k = Some d
    /\ (forall q, (q <= m)%nat -> (q < N)%nat ->
                  exists dq, sampleDistance s q = Some dq /\ d <= dq)
    /\ (forall q, (q < k)%nat ->
                  exists dq, sampleDistance s q = Some dq /\ d < dq).

(** [hasWon] and [hasReachedCheckpoint] are not taken back from [s] to
    [s']. *)
Definition flagsKept (s s' : State) : Prop :=
  (hasWon s = true -> hasWon s' = true)
  /\ (hasReachedCheckpoint s = true -> hasReachedCheckpoint s' = true).

(** [accelerate] writes the two values and [isIdle], nothing else. *)
Record sameButValues (s s' : State) : Prop := {
  sv_session : sameSession s s';
  sv_hasCrashed : hasCrashed s' = hasCrashed s;
  sv_listener : keydownListener s' = keydownListener s;
  sv_pressed : forall d, pressed (ctl s' d) = pressed (ctl s d);
  sv_turn_right : value (ctl s' Right) = value (ctl s Right);
  sv_turn_left : value (ctl s' Left) = value (ctl s Left);
  sv_rotation : rotation s' = rotation s;
  sv_previousX : previousXRotation s' = previousXRotation s;
  sv_previousY : previousYRotation s' = previousYRotation s;
  sv_trackPosition : trackPosition s' = trackPosition s
}.

(** The state of a crash recovery after [n] ticks. *)
Definition recovering (n : Z) (s : State) : Prop :=
  hasCrashed s = true
  /\ pressed (ctl s Backward) = true
  /\ value (ctl s Backward) = micro (-2000 + 25 * n)
  /\ keydownListener s = false
  /\ isPaused s = false.

(** The state once the recovery is over. *)
Definition recovered (s : State) : Prop :=
  hasCrashed s = false
  /\ pressed (ctl s Backward) = false
  /\ value (ctl s Backward) = 0
  /\ keydownListener s = true
  /\ isPaused s = false.


(** The pose and the track data. *)
Record samePose (s s' : State) : Prop := {
  sp_rotation : rotation s' = rotation s;
  sp_previousX : previousXRotation s' = previousXRotation s;
  sp_previousY : previousYRotation s' = previousYRotation s;
  sp_trackPosition : trackPosition s' = trackPosition s;
  sp_curve_verts : curve_verts s' = curve_verts s;
  sp_carBox : carBox s' = carBox s
}.

(** The car sits over the line of [straightTrack], [h] below it: the first
    sample is [lam] track units behind the car along the track, the roll is
    0 and the previous rotation equals the current one. *)
Definition onStraight (lam h yaw : R) (s : State) : Prop :=
  curve_verts s = straightTrack
  /\ carBox s = smallBox
  /\ v1 (rotation s) = yaw
  /\ v2 (rotation s) = 0
  /\ previousXRotation s = 0
  /\ previousYRotation s = yaw
  /\ trackPosition s = Vec (0.01 + lam * c85) (-0.08 + h) (- (lam * s85)).

(** The two samples of [straightTrack] in world space and the foot of the
    perpendicular from the car, for a state that is [onStraight lam h]. *)
Definition straightFirst (lam h : R) : vec3 :=
  Vec (0.01 + lam * c85) (-0.08 + h) (- (lam * s85) + -0.155).

Definition straightSecond (lam h : R) : vec3 :=
  Vec (c85 + (0.01 + lam * c85)) (-0.08 + h)
      (- s85 + (- (lam * s85) + -0.155)).

Definition straightFoot (h : R) : vec3 := Vec 0.01 (-0.08 + h) (-0.155).

(** On [slopedTrack], with roll 0: the parameter of the foot of the
    perpendicular from the car on the track line (counted from the first
    sample), the foot, and the elevation correction
    [carPosition[1] - point[1]], all as functions of [trackPosition]. *)
Definition slopedParam (tp : vec3) : R :=
  (c85 * (0.01 - v0 tp) + (-0.08 - v1 tp) + s85 * v2 tp) / 2.

Definition slopedFoot (tp : vec3) : vec3 :=
  Vec (v0 tp + c85 * slopedParam tp) (v1 tp + slopedParam tp)
      (v2 tp + -0.155 + - s85 * slopedParam tp).

Definition slopedLift (tp : vec3) : R := -0.08 - (v1 tp + slopedParam tp).

(** On [bentTrack] in its initial pose: the three samples in world space
    and the two projections of the car. *)
Definition bentFirst : vec3 := Vec s85 (-0.15) (c85 + -0.405).
Definition bentSecond : vec3 := Vec 0 (-0.15) (-0.405).
Definition bentThird : vec3 := Vec 0 0.85 (-0.405).

Definition bentParam : R := 0.01 * s85 + 0.25 * c85.

Definition bentBefore : vec3 :=
  Vec (bentParam * s85) (-0.15) (bentParam * c85 + -0.405).

Definition bentAfter : vec3 := Vec 0 (-0.08) (-0.405).

(* ================================================================== *)
(** ** Loading the models: [getFormattedVertices], [calculateCarBox] *)

(** [getFormattedVertices(coords, inds, step)]: the [step]-tuples of
    [coords] in the order of [inds].  [coords] is a [Float32Array], so the
    copy into a new [Float32Array] at the end rounds nothing. *)
Definition getFormattedVertices (coords : list R) (inds : list Z) (step : Z)
  : list R :=
  fold_left
    (fun formattedCoords index =>
       formattedCoords
       ++ subarray coords (index * step) (index * step + step))
    inds [].

Definition mustangScale : R := 0.018.

(** One round of the loop of [calculateCarBox]: [x] is [verts[i]] and [z]
    is [verts[i+2]], which is [undefined] ([None]) past the end of the
    array; a comparison with [undefined] is false. *)
Definition carBoxStep (corners : CarBox) (x : R) (z : option R) : CarBox :=
  let corners :=
    if Rgtb x (maxX corners)
    then {| maxX := x + v0 carPosition; minX := minX corners;
            maxZ := maxZ corners; minZ := minZ corners |}
    else if Rltb x (minX corners)
    then {| maxX := maxX corners; minX := x + v0 carPosition;
            maxZ := maxZ corners; minZ := minZ corners |}
    else corners in
  match z with
  | Some z =>
    if Rgtb z (maxZ corners)
    then {| maxX := maxX corners; minX := minX corners;
            maxZ := z + v2 carPosition; minZ := minZ corners |}
    else if Rltb z (minZ corners)
    then {| maxX := maxX corners; minX := minX corners;
            maxZ := maxZ corners; minZ := z + v2 carPosition |}
    else corners
  | None => corners
  end.

(** The loop [for (let i = 3; i < verts.length; i += 3)], on the elements
    from index 3 on. *)
Fixpoint carBoxLoop (verts : list R) (corners : CarBox) : CarBox :=
  match verts with
  | x :: _ :: z :: verts => carBoxLoop verts (carBoxStep corners x (Some z))
  | x :: _ => carBoxStep corners x None
  | [] => corners
  end.

(** [calculateCarBox()] on [car.vertices].  With fewer than three
    coordinates [verts[0]] or [verts[2]] is [undefined] and the corners are
    not numbers ([None]). *)
Definition calculateCarBox (verts : list R) : option CarBox :=
  match verts with
  | x :: _ :: z :: rest =>
    let corners :=
      carBoxLoop rest {| maxX := x; minX := x; maxZ := z; minZ := z |} in
    Some {| maxX := maxX corners * mustangScale;
            minX := minX corners * mustangScale;
            maxZ := maxZ corners * mustangScale;
            minZ := minZ corners * mustangScale |}
  | _ => None
  end.

(* ================================================================== *)
(** ** The shuffle of [randomRacingMode] *)

(** [keys[index]]: [undefined] ([None]) when [index] is not an index of
    the array. *)
Definition elementAt {A : Type} (keys : list A) (index : Z) : option A :=
  if (index <? 0)%Z then None else nth_error keys (Z.to_nat index).

(** [keys.splice(index, 1)]: what is left of [keys].  A negative [index]
    counts from the end; past the end nothing is removed. *)
Definition splice1 {A : Type} (keys : list A) (index : Z) : list A :=
  let len := Z.of_nat (List.length keys) in
  let start :=
    if (index <? 0)%Z then Z.max (len + index) 0 else Z.min index len in
  firstn (Z.to_nat start) keys ++ skipn (S (Z.to_nat start)) keys.

(** The [while] loop of [randomRacingMode]; [random n] is what the [n]-th
    call of [Math.random()] returns. *)
Fixpoint shuffleLoop (fuel : nat) (random : nat -> R) (n : nat)
  (keys : list string) (newControls : list (option string))
  : option (list (option string)) :=
  match fuel with
  | O => None
  | S fuel =>
    if negb (List.length keys =? 0)%nat then
      let index := Zfloor (random n * INR (List.length keys)) in
      let control := elementAt keys index in
      shuffleLoop fuel random (S n) (splice1 keys index)
        (newControls ++ [control])
    else Some newControls
  end.

(** [newControls] at the end of the loop: the keys [randomRacingMode]
    binds to forward, right, backward and left, in this order. *)
Definition shuffledKeys (fuel : nat) (random : nat -> R)
  : option (list (option string)) :=
  shuffleLoop fuel random 0 ["w"; "s"; "a"; "d"]%string [].

(* ================================================================== *)
(** ** The text of the timer *)

(** The text JavaScript gives an integer (of fewer than 22 digits). *)
Definition numberText (n : Z) : string :=
  NilZero.string_of_int (Z.to_int n).

(** The text [updateTimer] writes to [gl.timer], from its [elapsedTime]:
    [Math.floor] of the quotient, the remainder of [%], a "0" in front of a
    number below 10. *)
Definition timerText (elapsedTime : Z) : string :=
  let minutes := (elapsedTime / 60)%Z in
  let minutes :=
    if (minutes <? 10)%Z then ("0" ++ numberText minutes)%string
    else numberText minutes in
  let seconds := Z.rem elapsedTime 60 in
  let seconds :=
    if (seconds <? 10)%Z then ("0" ++ numberText seconds)%string
    else numberText seconds in
  (minutes ++ ":" ++ seconds)%string.

(* ================================================================== *)
(** ** The reverse ramp in binary64 *)

Module Binary64Reverse.
Import Floats.

(** Backward pressed, not crashed. *)
Definition backwardHeld (backwardVel : float) : float :=
  if (Binary64.maxReverse <? backwardVel)%float
  then Binary64.round backwardVel Binary64.reverseFactor
  else backwardVel.

(** Backward not pressed. *)
Definition backwardReleased (backwardVel : float) : float :=
  if (backwardVel <? 0)%float
  then Binary64.round backwardVel (- Binary64.reverseFactor)%float
  else backwardVel.

End Binary64Reverse.

(* ================================================================== *)
(** ** Further notions used in the statements *)

(** The assignments [rotation[0] = x] and [rotation[1] = x]. *)
Definition set_pitch (x : R) (s : State) : State :=
  set_rotation (Vec x (v1 (rotation s)) (v2 (rotation s))) s.

Definition set_yaw (x : R) (s : State) : State :=
  set_rotation (Vec (v0 (rotation s)) x (v2 (rotation s))) s.

(** [index] selects a whole [step]-tuple of [coords]. *)
Definition validIndex (coords : list R) (step index : Z) : Prop :=
  (0 <= index)%Z
  /\ (index * step + step <= Z.of_nat (List.length coords))%Z.

(** The character of a decimal digit, two digits with a leading zero, and
    a clock reading "MM:SS". *)
Definition digitChar (d : Z) : ascii := ascii_of_nat (48 + Z.to_nat d).

Definition twoDigits (n : Z) : string :=
  String (digitChar (n / 10)) (String (digitChar (n mod 10)) EmptyString).

Definition clockText (e : Z) : string :=
  (twoDigits (e / 60) ++ ":" ++ twoDigits (e mod 60))%string.

(** The four bound keys are pairwise distinct. *)
Definition keysDistinct (s : State) : Prop :=
  NoDup [forward s; right s; backward s; left s].

(** The forward value is a whole number of [powerFactor] steps between 0
    and [maxPower]. *)
Definition forwardOnRamp (s : State) : Prop :=
  exists k : Z, (0 <= k <= 1000)%Z /\ value (ctl s Forward) = micro (10 * k).

(** The turn rates as [setControls] sets them. *)
Definition turnRates (s : State) : Prop :=
  value (ctl s Right) = -0.5 /\ value (ctl s Left) = 0.5.

(* ================================================================== *)
(** ** Tactics *)

(** Case analysis on every [if] condition and every option match. *)
Ltac split_ifs :=
  repeat match goal with
         | |- context [if ?c then _ else _] => destruct c
         end.

Ltac split_matches :=
  repeat match goal with
         | |- context [match ?c with Some _ => _ | None => _ end] =>
           destruct c
         | |- context [if ?c then _ else _] => destruct c
         end.

(** Case analysis on the conditions of nested [if]s, innermost condition
    first, simplifying the setters in between. *)
Ltac split_ifs_inner :=
  repeat (match goal with
          | |- context [if ?c then _ else _] =>
            lazymatch c with
            | context [if _ then _ else _] => fail
            | _ => destruct c eqn:?
            end
          end;
          cbn -[Rltb Rgtb Reqb round] in *).

(** Closes a goal [f (assignment s) = f s] for a projection [f] that the
    assignment does not touch. *)
Ltac stable :=
  intros;
  try match goal with d : Dir |- _ => destruct d end;
  reflexivity.

(** In [H : P1 -> ... -> Pn -> forall ..., ...], discharges the premises
    [Pi] by [stable]. *)
Ltac stable_in H :=
  repeat match type of H with
         | ?P -> _ =>
           let HP := fresh in
           assert (HP : P) by stable; specialize (H HP); clear HP
         end;
  cbv beta in H.

(* ================================================================== *)
(** * Properties *)

(** ** Comparisons *)

Lemma Rltb_true (a b : R) : Rltb a b = true <-> a < b.
Proof. unfold Rltb; destruct (Rlt_dec a b); split; intros; try easy. Qed.

Lemma Rltb_false (a b : R) : Rltb a b = false <-> b <= a.
Proof.
  unfold Rltb; destruct (Rlt_dec a b); split; intros; try easy; lra.
Qed.

Lemma Reqb_true (a b : R) : Reqb a b = true <-> a = b.
Proof. unfold Reqb; destruct (Req_dec_T a b); split; intros; easy. Qed.

Lemma Reqb_false (a b : R) : Reqb a b = false <-> a <> b.
Proof. unfold Reqb; destruct (Req_dec_T a b); split; intros; easy. Qed.

Lemma Rltb_lt (a b : R) : a < b -> Rltb a b = true.
Proof. apply Rltb_true. Qed.

Lemma Rltb_ge (a b : R) : b <= a -> Rltb a b = false.
Proof. apply Rltb_false. Qed.

Lemma Reqb_eq (a b : R) : a = b -> Reqb a b = true.
Proof. apply Reqb_true. Qed.

Lemma Reqb_neq (a b : R) : a <> b -> Reqb a b = false.
Proof. apply Reqb_false. Qed.

(** ** The timer while paused *)

(** C9: a call of [calculateElapsedTime] made while [isPaused] is true and
    [hasWon] is false leaves [gameCurrTime] as it was, whatever the clock
    reads; hence the elapsed seconds shown stay frozen too. *)
Theorem calculateElapsedTime_paused_frozen (currTime : Z) (s : State) :
  isPaused s = true -> hasWon s = false ->
  gameCurrTime (calculateElapsedTime currTime s) = gameCurrTime s
  /\ elapsedTime (calculateElapsedTime currTime s) = elapsedTime s.
Proof.
  intros Hp Hw.
  assert (E : gameCurrTime (calculateElapsedTime currTime s)
              = gameCurrTime s).
  { unfold calculateElapsedTime. rewrite Hp. cbn. rewrite Hw. cbn. lia. }
  split; [exact E|].
  unfold elapsedTime. rewrite E.
  unfold calculateElapsedTime. rewrite Hp. cbn. rewrite Hw. reflexivity.
Qed.

Lemma calculateElapsedTime_paused_frozen_witness :
  gameCurrTime
    (calculateElapsedTime 987654
       (set_isPaused true (set_gameCurrTime 5000 playing))) = 5000%Z
  /\ elapsedTime
       (calculateElapsedTime 987654
          (set_isPaused true (set_gameCurrTime 5000 playing)))
     = elapsedTime (set_isPaused true (set_gameCurrTime 5000 playing)).
Proof.
  apply (calculateElapsedTime_paused_frozen 987654
           (set_isPaused true (set_gameCurrTime 5000 playing)));
    reflexivity.
Defined.

(** ** Choosing between the two projections *)

(** Both distances [determinePointByDistance] compares are the distance from
    the origin to the car, so the comparison never holds. *)
Lemma determinePointByDistance_before {A : Type} (beforePoint afterPoint : A) :
  determinePointByDistance beforePoint afterPoint = beforePoint.
Proof.
  unfold determinePointByDistance, call_surplus.
  rewrite Rltb_ge; [reflexivity | apply Rle_refl].
Qed.

(** ** Fields a frame leaves alone *)

Lemma sameSession_refl (s : State) : sameSession s s.
Proof. split; reflexivity. Qed.

Lemma sameSession_trans (s1 s2 s3 : State) :
  sameSession s1 s2 -> sameSession s2 s3 -> sameSession s1 s3.
Proof. intros [] []; split; congruence. Qed.

Lemma sameSession_crash (s : State) : sameSession s (crash s).
Proof. split; reflexivity. Qed.

Lemma sameSession_accelerate (s : State) : sameSession s (accelerate s).
Proof. unfold accelerate; split_ifs; split; reflexivity. Qed.

Lemma sameSession_driveKey (s : State) (dv : vec3) (key : Dir) :
  sameSession s (fst (driveKey (s, dv) key)).
Proof. unfold driveKey; destruct key; split_ifs; split; reflexivity. Qed.

Lemma sameSession_drive (s : State) (dv : vec3) :
  sameSession s (fst (drive s dv)).
Proof.
  unfold drive.
  destruct (negb (isPaused s)); [|apply sameSession_refl].
  destruct (negb (hasCrashed s)).
  - cbn [fold_left].
    repeat match goal with
           | |- context [driveKey (?a, ?b) ?k] =>
             let H := fresh in
             pose proof (sameSession_driveKey a b k) as H;
             destruct (driveKey (a, b) k); cbn [fst] in H
           end.
    cbn [fst]. eauto using sameSession_trans.
  - split_ifs; split; reflexivity.
Qed.

Lemma sameSession_collide (s : State) (point dv : vec3) (tl tr : R) :
  sameSession s (fst (collide s point dv tl tr)).
Proof. unfold collide; split_ifs; split; reflexivity. Qed.

Lemma sameSession_toCollide (s : State) (dv : vec3) (a : CollideArgs) :
  stayOnTrack_toCollide s dv = Some a -> sameSession s (ca_state a).
Proof.
  unfold stayOnTrack_toCollide.
  destruct (getClosestPointOnCurve s) as [sd|]; [|discriminate].
  destruct (adjacentPoints s sd) as [[[v|] pa] pb]; [|discriminate].
  destruct (getRotationAngleAndTranslate dv v pb pa) as [[ang dv']|];
    [|discriminate].
  destruct (determinePointByDistance pb pa); [|discriminate].
  intros E; injection E as <-. split; reflexivity.
Qed.

Lemma sameSession_stayOnTrack (s s' : State) (dv dv' : vec3) :
  stayOnTrack s dv = Some (s', dv') -> sameSession s s'.
Proof.
  unfold stayOnTrack.
  destruct (stayOnTrack_toCollide s dv) as [a|] eqn:Ea; [|discriminate].
  intros E; injection E as E.
  apply sameSession_toCollide in Ea.
  eapply sameSession_trans; [exact Ea|].
  pose proof (sameSession_collide (ca_state a) (ca_point a)
                (ca_directionVector a) (ca_topLeft a) (ca_topRight a)) as H.
  rewrite E in H. exact H.
Qed.

Lemma toTrack_sameSession (s : State) :
  sameSession (checkProgress s) (fst (updatePosition_toTrack s)).
Proof.
  unfold updatePosition_toTrack.
  pose proof (sameSession_accelerate (checkProgress s)) as Ha.
  pose proof (sameSession_drive (accelerate (checkProgress s)) (Vec 0 0 0))
    as Hd.
  destruct (drive (accelerate (checkProgress s)) (Vec 0 0 0)) as [s3 dv].
  cbn [fst] in *. eapply sameSession_trans; eassumption.
Qed.

Lemma checkProgress_curve_verts (s : State) :
  curve_verts (checkProgress s) = curve_verts s.
Proof.
  unfold checkProgress, checkReachedCheckpoint, checkReachedFinish.
  split_ifs; reflexivity.
Qed.

(** What the rest of a frame does to the session once the progress check
    is done. *)
Lemma updatePosition_sameSession (s s' : State) :
  updatePosition s = Some s' -> sameSession (checkProgress s) s'.
Proof.
  unfold updatePosition.
  pose proof (toTrack_sameSession s) as Ht.
  destruct (updatePosition_toTrack s) as [s3 dv]. cbn [fst] in Ht.
  destruct (stayOnTrack s3 dv) as [[s4 vec]|] eqn:Es; [|discriminate].
  apply sameSession_stayOnTrack in Es.
  intros E; injection E as <-.
  eapply sameSession_trans; [exact Ht|].
  eapply sameSession_trans; [exact Es|].
  split; reflexivity.
Qed.

(** ** Reading samples of [curve_verts] *)

Lemma subarray_in_range (a : list R) (N k : nat) :
  List.length a = (3 * N)%nat -> (k < N)%nat ->
  exists x y z,
    subarray a (3 * Z.of_nat k) (3 * Z.of_nat k + 3) = [x; y; z].
Proof.
  intros Hlen Hk. unfold subarray.
  destruct (Z.ltb_spec (3 * Z.of_nat k) 0) as [?|_]; [lia|].
  destruct (Z.ltb_spec (3 * Z.of_nat k + 3) 0) as [?|_]; [lia|].
  rewrite !Z.min_l by lia.
  replace (Z.to_nat (Z.max (3 * Z.of_nat k + 3 - 3 * Z.of_nat k) 0))
    with 3%nat by lia.
  assert (Hs : List.length (skipn (Z.to_nat (3 * Z.of_nat k)) a)
               = (3 * N - 3 * k)%nat).
  { rewrite length_skipn. lia. }
  destruct (skipn (Z.to_nat (3 * Z.of_nat k)) a) as [|x [|y [|z r]]];
    cbn in Hs; try lia.
  exists x, y, z. reflexivity.
Qed.

Lemma subarray_past_end (a : list R) (b e : Z) :
  (Z.of_nat (List.length a) <= b)%Z -> (b <= e)%Z -> subarray a b e = [].
Proof.
  intros Hb He. unfold subarray.
  destruct (Z.ltb_spec b 0) as [?|_]; [lia|].
  destruct (Z.ltb_spec e 0) as [?|_]; [lia|].
  rewrite !Z.min_r by lia.
  replace (Z.to_nat _) with 0%nat by lia. reflexivity.
Qed.

Lemma subarray_before_start (a : list R) :
  (3 <= List.length a)%nat -> subarray a (-3) (-3 + 3) = [].
Proof.
  intros Hlen. unfold subarray. change (-3 + 3)%Z with 0%Z.
  change (0 <? 0)%Z with false. change (-3 <? 0)%Z with true. cbv iota.
  replace (Z.to_nat (Z.max _ 0)) with 0%nat by lia. reflexivity.
Qed.

Lemma getCurvePoint_index (s : State) (start_index : Z) :
  snd (getCurvePoint s start_index) = start_index.
Proof. reflexivity. Qed.

Section Samples.

Variable s : State.
Variable N : nat.
Hypothesis wholeSamples : List.length (curve_verts s) = (3 * N)%nat.

Lemma curveLength_samples : curveLength s = (3 * Z.of_nat N)%Z.
Proof. unfold curveLength. rewrite wholeSamples. lia. Qed.

Lemma worldSample_in_range (k : nat) :
  (k < N)%nat -> exists w, worldSample s k = Some w.
Proof.
  intros Hk. unfold worldSample, getCurvePoint. cbn [fst].
  destruct (subarray_in_range _ N k wholeSamples Hk) as (x & y & z & E).
  rewrite E. cbn [vecOfArray]. eauto.
Qed.

Lemma sampleDistance_in_range (k : nat) :
  (k < N)%nat -> exists d, sampleDistance s k = Some d.
Proof.
  intros Hk. unfold sampleDistance.
  destruct (worldSample_in_range k Hk) as [w ->]. cbn. eauto.
Qed.

Lemma getCurvePoint_past_end (i : Z) :
  (3 * Z.of_nat N <= i)%Z -> fst (getCurvePoint s i) = None.
Proof.
  intros Hi. unfold getCurvePoint. cbn [fst].
  rewrite subarray_past_end; [reflexivity| |lia].
  rewrite wholeSamples. lia.
Qed.

Lemma getCurvePoint_before_start :
  (1 <= N)%nat -> fst (getCurvePoint s (-3)) = None.
Proof.
  intros HN. unfold getCurvePoint. cbn [fst].
  rewrite subarray_before_start; [reflexivity|].
  rewrite wholeSamples. lia.
Qed.

End Samples.

(** ** The nearest-sample search *)

Section ClosestLoop.

Variable s : State.
Variable N : nat.
Hypothesis wholeSamples : List.length (curve_verts s) = (3 * N)%nat.

Lemma bestUpTo_step (m : nat) (sd : Shortest) :
  (m < N)%nat -> bestUpTo s N m sd ->
  bestUpTo s N (S m)
    (if ltN (sampleDistance s (S m)) (distance sd)
     then {| vertex := worldSample s (S m);
             distance := sampleDistance s (S m);
             index := (3 * Z.of_nat (S m))%Z |}
     else sd).
Proof.
  intros Hm (k & d & Hkm & HkN & Hi & Hv & Hd & Hsk & Hle & Hlt).
  destruct (Nat.eq_dec (S m) N) as [Elast|Hin].
  - (* the read past the end: NaN never compares below *)
    assert (En : sampleDistance s (S m) = None).
    { unfold sampleDistance, worldSample.
      rewrite (getCurvePoint_past_end s N wholeSamples) by lia.
      reflexivity. }
    rewrite En. cbn [ltN].
    exists k, d. repeat split; auto; try lia.
    intros q Hq HqN. apply Hle; lia.
  - destruct (sampleDistance_in_range s N wholeSamples (S m)) as [d' Ed'];
      [lia|].
    rewrite Ed', Hd. cbn [ltN].
    destruct (Rltb d' d) eqn:Ecmp.
    + apply Rltb_true in Ecmp.
      exists (S m), d'. cbn [index vertex distance].
      repeat split; auto; try lia.
      * intros q Hq HqN.
        destruct (Nat.eq_dec q (S m)) as [->|Hne].
        -- exists d'. split; [exact Ed'|lra].
        -- destruct (Hle q) as (dq & Eq & Hdq); [lia|lia|].
           exists dq. split; [exact Eq|lra].
      * intros q Hq.
        destruct (Hle q) as (dq & Eq & Hdq); [lia|lia|].
        exists dq. split; [exact Eq|lra].
    + apply Rltb_false in Ecmp.
      exists k, d. repeat split; auto; try lia.
      intros q Hq HqN.
      destruct (Nat.eq_dec q (S m)) as [->|Hne].
      * exists d'. split; [exact Ed'|lra].
      * apply Hle; lia.
Qed.

Lemma closestLoop_spec (rest : nat) :
  forall (m : nat) (j i : Z) (sd : Shortest) (calls : list Z) (fuel : nat),
    (m + rest = N)%nat ->
    i = (3 * Z.of_nat m)%Z -> j = (3 * Z.of_nat (S m))%Z ->
    bestUpTo s N m sd -> (rest < fuel)%nat ->
    exists sd',
      closestLoop fuel s j i sd calls
      = Some (sd', calls ++ map (fun q => (3 * Z.of_nat q)%Z)
                                (seq (S m) rest))
      /\ bestUpTo s N N sd'.
Proof.
  induction rest as [|rest IH]; intros m j i sd calls fuel Hm Hi Hj Hb Hf;
    (destruct fuel as [|fuel]; [lia|]); cbn [closestLoop].
  - rewrite curveLength_samples with (N := N) by exact wholeSamples.
    destruct (Z.ltb_spec i (3 * Z.of_nat N)) as [?|_]; [lia|].
    exists sd. cbn [seq map]. rewrite app_nil_r.
    assert (Em : m = N) by lia. rewrite Em in Hb. auto.
  - rewrite curveLength_samples with (N := N) by exact wholeSamples.
    destruct (Z.ltb_spec i (3 * Z.of_nat N)) as [_|?]; [|lia].
    destruct (getCurvePoint s j) as [curve_point i'] eqn:Eg.
    assert (Ei' : i' = j) by (now rewrite <- (getCurvePoint_index s j), Eg).
    assert (Ec : curve_point = worldSample s (S m)).
    { unfold worldSample. rewrite <- Hj, Eg. reflexivity. }
    subst i' curve_point.
    destruct (IH (S m) (j + 3)%Z j
                (if ltN (sampleDistance s (S m)) (distance sd)
                 then {| vertex := worldSample s (S m);
                         distance := sampleDistance s (S m);
                         index := (3 * Z.of_nat (S m))%Z |}
                 else sd)
                (calls ++ [j]) fuel) as (sd' & E & Hb');
      try lia.
    { apply bestUpTo_step; [lia|exact Hb]. }
    exists sd'. split; [|exact Hb'].
    unfold sampleDistance in E. rewrite <- Hj in E. rewrite E.
    rewrite <- app_assoc. cbn [seq map app]. rewrite Hj. reflexivity.
Qed.

Lemma getClosestPointOnCurveLog_spec :
  (1 <= N)%nat ->
  exists sd,
    getClosestPointOnCurveLog s
    = Some (sd, map (fun q => (3 * Z.of_nat q)%Z) (seq 0 (S N)))
    /\ bestUpTo s N N sd.
Proof.
  intros HN. unfold getClosestPointOnCurveLog.
  destruct (getCurvePoint s 0) as [curve_point i] eqn:Eg.
  assert (Ei : i = 0%Z) by (now rewrite <- (getCurvePoint_index s 0), Eg).
  assert (Ec : curve_point = worldSample s 0).
  { unfold worldSample. cbn [Z.of_nat Z.mul]. now rewrite Eg. }
  subst i curve_point.
  destruct (sampleDistance_in_range s N wholeSamples 0%nat) as [d0 Ed0];
    [lia|].
  assert (Hb0 : bestUpTo s N 0
                  {| vertex := worldSample s 0;
                     distance := distanceN carPosition (worldSample s 0);
                     index := 0%Z |}).
  { exists 0%nat, d0. cbn [index vertex distance].
    split; [lia|]. split; [lia|]. split; [reflexivity|].
    split; [reflexivity|]. split; [exact Ed0|]. split; [exact Ed0|].
    split.
    - intros q Hq _. replace q with 0%nat by lia.
      exists d0. split; [exact Ed0|lra].
    - intros q Hq. lia. }
  destruct (closestLoop_spec N 0%nat 3%Z 0%Z _ [0%Z]
              (S (List.length (curve_verts s))) eq_refl eq_refl eq_refl Hb0)
    as (sd & E & Hb); [lia|].
  exists sd. split; [|exact Hb]. rewrite E. reflexivity.
Qed.

End ClosestLoop.

Lemma sampleDistance_Some (s : State) (k : nat) (d : R) :
  sampleDistance s k = Some d ->
  exists w, worldSample s k = Some w /\ d = GlMatrix.distance carPosition w.
Proof.
  unfold sampleDistance, distanceN.
  destruct (worldSample s k) as [w|]; [|discriminate].
  cbn. intros E; injection E as <-. eauto.
Qed.



(** The search always returns, and it asks [getCurvePoint] for the start
    indices 0, 3, ..., 3N: one more than the N samples there are. *)
Lemma getClosestPointOnCurve_calls_all (s : State) (N : nat) :
  List.length (curve_verts s) = (3 * N)%nat -> (1 <= N)%nat ->
  getClosestPointOnCurve_calls s
  = Some (map (fun q => (3 * Z.of_nat q)%Z) (seq 0 (S N))).
Proof.
  intros Hlen HN.
  destruct (getClosestPointOnCurveLog_spec s N Hlen HN) as (sd & E & _).
  unfold getClosestPointOnCurve_calls. rewrite E. reflexivity.
Qed.

(** C10 (the code at a track of two samples): [curve_verts] has 6
    coordinates and the search calls [getCurvePoint(6)], whose read
    [subarray(6, 9)] lies past the end and yields a NaN point. *)
Theorem getClosestPointOnCurve_reads_past_end :
  curveLength playing = 6%Z
  /\ getClosestPointOnCurve_calls playing = Some [0; 3; 6]%Z
  /\ fst (getCurvePoint playing 6) = None.
Proof.
  split; [reflexivity|]. split.
  - rewrite (getClosestPointOnCurve_calls_all playing 2);
      [reflexivity|reflexivity|lia].
  - reflexivity.
Qed.

(** ** The frame is defined on every track of at least two samples *)

Lemma getCurvePoint_eta (s : State) (i : Z) :
  getCurvePoint s i = (fst (getCurvePoint s i), i).
Proof. reflexivity. Qed.

Lemma getCurvePoint_worldSample (s : State) (i : Z) (k : nat) :
  i = (3 * Z.of_nat k)%Z -> fst (getCurvePoint s i) = worldSample s k.
Proof. intros ->. reflexivity. Qed.

Lemma adjacentPoints_defined (s : State) (N k : nat) (sd : Shortest)
  (w : vec3) :
  List.length (curve_verts s) = (3 * N)%nat -> (2 <= N)%nat ->
  (k < N)%nat -> index sd = (3 * Z.of_nat k)%Z -> vertex sd = Some w ->
  exists v pa pb, adjacentPoints s sd = (Some v, Some pa, Some pb).
Proof.
  intros Hlen HN Hk Hi Hv. unfold adjacentPoints.
  rewrite (getCurvePoint_eta s (index sd + 3)),
          (getCurvePoint_eta s (index sd - 3)),
          (getCurvePoint_eta s 0),
          (getCurvePoint_eta s (curveLength s - 3)).
  rewrite (curveLength_samples s N Hlen), Hi, Hv.
  destruct (Z.geb_spec (3 * Z.of_nat k + 3) (3 * Z.of_nat N)) as [Hj|Hj].
  - (* the closest sample is the last one *)
    rewrite (getCurvePoint_worldSample s 0 0) by reflexivity.
    rewrite (getCurvePoint_worldSample s _ (k - 1)) by lia.
    destruct (worldSample_in_range s N Hlen 0%nat) as [w0 ->]; [lia|].
    destruct (worldSample_in_range s N Hlen (k - 1)%nat) as [wb ->]; [lia|].
    cbn. eauto.
  - destruct (Z.ltb_spec (3 * Z.of_nat k - 3) 0) as [Hk0|Hk0].
    + (* the closest sample is the first one *)
      rewrite (getCurvePoint_worldSample s (3 * Z.of_nat N - 3) (N - 1))
        by lia.
      rewrite (getCurvePoint_worldSample s (3 * Z.of_nat k + 3) (S k))
        by lia.
      destruct (worldSample_in_range s N Hlen (N - 1)%nat) as [wl ->];
        [lia|].
      destruct (worldSample_in_range s N Hlen (S k)) as [wa ->]; [lia|].
      cbn. eauto.
    + rewrite (getCurvePoint_worldSample s (3 * Z.of_nat k + 3) (S k))
        by lia.
      rewrite (getCurvePoint_worldSample s (3 * Z.of_nat k - 3) (k - 1))
        by lia.
      destruct (worldSample_in_range s N Hlen (S k)) as [wa ->]; [lia|].
      destruct (worldSample_in_range s N Hlen (k - 1)%nat) as [wb ->];
        [lia|].
      cbn. eauto.
Qed.

(** The search returns one of the samples. *)
Lemma getClosestPointOnCurve_sample (s : State) (N : nat) :
  List.length (curve_verts s) = (3 * N)%nat -> (1 <= N)%nat ->
  exists (sd : Shortest) (k : nat) (w : vec3),
    getClosestPointOnCurve s = Some sd
    /\ (k < N)%nat
    /\ index sd = (3 * Z.of_nat k)%Z
    /\ worldSample s k = Some w
    /\ vertex sd = Some w.
Proof.
  intros Hlen HN.
  destruct (getClosestPointOnCurveLog_spec s N Hlen HN) as (sd & E & Hb).
  destruct Hb as (k & d & _ & HkN & Hi & Hv & _ & Hsk & _).
  destruct (sampleDistance_Some s k d Hsk) as (w & Ew & _).
  exists sd, k, w. unfold getClosestPointOnCurve. rewrite E.
  repeat split; auto; congruence.
Qed.

Lemma stayOnTrack_toCollide_defined (s : State) (N : nat) (dv : vec3) :
  List.length (curve_verts s) = (3 * N)%nat -> (2 <= N)%nat ->
  exists a, stayOnTrack_toCollide s dv = Some a.
Proof.
  intros Hlen HN.
  destruct (getClosestPointOnCurve_sample s N Hlen)
    as (sd & k & w & E & Hk & Hi & _ & Hv); [lia|].
  destruct (adjacentPoints_defined s N k sd w Hlen HN Hk Hi Hv)
    as (v & pa & pb & Ea).
  unfold stayOnTrack_toCollide, getRotationAngleAndTranslate.
  rewrite E, Ea, !determinePointByDistance_before. eauto.
Qed.

Lemma stayOnTrack_defined (s : State) (N : nat) (dv : vec3) :
  List.length (curve_verts s) = (3 * N)%nat -> (2 <= N)%nat ->
  exists s' dv', stayOnTrack s dv = Some (s', dv').
Proof.
  intros Hlen HN.
  destruct (stayOnTrack_toCollide_defined s N dv Hlen HN) as [a Ea].
  unfold stayOnTrack. rewrite Ea.
  destruct (collide _ _ _ _ _) as [s' dv']. eauto.
Qed.

(** Every frame completes: [updatePosition] returns a state on every track
    of at least two whole samples. *)
Lemma updatePosition_defined (s : State) (N : nat) :
  List.length (curve_verts s) = (3 * N)%nat -> (2 <= N)%nat ->
  exists s', updatePosition s = Some s'.
Proof.
  intros Hlen HN. unfold updatePosition.
  pose proof (toTrack_sameSession s) as Ht.
  destruct (updatePosition_toTrack s) as [s3 dv]. cbn [fst] in Ht.
  assert (Hc : curve_verts s3 = curve_verts s).
  { rewrite (ss_curve_verts _ _ Ht). apply checkProgress_curve_verts. }
  destruct (stayOnTrack_defined s3 N dv) as (s4 & vec & ->);
    [congruence|exact HN|].
  eauto.
Qed.

(** ** Checkpoint and finish *)

Lemma lt_sqrt (a x : R) : 0 <= a -> a * a < x -> a < sqrt x.
Proof.
  intros Ha H. rewrite <- (sqrt_square a Ha) at 1.
  apply sqrt_lt_1_alt. split; [apply Rle_0_sqr|exact H].
Qed.

Lemma sqrt_lt (a x : R) : 0 <= x -> 0 <= a -> x < a * a -> sqrt x < a.
Proof.
  intros Hx Ha H. rewrite <- (sqrt_square a Ha).
  apply sqrt_lt_1_alt. split; assumption.
Qed.

Lemma sqrt_le (a x : R) : 0 <= a -> x <= a * a -> sqrt x <= a.
Proof.
  intros Ha H. rewrite <- (sqrt_square a Ha).
  apply sqrt_le_1_alt. exact H.
Qed.

Lemma checkProgress_flags (s : State) :
  (hasWon (checkProgress s) = true ->
   hasWon s = true
   \/ (hasReachedCheckpoint s = true /\ progressDistance s < 0.3))
  /\ (hasReachedCheckpoint (checkProgress s) = true ->
      hasReachedCheckpoint s = true \/ progressDistance s > 3.5).
Proof.
  unfold checkProgress, checkReachedCheckpoint, checkReachedFinish,
    call_surplus, progressDistance, Rgtb.
  destruct (hasReachedCheckpoint s) eqn:Ec; cbn [negb].
  - destruct (Rltb _ 0.3) eqn:E; cbn; [apply Rltb_true in E|]; auto.
  - destruct (Rltb 3.5 _) eqn:E; cbn; rewrite ?Ec;
      [apply Rltb_true in E|]; auto.
Qed.

(** In a frame, [hasWon] turns true only if the checkpoint was reached
    before the frame, and each flag turns true only if the distance the code
    computes passes the threshold. *)
Lemma updatePosition_progress (s s' : State) :
  updatePosition s = Some s' ->
  (hasWon s = false -> hasWon s' = true ->
   hasReachedCheckpoint s = true /\ progressDistance s < 0.3)
  /\ (hasReachedCheckpoint s = false -> hasReachedCheckpoint s' = true ->
      progressDistance s > 3.5).
Proof.
  intros E. apply updatePosition_sameSession in E.
  destruct (checkProgress_flags s) as [Hw Hc].
  rewrite (ss_hasWon _ _ E), (ss_checkpoint _ _ E).
  split; intros H0 H1.
  - destruct (Hw H1) as [?|?]; [congruence|assumption].
  - destruct (Hc H1) as [?|?]; [congruence|assumption].
Qed.

(** C8 (the code at two states): the frame sets [hasReachedCheckpoint]
    although the track origin is less than 3.5 from the vehicle, and it sets
    [hasWon] although the track origin is more than 0.3 from the vehicle. *)
Theorem progress_flags_ignore_carPosition :
  (hasReachedCheckpoint nearCheckpoint = false
   /\ GlMatrix.distance (trackPosition nearCheckpoint) carPosition < 3.5
   /\ exists s', updatePosition nearCheckpoint = Some s'
                 /\ hasReachedCheckpoint s' = true)
  /\ (hasWon nearFinish = false
      /\ GlMatrix.distance (trackPosition nearFinish) carPosition > 0.3
      /\ exists s', updatePosition nearFinish = Some s'
                    /\ hasWon s' = true).
Proof.
  split; (split; [reflexivity|]); split.
  - unfold GlMatrix.distance. cbn. apply sqrt_lt; lra.
  - destruct (updatePosition_defined nearCheckpoint 2) as [s' E];
      [reflexivity|lia|].
    exists s'. split; [exact E|].
    apply updatePosition_sameSession in E. rewrite (ss_checkpoint _ _ E).
    unfold checkProgress, checkReachedCheckpoint, call_surplus, Rgtb.
    cbn [nearCheckpoint hasReachedCheckpoint set_trackPosition playing
         set_atTitleScreen set_hasStarted initialState negb].
    rewrite Rltb_lt; [reflexivity|].
    unfold GlMatrix.distance. cbn. apply lt_sqrt; lra.
  - unfold GlMatrix.distance. cbn. apply Rlt_gt, lt_sqrt; lra.
  - destruct (updatePosition_defined nearFinish 2) as [s' E];
      [reflexivity|lia|].
    exists s'. split; [exact E|].
    apply updatePosition_sameSession in E. rewrite (ss_hasWon _ _ E).
    unfold checkProgress, checkReachedFinish, call_surplus.
    cbn [nearFinish hasReachedCheckpoint set_hasReachedCheckpoint
         set_trackPosition playing set_atTitleScreen set_hasStarted
         initialState negb].
    rewrite Rltb_lt; [reflexivity|].
    unfold GlMatrix.distance. cbn. apply sqrt_lt; lra.
Qed.

(** ** The one-way flags *)

Lemma flagsKept_refl (s : State) : flagsKept s s.
Proof. split; auto. Qed.

Lemma flagsKept_trans (s1 s2 s3 : State) :
  flagsKept s1 s2 -> flagsKept s2 s3 -> flagsKept s1 s3.
Proof. intros [] []; split; auto. Qed.

Lemma flagsKept_same (s s' : State) :
  hasWon s' = hasWon s ->
  hasReachedCheckpoint s' = hasReachedCheckpoint s -> flagsKept s s'.
Proof. intros H1 H2. split; congruence. Qed.

Lemma flagsKept_checkProgress (s : State) : flagsKept s (checkProgress s).
Proof.
  unfold checkProgress, checkReachedCheckpoint, checkReachedFinish.
  destruct (hasReachedCheckpoint s) eqn:Ec; cbn [negb]; split_ifs;
    split; cbn; auto.
Qed.

Lemma flagsKept_updatePosition (s s' : State) :
  updatePosition s = Some s' -> flagsKept s s'.
Proof.
  intros E. apply updatePosition_sameSession in E.
  eapply flagsKept_trans; [apply flagsKept_checkProgress|].
  apply flagsKept_same; [apply (ss_hasWon _ _ E)|apply (ss_checkpoint _ _ E)].
Qed.

Lemma flagsKept_render (now : Z) (s s' : State) :
  render now s = Some s' -> flagsKept s s'.
Proof.
  unfold render.
  destruct (updatePosition s) as [s1|] eqn:E; [|discriminate].
  intros E'; injection E' as <-.
  eapply flagsKept_trans; [exact (flagsKept_updatePosition _ _ E)|].
  unfold updateTimer, calculateElapsedTime.
  split_ifs; apply flagsKept_same; reflexivity.
Qed.

Lemma flagsKept_pause (s : State) : flagsKept s (pause s).
Proof. unfold pause; split_ifs; apply flagsKept_same; reflexivity. Qed.

Lemma flagsKept_onKeyDown (now : Z) (key : string) (s : State) :
  flagsKept s (onKeyDown now key s).
Proof.
  unfold onKeyDown; split_matches; apply flagsKept_same; reflexivity.
Qed.

Lemma flagsKept_initializeGame (now : Z) (s s' : State) :
  initializeGame now s = Some s' -> flagsKept s s'.
Proof.
  unfold initializeGame. intros E. apply flagsKept_render in E.
  eapply flagsKept_trans; [|exact E]. apply flagsKept_same; reflexivity.
Qed.

Lemma flagsKept_onKeyUp (now : Z) (sh : string * string * string * string)
  (key : string) (s s' : State) :
  onKeyUp now sh key s = Some s' -> flagsKept s s'.
Proof.
  unfold onKeyUp.
  destruct (atTitleScreen s).
  { intros E; injection E as <-. apply flagsKept_same; reflexivity. }
  destruct (negb (hasStarted s)).
  { destruct (String.eqb key "1"); [apply flagsKept_initializeGame|].
    destruct (String.eqb key "2").
    { destruct sh as [[[f r] b] l]. unfold randomRacingMode. intros E.
      apply flagsKept_initializeGame in E.
      eapply flagsKept_trans; [|exact E]. apply flagsKept_same; reflexivity. }
    destruct (String.eqb key "3"); [apply flagsKept_initializeGame|].
    split_ifs; intros E; injection E as <-; apply flagsKept_same;
      reflexivity. }
  destruct (String.eqb key "p").
  { intros E; injection E as <-. apply flagsKept_pause. }
  split_matches; intros E; injection E as <-; apply flagsKept_same;
    reflexivity.
Qed.

Lemma flagsKept_step (e : Event) (s s' : State) :
  step e s = Some s' -> flagsKept s s'.
Proof.
  destruct e as [now key|now sh key|now]; cbn [step].
  - intros E; injection E as <-.
    destruct (keydownListener s);
      [apply flagsKept_onKeyDown|apply flagsKept_refl].
  - apply flagsKept_onKeyUp.
  - destruct (hasStarted s); [apply flagsKept_render|].
    intros E; injection E as <-. apply flagsKept_refl.
Qed.

(** ** The physics ramp *)

Lemma micro_lt (a b : Z) : micro a < micro b <-> (a < b)%Z.
Proof.
  unfold micro. split; intros H.
  - apply lt_IZR. lra.
  - apply IZR_lt in H. lra.
Qed.

Lemma micro_inj (a b : Z) : micro a = micro b <-> a = b.
Proof.
  unfold micro. split; intros H; [|now subst].
  apply eq_IZR. lra.
Qed.

Lemma micro_0 : micro 0 = 0.
Proof. unfold micro. lra. Qed.

Lemma maxPower_micro : maxPower = micro 10000.
Proof. unfold maxPower, micro. lra. Qed.

Lemma maxReverse_micro : maxReverse = micro (-2000).
Proof. unfold maxReverse, micro. lra. Qed.

Lemma powerFactor_micro : powerFactor = micro 10.
Proof. unfold powerFactor, micro. lra. Qed.

Lemma reverseFactor_micro : reverseFactor = micro (-5).
Proof. unfold reverseFactor, micro. lra. Qed.

(** [round] is exact on millionths. *)
Lemma round_micro (a b : Z) : round (micro a) (micro b) = micro (a + b).
Proof.
  unfold round, Math_round, micro.
  replace (1000000 * (IZR a / 1000000 + IZR b / 1000000))
    with (IZR (a + b)) by (rewrite plus_IZR; field).
  rewrite (Zfloor_eq (a + b)); [reflexivity|]. lra.
Qed.

Lemma round_micro' (a b : Z) (x y : R) :
  x = micro a -> y = micro b -> round x y = micro (a + b).
Proof. intros -> ->. apply round_micro. Qed.

(** What one call of [accelerate] does to the two ramped values. *)
Lemma accelerate_forward (s : State) :
  isPaused s = false ->
  value (ctl (accelerate s) Forward)
  = if pressed (ctl s Forward)
    then if Rltb (value (ctl s Forward)) maxPower
         then round (value (ctl s Forward)) powerFactor
         else value (ctl s Forward)
    else if Rgtb (value (ctl s Forward)) 0
         then round (value (ctl s Forward)) (- powerFactor)
         else value (ctl s Forward).
Proof.
  intros Hp. unfold accelerate. rewrite Hp. cbn [negb].
  destruct (pressed (ctl s Forward)); cbn [negb]; split_ifs; reflexivity.
Qed.

Lemma accelerate_backward (s : State) :
  isPaused s = false ->
  value (ctl (accelerate s) Backward)
  = if pressed (ctl s Backward)
    then if hasCrashed s
         then round (value (ctl s Backward)) (- reverseFactor * 5)
         else if Rgtb (value (ctl s Backward)) maxReverse
              then round (value (ctl s Backward)) reverseFactor
              else value (ctl s Backward)
    else if Rltb (value (ctl s Backward)) 0
         then round (value (ctl s Backward)) (- reverseFactor)
         else value (ctl s Backward).
Proof.
  intros Hp. unfold accelerate. rewrite Hp. cbn [negb].
  split_ifs_inner; try reflexivity; congruence.
Qed.

Lemma accelerate_sameButValues (s : State) : sameButValues s (accelerate s).
Proof.
  split; [apply sameSession_accelerate|..];
    unfold accelerate; split_ifs; try reflexivity;
    intros []; reflexivity.
Qed.

Lemma sameButValues_refl (s : State) : sameButValues s s.
Proof. split; auto using sameSession_refl. Qed.

Lemma sameButValues_trans (s1 s2 s3 : State) :
  sameButValues s1 s2 -> sameButValues s2 s3 -> sameButValues s1 s3.
Proof.
  intros [] []; split; try congruence.
  eapply sameSession_trans; eassumption.
Qed.

Lemma ticks_sameButValues (n : nat) (s : State) :
  sameButValues s (ticks n s).
Proof.
  induction n as [|n IH]; [apply sameButValues_refl|].
  eapply sameButValues_trans; [exact IH|apply accelerate_sameButValues].
Qed.

Lemma ticks_isPaused (n : nat) (s : State) :
  isPaused (ticks n s) = isPaused s.
Proof. apply (ss_isPaused _ _ (sv_session _ _ (ticks_sameButValues n s))). Qed.

(** Forward held from rest: [n] ticks give [10 * min n 1000] millionths. *)
Lemma ramp_up (s : State) (n : nat) :
  isPaused s = false -> pressed (ctl s Forward) = true ->
  value (ctl s Forward) = 0 ->
  value (ctl (ticks n s) Forward) = micro (10 * Z.min (Z.of_nat n) 1000).
Proof.
  intros Hp Hf H0. induction n as [|n IH].
  - change (ticks 0 s) with s.
    rewrite H0, Z.min_l by lia. symmetry. apply micro_0.
  - change (ticks (S n) s) with (accelerate (ticks n s)).
    rewrite accelerate_forward by (rewrite ticks_isPaused; exact Hp).
    rewrite (sv_pressed _ _ (ticks_sameButValues n s)), Hf, IH.
    rewrite maxPower_micro.
    destruct (Rltb _ _) eqn:E.
    + apply Rltb_true, micro_lt in E.
      rewrite (round_micro' (10 * Z.min (Z.of_nat n) 1000) 10)
        by (auto using powerFactor_micro).
      f_equal. lia.
    + apply Rltb_false in E. f_equal.
      assert (~ (10 * Z.min (Z.of_nat n) 1000 < 10000)%Z)
        by (intros H; apply micro_lt in H; lra).
      lia.
Qed.

(** Forward released at [10 * m] millionths: [k] ticks give
    [10 * max (m - k) 0]. *)
Lemma ramp_down (s : State) (m : Z) (k : nat) :
  isPaused s = false -> pressed (ctl s Forward) = false ->
  (0 <= m)%Z -> value (ctl s Forward) = micro (10 * m) ->
  value (ctl (ticks k s) Forward) = micro (10 * Z.max (m - Z.of_nat k) 0).
Proof.
  intros Hp Hf Hm H0. induction k as [|k IH].
  - change (ticks 0 s) with s. rewrite H0. f_equal. lia.
  - change (ticks (S k) s) with (accelerate (ticks k s)).
    rewrite accelerate_forward by (rewrite ticks_isPaused; exact Hp).
    rewrite (sv_pressed _ _ (ticks_sameButValues k s)), Hf, IH.
    unfold Rgtb. rewrite <- micro_0 at 1.
    destruct (Rltb _ _) eqn:E.
    + apply Rltb_true, micro_lt in E.
      rewrite (round_micro' (10 * Z.max (m - Z.of_nat k) 0) (-10)).
      * f_equal. lia.
      * reflexivity.
      * rewrite powerFactor_micro. unfold micro. lra.
    + apply Rltb_false in E. f_equal.
      assert (~ (0 < 10 * Z.max (m - Z.of_nat k) 0)%Z)
        by (intros H; apply micro_lt in H; lra).
      lia.
Qed.

(** C7: from forward value 0 with the forward key held and the game not
    paused, every tick strictly raises the value until it equals
    [maxPower], where it stays; once the key is released (after any number
    [n] of ticks) every tick strictly lowers a positive value, the value is
    never negative, and it is exactly 0 from tick [min n 1000] on. *)
Theorem forward_ramp (s : State) :
  isPaused s = false -> pressed (ctl s Forward) = true ->
  value (ctl s Forward) = 0 ->
  (forall n, (n < 1000)%nat ->
     value (ctl (ticks n s) Forward) < value (ctl (ticks (S n) s) Forward)
     /\ value (ctl (ticks n s) Forward) < maxPower)
  /\ value (ctl (ticks 1000 s) Forward) = maxPower
  /\ (forall n, (1000 <= n)%nat ->
        value (ctl (ticks n s) Forward) = maxPower)
  /\ (forall n k,
        let released := setPressed Forward false (ticks n s) in
        (0 < value (ctl (ticks k released) Forward) ->
         value (ctl (ticks (S k) released) Forward)
         < value (ctl (ticks k released) Forward))
        /\ 0 <= value (ctl (ticks k released) Forward)
        /\ ((k < Nat.min n 1000)%nat ->
            0 < value (ctl (ticks k released) Forward))
        /\ ((Nat.min n 1000 <= k)%nat ->
            value (ctl (ticks k released) Forward) = 0)).
Proof.
  intros Hp Hf H0.
  split; [|split; [|split]].
  - intros n Hn. rewrite !(ramp_up s _ Hp Hf H0), maxPower_micro.
    split; apply micro_lt; lia.
  - rewrite (ramp_up s _ Hp Hf H0), maxPower_micro. f_equal.
  - intros n Hn. rewrite (ramp_up s _ Hp Hf H0), maxPower_micro.
    f_equal. lia.
  - intros n k released.
    assert (Hr : forall j,
               value (ctl (ticks j released) Forward)
               = micro (10 * Z.max (Z.min (Z.of_nat n) 1000 - Z.of_nat j) 0)).
    { intros j. apply ramp_down.
      - unfold released. cbn. rewrite ticks_isPaused. exact Hp.
      - reflexivity.
      - lia.
      - unfold released. cbn. apply (ramp_up s n Hp Hf H0). }
    rewrite !Hr. rewrite <- micro_0.
    repeat split.
    + intros H. apply micro_lt in H. apply micro_lt. lia.
    + destruct (Z.eq_dec (Z.max (Z.min (Z.of_nat n) 1000 - Z.of_nat k) 0) 0)
        as [->|Hne]; [right; reflexivity|left; apply micro_lt; lia].
    + intros H. apply micro_lt. lia.
    + intros H. f_equal. lia.
Qed.

Lemma forward_ramp_witness :
  value (ctl (ticks 1000 (setPressed Forward true playing)) Forward)
  = maxPower.
Proof.
  exact (proj1 (proj2 (forward_ramp (setPressed Forward true playing)
                         eq_refl eq_refl eq_refl))).
Defined.

(** ** Crash recovery *)

Lemma collide_quiet (s : State) (point dv : vec3) (tl tr : R) :
  collideCrashes s point tl tr = false ->
  collide s point dv tl tr
  = (set_previousYRotation (v1 (rotation s))
       (set_previousXRotation (v0 (rotation s)) s), dv).
Proof.
  unfold collideCrashes, collide.
  destruct (getDirection s), (Rgtb (v0 point) 0); intros ->; reflexivity.
Qed.

Lemma collide_crashes (s : State) (point dv : vec3) (tl tr : R) :
  collideCrashes s point tl tr = true ->
  fst (collide s point dv tl tr)
  = set_previousYRotation (v1 (rotation s))
      (set_previousXRotation (v0 (rotation s)) (crash s)).
Proof.
  unfold collideCrashes, collide.
  destruct (getDirection s), (Rgtb (v0 point) 0); intros ->; reflexivity.
Qed.

Lemma toCollide_state (s : State) (dv : vec3) (a : CollideArgs) :
  stayOnTrack_toCollide s dv = Some a ->
  exists r, ca_state a = set_rotation r s.
Proof.
  unfold stayOnTrack_toCollide.
  destruct (getClosestPointOnCurve s) as [sd|]; [|discriminate].
  destruct (adjacentPoints s sd) as [[[v|] pa] pb]; [|discriminate].
  destruct (getRotationAngleAndTranslate dv v pb pa) as [[ang dv']|];
    [|discriminate].
  destruct (determinePointByDistance pb pa); [|discriminate].
  intros E; injection E as <-. cbn. eauto.
Qed.

(** In a frame where [collide] does not call [crash()], the controls, the
    crash flag and the keyboard lock are as [updatePosition] left them
    before it called [stayOnTrack]. *)
Lemma frame_without_crash (s s' : State) :
  updatePosition s = Some s' -> frameCrashes s = false ->
  controls s' = controls (fst (updatePosition_toTrack s))
  /\ hasCrashed s' = hasCrashed (fst (updatePosition_toTrack s))
  /\ keydownListener s' = keydownListener (fst (updatePosition_toTrack s)).
Proof.
  unfold updatePosition, frameCrashes, stayOnTrack.
  destruct (updatePosition_toTrack s) as [s2 dv]. cbn [fst].
  destruct (stayOnTrack_toCollide s2 dv) as [a|] eqn:Ea; [|discriminate].
  destruct (toCollide_state _ _ _ Ea) as [r Er].
  intros E Hq. rewrite (collide_quiet _ _ _ _ _ Hq) in E.
  injection E as <-. rewrite Er. cbn. auto.
Qed.

Lemma checkProgress_physics (s : State) :
  controls (checkProgress s) = controls s
  /\ hasCrashed (checkProgress s) = hasCrashed s
  /\ isPaused (checkProgress s) = isPaused s
  /\ (keydownListener s = false -> keydownListener (checkProgress s) = false).
Proof.
  unfold checkProgress, checkReachedCheckpoint, checkReachedFinish.
  split_ifs; cbn; auto.
Qed.

Lemma reverse_recovery_step : - reverseFactor * 5 = micro 25.
Proof. unfold reverseFactor, micro. lra. Qed.

Lemma toTrack_recovering (n : Z) (s : State) :
  recovering n s ->
  let s2 := fst (updatePosition_toTrack s) in
  (n + 1 <> 80 -> recovering (n + 1) s2)%Z
  /\ (n + 1 = 80 -> recovered s2)%Z.
Proof.
  intros (Hc & Hb & Hv & Hl & Hp).
  destruct (checkProgress_physics s) as (Ec & Eh & Ep & El).
  specialize (El Hl).
  pose proof (accelerate_sameButValues (checkProgress s)) as Ha.
  assert (Hv' : value (ctl (accelerate (checkProgress s)) Backward)
                = micro (-2000 + 25 * (n + 1))).
  { rewrite accelerate_backward by congruence.
    unfold ctl at 1. rewrite Ec. fold (ctl s Backward). rewrite Hb, Eh, Hc.
    unfold ctl. rewrite Ec. fold (ctl s Backward).
    rewrite (round_micro' (-2000 + 25 * n) 25 _ _ Hv reverse_recovery_step).
    f_equal. lia. }
  assert (Hb' : pressed (ctl (accelerate (checkProgress s)) Backward) = true).
  { rewrite (sv_pressed _ _ Ha). unfold ctl. rewrite Ec. exact Hb. }
  assert (Hc' : hasCrashed (accelerate (checkProgress s)) = true).
  { rewrite (sv_hasCrashed _ _ Ha). congruence. }
  assert (Hl' : keydownListener (accelerate (checkProgress s)) = false).
  { rewrite (sv_listener _ _ Ha). exact El. }
  assert (Hp' : isPaused (accelerate (checkProgress s)) = false).
  { rewrite (ss_isPaused _ _ (sv_session _ _ Ha)). congruence. }
  unfold updatePosition_toTrack.
  set (s1 := accelerate (checkProgress s)) in *.
  unfold drive. rewrite Hp', Hc'. cbn [negb].
  destruct (Reqb (value (ctl s1 Backward)) 0) eqn:E0; cbn [fst].
  - apply Reqb_true in E0. rewrite Hv', <- micro_0 in E0.
    apply micro_inj in E0.
    split; [lia|]. intros _.
    assert (Hz : value (ctl s1 Backward) = 0).
    { rewrite Hv'. replace (-2000 + 25 * (n + 1))%Z with 0%Z by lia.
      apply micro_0. }
    cbn [ctl getControl] in Hz.
    unfold recovered. cbn. repeat split; auto.
  - apply Reqb_false in E0. rewrite Hv', <- micro_0 in E0.
    split; [intros _; repeat split; assumption|].
    intros En. exfalso. apply E0. f_equal. lia.
Qed.

Lemma frames_snoc (n : nat) (s : State) :
  frames (S n) s
  = match frames n s with
    | Some s' => updatePosition s'
    | None => None
    end.
Proof.
  revert s. induction n as [|n IH]; intros s.
  - cbn. destruct (updatePosition s); reflexivity.
  - change (frames (S (S n)) s)
      with (match updatePosition s with
            | Some s1 => frames (S n) s1
            | None => None
            end).
    change (frames (S n) s)
      with (match updatePosition s with
            | Some s1 => frames n s1
            | None => None
            end).
    destruct (updatePosition s) as [s1|]; [apply IH|reflexivity].
Qed.

Lemma updatePosition_curve_verts (s s' : State) :
  updatePosition s = Some s' -> curve_verts s' = curve_verts s.
Proof.
  intros E. apply updatePosition_sameSession in E.
  rewrite (ss_curve_verts _ _ E). apply checkProgress_curve_verts.
Qed.


Lemma frame_recovering (n : Z) (s s' : State) :
  recovering n s -> updatePosition s = Some s' -> frameCrashes s = false ->
  (n + 1 <> 80 -> recovering (n + 1) s')%Z
  /\ (n + 1 = 80 -> recovered s')%Z.
Proof.
  intros Hr E Hq.
  destruct (frame_without_crash s s' E Hq) as (Ec & Eh & El).
  pose proof (updatePosition_sameSession s s' E) as Hs.
  pose proof (toTrack_sameSession s) as Ht.
  assert (Ep : isPaused s' = isPaused (fst (updatePosition_toTrack s))).
  { rewrite (ss_isPaused _ _ Hs), (ss_isPaused _ _ Ht). reflexivity. }
  destruct (toTrack_recovering n s Hr) as [H1 H2].
  unfold recovering, recovered, ctl in *. rewrite Ec, Eh, El, Ep. auto.
Qed.

Lemma crash_sets (s : State) :
  hasCrashed (crash s) = true
  /\ pressed (ctl (crash s) Backward) = true
  /\ value (ctl (crash s) Backward) = maxReverse
  /\ keydownListener (crash s) = false.
Proof. repeat split. Qed.



(** ** Geometry *)

Lemma deg2rad_0 : deg2rad 0 = 0.
Proof. unfold deg2rad. lra. Qed.

Lemma deg2rad_diag (a : R) : - deg2rad (a - a) = 0.
Proof. unfold deg2rad. lra. Qed.

Lemma deg2rad_90 : deg2rad 90 = PI / 2.
Proof. unfold deg2rad. lra. Qed.

Lemma rad2deg_PI2 : rad2deg (PI / 2) = 90.
Proof. unfold rad2deg. pose proof PI_neq0. field. assumption. Qed.

Lemma vec3_eq (a b : vec3) :
  v0 a = v0 b -> v1 a = v1 b -> v2 a = v2 b -> a = b.
Proof. destruct a, b; cbn; intros -> -> ->; reflexivity. Qed.

Lemma rotateX_0 (p : vec3) : GlMatrix.rotateX p (Vec 0 0 0) 0 = p.
Proof.
  apply vec3_eq; cbn [GlMatrix.rotateX v0 v1 v2]; rewrite ?cos_0, ?sin_0;
    ring.
Qed.

Lemma rotateY_0 (p : vec3) : GlMatrix.rotateY p (Vec 0 0 0) 0 = p.
Proof.
  apply vec3_eq; cbn [GlMatrix.rotateY v0 v1 v2]; rewrite ?cos_0, ?sin_0;
    ring.
Qed.

Lemma rotateZ_0 (p : vec3) : GlMatrix.rotateZ p (Vec 0 0 0) 0 = p.
Proof.
  apply vec3_eq; cbn [GlMatrix.rotateZ v0 v1 v2]; rewrite ?cos_0, ?sin_0;
    ring.
Qed.

(** The projection is the foot of the perpendicular: if [P] lies on the
    line through [A] and [B] and [C - P] is orthogonal to the line, the
    projection of [C] is [P]. *)
Lemma projection_foot (B A C P : vec3) (mu : R) :
  GlMatrix.dot (GlMatrix.subtract B A) (GlMatrix.subtract B A) <> 0 ->
  P = GlMatrix.scaleAndAdd A (GlMatrix.subtract B A) mu ->
  GlMatrix.dot (GlMatrix.subtract B A) (GlMatrix.subtract C P) = 0 ->
  getClosestCurvePointOnTrack B A C = P.
Proof.
  destruct A as [a0 a1 a2], B as [b0 b1 b2], C as [c0 c1 c2].
  intros Hn -> Ho.
  unfold getClosestCurvePointOnTrack, GlMatrix.scaleAndAdd, GlMatrix.subtract,
    GlMatrix.dot in *.
  cbn [v0 v1 v2] in *.
  set (V0 := b0 - a0) in *. set (V1 := b1 - a1) in *.
  set (V2 := b2 - a2) in *.
  assert (Ht : (- V0 * a0 + V0 * c0 - V1 * a1 + V1 * c1 - V2 * a2 + V2 * c2)
               / (V0 ^ 2 + V1 ^ 2 + V2 ^ 2) = mu).
  { replace (V0 ^ 2 + V1 ^ 2 + V2 ^ 2) with (V0 * V0 + V1 * V1 + V2 * V2)
      by ring.
    replace (- V0 * a0 + V0 * c0 - V1 * a1 + V1 * c1 - V2 * a2 + V2 * c2)
      with (mu * (V0 * V0 + V1 * V1 + V2 * V2)
            + (V0 * (c0 - (a0 + V0 * mu)) + V1 * (c1 - (a1 + V1 * mu))
               + V2 * (c2 - (a2 + V2 * mu)))) by ring.
    rewrite Ho. field. exact Hn. }
  rewrite Ht. reflexivity.
Qed.

(** On a level segment the angle of [getRotationAngleAndTranslate] is a
    right angle. *)
Lemma angle_level (p v : vec3) :
  v1 v = v1 p ->
  GlMatrix.angle
    (GlMatrix.subtract (Vec (v0 p) (v1 p + 0.1) (v2 p)) p)
    (GlMatrix.subtract v p) = PI / 2.
Proof.
  intros H. unfold GlMatrix.angle.
  replace (GlMatrix.dot _ (GlMatrix.subtract v p)) with 0.
  - unfold Rdiv. rewrite Rmult_0_l. apply acos_0.
  - unfold GlMatrix.dot, GlMatrix.subtract. cbn [v0 v1 v2]. rewrite H. ring.
Qed.

(** ** A frame on the straight track *)

Lemma c85_s85 : c85 * c85 + s85 * s85 = 1.
Proof.
  unfold c85, s85. pose proof (sin2_cos2 (deg2rad 85)) as H.
  unfold Rsqr in H. lra.
Qed.

Section Straight.

Variables (s : State) (lam h yaw : R).
Hypothesis Hon : onStraight lam h yaw s.

Lemma straight_length : List.length (curve_verts s) = (3 * 2)%nat.
Proof. destruct Hon as (-> & _). reflexivity. Qed.

Lemma straight_sample0 : worldSample s 0 = Some (straightFirst lam h).
Proof.
  destruct Hon as (Hc & _ & _ & Hr & _ & _ & Ht).
  unfold worldSample, getCurvePoint. rewrite Hc, Hr, Ht.
  change (subarray straightTrack (3 * Z.of_nat 0) (3 * Z.of_nat 0 + 3))
    with [0; 0; 0].
  cbn [fst vecOfArray]. f_equal.
  apply vec3_eq;
    cbn [GlMatrix.add GlMatrix.rotateY GlMatrix.rotateZ v0 v1 v2
         carPosition];
    unfold straightFirst; cbn [v0 v1 v2]; ring.
Qed.

Lemma straight_sample1 : worldSample s 1 = Some (straightSecond lam h).
Proof.
  destruct Hon as (Hc & _ & _ & Hr & _ & _ & Ht).
  unfold worldSample, getCurvePoint. rewrite Hc, Hr, Ht.
  change (subarray straightTrack (3 * Z.of_nat 1) (3 * Z.of_nat 1 + 3))
    with [1; 0; 0].
  cbn [fst vecOfArray]. f_equal.
  apply vec3_eq;
    cbn [GlMatrix.add GlMatrix.rotateY GlMatrix.rotateZ v0 v1 v2
         carPosition];
    unfold straightSecond; cbn [v0 v1 v2];
    rewrite deg2rad_0, cos_0, sin_0; fold c85 s85; ring.
Qed.

Lemma straight_projection_from0 :
  getClosestCurvePointOnTrack (straightSecond lam h) (straightFirst lam h)
    carPosition = straightFoot h.
Proof.
  pose proof c85_s85 as Hcs.
  apply (projection_foot _ _ _ _ (- lam));
    unfold straightFirst, straightSecond, straightFoot, carPosition,
      GlMatrix.dot, GlMatrix.subtract, GlMatrix.scaleAndAdd;
    cbn [v0 v1 v2].
  - intros H. ring_simplify in H. nra.
  - apply vec3_eq; cbn [v0 v1 v2]; ring.
  - ring.
Qed.

Lemma straight_projection_from1 :
  getClosestCurvePointOnTrack (straightFirst lam h) (straightSecond lam h)
    carPosition = straightFoot h.
Proof.
  pose proof c85_s85 as Hcs.
  apply (projection_foot _ _ _ _ (1 + lam));
    unfold straightFirst, straightSecond, straightFoot, carPosition,
      GlMatrix.dot, GlMatrix.subtract, GlMatrix.scaleAndAdd;
    cbn [v0 v1 v2].
  - intros H. ring_simplify in H. nra.
  - apply vec3_eq; cbn [v0 v1 v2]; ring.
  - ring.
Qed.

(** Whichever sample is the closest, the other one is [vertex] and both
    projections are the foot of the perpendicular. *)
Lemma straight_adjacent (sd : Shortest) (k : nat) (w : vec3) :
  (k < 2)%nat -> index sd = (3 * Z.of_nat k)%Z ->
  worldSample s k = Some w -> vertex sd = Some w ->
  exists v,
    adjacentPoints s sd
    = (Some v, Some (straightFoot h), Some (straightFoot h))
    /\ v1 v = v1 (straightFoot h).
Proof.
  intros Hk Hi Hw Hv.
  pose proof straight_length as Hlen.
  unfold adjacentPoints.
  rewrite (getCurvePoint_eta s (index sd + 3)),
          (getCurvePoint_eta s (index sd - 3)),
          (getCurvePoint_eta s 0),
          (getCurvePoint_eta s (curveLength s - 3)).
  rewrite (curveLength_samples s 2 Hlen), Hi, Hv.
  assert (Hk' : k = 0%nat \/ k = 1%nat) by lia.
  destruct Hk' as [-> | ->].
  - rewrite straight_sample0 in Hw. injection Hw as <-.
    change (3 * Z.of_nat 0 + 3 >=? 3 * Z.of_nat 2)%Z with false.
    change (3 * Z.of_nat 0 - 3 <? 0)%Z with true. cbv iota.
    rewrite (getCurvePoint_worldSample s (3 * Z.of_nat 2 - 3) 1)
      by reflexivity.
    rewrite (getCurvePoint_worldSample s (3 * Z.of_nat 0 + 3) 1)
      by reflexivity.
    rewrite straight_sample1.
    cbn [getClosestCurvePointOnTrackN].
    rewrite straight_projection_from0.
    exists (straightSecond lam h). split; reflexivity.
  - rewrite straight_sample1 in Hw. injection Hw as <-.
    change (3 * Z.of_nat 1 + 3 >=? 3 * Z.of_nat 2)%Z with true. cbv iota.
    rewrite (getCurvePoint_worldSample s 0 0) by reflexivity.
    rewrite (getCurvePoint_worldSample s (3 * Z.of_nat 1 - 3) 0)
      by reflexivity.
    rewrite straight_sample0.
    cbn [getClosestCurvePointOnTrackN].
    rewrite straight_projection_from1.
    exists (straightFirst lam h). split; reflexivity.
Qed.

(** What [stayOnTrack] hands to [collide] on the straight track. *)
Lemma straight_toCollide (dv : vec3) :
  exists a,
    stayOnTrack_toCollide s dv = Some a
    /\ ca_state a = set_rotation (Vec 0 yaw 0) s
    /\ ca_point a = straightFoot h
    /\ ca_directionVector a = Vec (v0 dv) (v1 dv - h) (v2 dv)
    /\ ca_topLeft a
       = GlMatrix.distance (Vec 0 (-0.08) (-0.155)) (straightFoot h)
    /\ ca_topRight a
       = GlMatrix.distance (Vec 0.02 (-0.08) (-0.155)) (straightFoot h).
Proof.
  pose proof straight_length as Hlen.
  destruct (getClosestPointOnCurve_sample s 2 Hlen)
    as (sd & k & w & E & Hk & Hi & Hw & Hv); [lia|].
  destruct (straight_adjacent sd k w Hk Hi Hw Hv) as (v & Ea & Hlevel).
  destruct Hon as (Hc & Hbox & Hyaw & Hroll & HpX & HpY & Ht).
  unfold stayOnTrack_toCollide, getRotationAngleAndTranslate.
  rewrite E, Ea, !determinePointByDistance_before.
  rewrite (angle_level (straightFoot h) v Hlevel), rad2deg_PI2.
  eexists. split; [reflexivity|].
  cbn [ca_state ca_point ca_directionVector ca_topLeft ca_topRight
       rotation set_rotation previousXRotation previousYRotation carBox
       v0 v1 v2].
  rewrite Hyaw, Hroll, HpX, HpY, Hbox.
  replace (- (90 - 90)) with 0 by lra.
  rewrite !deg2rad_diag, rotateX_0, rotateY_0.
  cbn [minX maxX minZ smallBox carPosition v1].
  repeat split.
  unfold straightFoot. cbn [v1]. f_equal. lra.
Qed.

End Straight.

(** On the straight track, with the car less than 0.099 above or below the
    line, [collide] does not call [crash()]: the frame only corrects the
    elevation. *)
Lemma straight_quiet (s : State) (lam h yaw : R) (dv : vec3) :
  onStraight lam h yaw s -> h * h <= 0.0099 ->
  exists a,
    stayOnTrack_toCollide s dv = Some a
    /\ collideCrashes (ca_state a) (ca_point a) (ca_topLeft a)
         (ca_topRight a) = false
    /\ stayOnTrack s dv
       = Some (set_previousYRotation yaw
                 (set_previousXRotation 0 (set_rotation (Vec 0 yaw 0) s)),
               Vec (v0 dv) (v1 dv - h) (v2 dv)).
Proof.
  intros Hon Hh.
  destruct (straight_toCollide s lam h yaw Hon dv)
    as (a & Ea & Hs & Hp & Hd & Hl & Hr).
  assert (Hq : collideCrashes (ca_state a) (ca_point a) (ca_topLeft a)
                 (ca_topRight a) = false).
  { unfold collideCrashes, Rgtb. rewrite Hp, Hl, Hr.
    unfold straightFoot. cbn [v0].
    rewrite (Rltb_lt 0 0.01) by lra.
    assert (H1 : Rltb 0.2 (GlMatrix.distance (Vec 0 (-0.08) (-0.155))
                             (Vec 0.01 (-0.08 + h) (-0.155))) = false).
    { apply Rltb_ge. unfold GlMatrix.distance. cbn [v0 v1 v2].
      apply sqrt_le; lra. }
    assert (H2 : Rltb 0.1 (GlMatrix.distance (Vec 0.02 (-0.08) (-0.155))
                             (Vec 0.01 (-0.08 + h) (-0.155))) = false).
    { apply Rltb_ge. unfold GlMatrix.distance. cbn [v0 v1 v2].
      apply sqrt_le; lra. }
    rewrite H1, H2. destruct (getDirection (ca_state a)); reflexivity. }
  exists a. split; [exact Ea|]. split; [exact Hq|].
  unfold stayOnTrack. rewrite Ea, (collide_quiet _ _ _ _ _ Hq), Hs, Hd.
  reflexivity.
Qed.

(** ** The pose through the first half of a frame *)

Lemma samePose_trans (s1 s2 s3 : State) :
  samePose s1 s2 -> samePose s2 s3 -> samePose s1 s3.
Proof. intros [] []; split; congruence. Qed.

Lemma samePose_checkProgress (s : State) : samePose s (checkProgress s).
Proof.
  unfold checkProgress, checkReachedCheckpoint, checkReachedFinish.
  split_ifs; split; reflexivity.
Qed.

Lemma samePose_accelerate (s : State) : samePose s (accelerate s).
Proof.
  destruct (accelerate_sameButValues s) as [[] ? ? ? ? ? ? ? ? ?].
  split; assumption.
Qed.

(** Paused, or crashed, [updatePosition] does not turn the car, and the
    vector it has before the rotations is along z. *)
Lemma drive_straight_on (s : State) :
  isPaused s = true \/ hasCrashed s = true ->
  samePose s (fst (drive s (Vec 0 0 0)))
  /\ exists v, snd (drive s (Vec 0 0 0)) = Vec 0 0 v
               /\ (isPaused s = true -> v = 0).
Proof.
  intros H. unfold drive.
  destruct (isPaused s) eqn:Ep; cbn [negb].
  - split; [split; reflexivity|]. exists 0. auto.
  - destruct H as [H|H]; [discriminate|]. rewrite H. cbn [negb].
    destruct (Reqb _ 0); cbn [fst snd].
    + split; [split; reflexivity|]. exists 0. split; [reflexivity|].
      discriminate.
    + split; [split; reflexivity|]. eexists. split; [reflexivity|].
      discriminate.
Qed.

Lemma onStraight_samePose (lam h yaw : R) (s s' : State) :
  samePose s s' -> onStraight lam h yaw s -> onStraight lam h yaw s'.
Proof.
  intros [] (H1 & H2 & H3 & H4 & H5 & H6 & H7).
  unfold onStraight. repeat split; congruence.
Qed.

(** The first half of a paused or crashed frame: the pose is kept and the
    vector handed to [stayOnTrack] is (0, 0, v) turned by the inverse of
    the car's rotation. *)
Lemma toTrack_straight_on (s : State) :
  isPaused s = true \/ hasCrashed s = true ->
  exists s2 v,
    updatePosition_toTrack s
    = (s2,
       GlMatrix.rotateZ
         (GlMatrix.rotateY
            (GlMatrix.rotateX (Vec 0 0 v) (Vec 0 0 0)
               (- deg2rad (v0 (rotation s))))
            (Vec 0 0 0) (- deg2rad (v1 (rotation s))))
         (Vec 0 0 0) (- deg2rad (v2 (rotation s))))
    /\ samePose s s2
    /\ (isPaused s = true -> v = 0).
Proof.
  intros H.
  pose proof (samePose_trans _ _ _ (samePose_checkProgress s)
                (samePose_accelerate (checkProgress s))) as Hp.
  destruct (checkProgress_physics s) as (_ & Eh & Ep & _).
  pose proof (accelerate_sameButValues (checkProgress s)) as Ha.
  destruct (drive_straight_on (accelerate (checkProgress s)))
    as (Hd & v & Ev & Hv).
  { rewrite (ss_isPaused _ _ (sv_session _ _ Ha)), (sv_hasCrashed _ _ Ha).
    rewrite Eh, Ep. exact H. }
  unfold updatePosition_toTrack.
  destruct (drive (accelerate (checkProgress s)) (Vec 0 0 0)) as [s2 dv].
  cbn [fst snd] in *. subst dv.
  pose proof (samePose_trans _ _ _ Hp Hd) as Hp2.
  exists s2, v. rewrite (sp_rotation _ _ Hp2).
  split; [reflexivity|]. split; [exact Hp2|].
  intros Hs. apply Hv.
  rewrite (ss_isPaused _ _ (sv_session _ _ Ha)), Ep. exact Hs.
Qed.

(** A paused or crashed frame on the straight track. *)
Lemma straight_frame (s : State) (lam h yaw : R) :
  onStraight lam h yaw s -> h * h <= 0.0099 ->
  isPaused s = true \/ hasCrashed s = true ->
  exists s' v,
    updatePosition s = Some s'
    /\ frameCrashes s = false
    /\ (isPaused s = true -> v = 0)
    /\ (let dv :=
          GlMatrix.rotateZ
            (GlMatrix.rotateY
               (GlMatrix.rotateX (Vec 0 0 v) (Vec 0 0 0)
                  (- deg2rad (v0 (rotation s))))
               (Vec 0 0 0) (- deg2rad yaw))
            (Vec 0 0 0) (- deg2rad 0) in
        trackPosition s'
        = GlMatrix.add (trackPosition s) (Vec (v0 dv) (v1 dv - h) (v2 dv)))
    /\ rotation s' = Vec 0 yaw 0
    /\ previousXRotation s' = 0
    /\ previousYRotation s' = yaw
    /\ curve_verts s' = straightTrack
    /\ carBox s' = smallBox.
Proof.
  intros Hon Hh Hmode.
  destruct (toTrack_straight_on s Hmode) as (s2 & v & Et & Hp & Hv).
  pose proof (onStraight_samePose _ _ _ _ _ Hp Hon) as Hon2.
  destruct Hon as (Hc & Hbox & Hyaw & Hroll & _).
  rewrite Hyaw, Hroll in Et.
  match type of Et with
  | _ = (_, ?d) => destruct (straight_quiet s2 lam h yaw d Hon2 Hh)
                     as (a & Ea & Hq & Es)
  end.
  unfold updatePosition, frameCrashes. rewrite Et, Ea, Es.
  eexists. exists v.
  split; [reflexivity|]. split; [exact Hq|]. split; [exact Hv|].
  cbn -[GlMatrix.rotateX GlMatrix.rotateY GlMatrix.rotateZ GlMatrix.add].
  rewrite (sp_trackPosition _ _ Hp), (sp_curve_verts _ _ Hp),
    (sp_carBox _ _ Hp).
  repeat split; assumption.
Qed.

Lemma rotate_origin (a b c : R) :
  GlMatrix.rotateZ
    (GlMatrix.rotateY (GlMatrix.rotateX (Vec 0 0 0) (Vec 0 0 0) a)
       (Vec 0 0 0) b)
    (Vec 0 0 0) c = Vec 0 0 0.
Proof.
  apply vec3_eq;
    cbn [GlMatrix.rotateX GlMatrix.rotateY GlMatrix.rotateZ v0 v1 v2]; ring.
Qed.

(** A paused frame on the straight track moves the track by the car's
    height over the line. *)
Lemma straight_paused_frame (s : State) (lam h yaw : R) :
  onStraight lam h yaw s -> h * h <= 0.0099 -> isPaused s = true ->
  exists s',
    updatePosition s = Some s'
    /\ trackPosition s = Vec (0.01 + lam * c85) (-0.08 + h) (- (lam * s85))
    /\ trackPosition s' = Vec (0.01 + lam * c85) (-0.08) (- (lam * s85)).
Proof.
  intros Hon Hh Hp.
  destruct (straight_frame s lam h yaw Hon Hh (or_introl Hp))
    as (s' & v & E & _ & Hv & Ht & _).
  destruct Hon as (_ & _ & _ & _ & _ & _ & Htp).
  exists s'. split; [exact E|]. split; [exact Htp|].
  cbv zeta in Ht. rewrite (Hv Hp), rotate_origin, Htp in Ht. rewrite Ht.
  apply vec3_eq; cbn [GlMatrix.add v0 v1 v2]; ring.
Qed.

Lemma pausedAboveTrack_onStraight : onStraight 0 (-0.07) 0 pausedAboveTrack.
Proof.
  unfold onStraight. repeat split.
  apply vec3_eq; cbn; lra.
Qed.

(** C4 (the code at a paused state): [isPaused] is true, and the frame
    moves [trackPosition] from (0.01, -0.15, 0) to (0.01, -0.08, 0). *)
Theorem paused_frame_moves_track :
  isPaused pausedAboveTrack = true
  /\ trackPosition pausedAboveTrack = Vec 0.01 (-0.15) 0
  /\ exists s', updatePosition pausedAboveTrack = Some s'
                /\ trackPosition s' = Vec 0.01 (-0.08) 0
                /\ trackPosition s' <> trackPosition pausedAboveTrack.
Proof.
  split; [reflexivity|]. split; [reflexivity|].
  destruct (straight_paused_frame pausedAboveTrack 0 (-0.07) 0
              pausedAboveTrack_onStraight) as (s' & E & _ & Ht);
    [lra|reflexivity|].
  exists s'. split; [exact E|].
  assert (Ht' : trackPosition s' = Vec 0.01 (-0.08) 0).
  { rewrite Ht. apply vec3_eq; cbn [v0 v1 v2]; lra. }
  split; [exact Ht'|].
  rewrite Ht'. intros H. apply (f_equal v1) in H. cbn in H. lra.
Qed.

Lemma sin_5_85 : sin (deg2rad 5) = c85.
Proof.
  unfold c85. rewrite <- (sin_shift (deg2rad 85)). f_equal.
  unfold deg2rad. lra.
Qed.

Lemma cos_5_85 : cos (deg2rad 5) = s85.
Proof.
  unfold s85. rewrite <- (cos_shift (deg2rad 85)). f_equal.
  unfold deg2rad. lra.
Qed.

(** A crashed frame with the car on the line and heading along it: the
    track slides along itself and [collide] stays quiet. *)
Lemma straight_crashed_frame (s : State) (lam : R) :
  onStraight lam 0 5 s -> v0 (rotation s) = 0 -> hasCrashed s = true ->
  exists s' lam',
    updatePosition s = Some s'
    /\ frameCrashes s = false
    /\ onStraight lam' 0 5 s'
    /\ v0 (rotation s') = 0.
Proof.
  intros Hon Hpitch Hc.
  destruct (straight_frame s lam 0 5 Hon) as
    (s' & v & E & Hq & _ & Ht & Hr & HpX & HpY & Hcv & Hbox);
    [lra|right; exact Hc|].
  destruct Hon as (_ & _ & _ & _ & _ & _ & Htp).
  exists s', (lam - v).
  split; [exact E|]. split; [exact Hq|].
  split; [|rewrite Hr; reflexivity].
  unfold onStraight. rewrite Hr, HpX, HpY, Hcv, Hbox. cbn [v1 v2].
  repeat split.
  cbv zeta in Ht. rewrite Ht, Htp, Hpitch.
  replace (- deg2rad 0) with 0 by (rewrite deg2rad_0; lra).
  rewrite rotateX_0, rotateZ_0.
  apply vec3_eq; cbn [GlMatrix.add GlMatrix.rotateY v0 v1 v2];
    rewrite ?sin_neg, ?cos_neg, ?sin_5_85, ?cos_5_85; ring.
Qed.






(** ** The recovery with the backward key released *)








(** ** The crash flag is taken back *)

Lemma recoveryLastTick_onStraight : onStraight 0 0 5 recoveryLastTick.
Proof.
  unfold onStraight. repeat split.
  apply vec3_eq; cbn; lra.
Qed.

Lemma recoveryLastTick_recovering : recovering 79 recoveryLastTick.
Proof. unfold recovering. repeat split. Qed.

(** C5, as stated, fails for [hasCrashed]: in the state below it is true,
    and the next animation frame, the last one of a crash recovery, sets it
    back to false. *)
Lemma hasCrashed_reset_counterexample :
  hasCrashed recoveryLastTick = true
  /\ exists s', step (AnimationFrame 0) recoveryLastTick = Some s'
                /\ hasCrashed s' = false.
Proof.
  split; [reflexivity|].
  destruct (straight_crashed_frame recoveryLastTick 0
              recoveryLastTick_onStraight eq_refl eq_refl)
    as (s' & lam' & E & Hq & _).
  exists s'. split.
  - cbn [step]. change (hasStarted recoveryLastTick) with true. cbv iota.
    unfold render. rewrite E.
    pose proof (updatePosition_sameSession _ _ E) as Hs.
    rewrite (ss_gameStartTime _ _ Hs).
    change (gameStartTime (checkProgress recoveryLastTick))
      with (gameStartTime
              (if Rgtb (call_surplus GlMatrix.distance GlMatrix.create
                          (trackPosition recoveryLastTick) carPosition) 3.5
               then set_hasReachedCheckpoint true recoveryLastTick
               else recoveryLastTick)).
    destruct (Rgtb _ 3.5); reflexivity.
  - destruct (frame_recovering 79 _ _ recoveryLastTick_recovering E Hq)
      as [_ H].
    apply H. reflexivity.
Qed.

Lemma stayOnTrack_hasCrashed (s s' : State) (dv dv' : vec3) :
  stayOnTrack s dv = Some (s', dv') ->
  hasCrashed s' = true \/ hasCrashed s' = hasCrashed s.
Proof.
  unfold stayOnTrack.
  destruct (stayOnTrack_toCollide s dv) as [a|] eqn:Ea; [|discriminate].
  destruct (toCollide_state _ _ _ Ea) as [r Er].
  intros E; injection E as E. apply (f_equal fst) in E. cbn [fst] in E.
  destruct (collideCrashes (ca_state a) (ca_point a) (ca_topLeft a)
              (ca_topRight a)) eqn:Hq.
  - left. rewrite <- E, (collide_crashes _ _ _ _ _ Hq). reflexivity.
  - right. rewrite <- E, (collide_quiet _ _ _ _ _ Hq), Er. reflexivity.
Qed.

(** A frame takes [hasCrashed] back only when the game is not paused and
    the backward value is 0 once [accelerate] has run. *)
Lemma updatePosition_resets_hasCrashed (s s' : State) :
  updatePosition s = Some s' ->
  hasCrashed s = true -> hasCrashed s' = false ->
  isPaused s = false
  /\ value (ctl (accelerate (checkProgress s)) Backward) = 0.
Proof.
  unfold updatePosition, updatePosition_toTrack.
  destruct (checkProgress_physics s) as (_ & Eh & Ep & _).
  pose proof (accelerate_sameButValues (checkProgress s)) as Ha.
  assert (Hc1 : hasCrashed (accelerate (checkProgress s)) = hasCrashed s)
    by (rewrite (sv_hasCrashed _ _ Ha); exact Eh).
  assert (Hp1 : isPaused (accelerate (checkProgress s)) = isPaused s)
    by (rewrite (ss_isPaused _ _ (sv_session _ _ Ha)); exact Ep).
  set (s1 := accelerate (checkProgress s)) in *.
  unfold drive. rewrite Hp1, Hc1.
  intros E Hc Hc'. rewrite Hc in E.
  destruct (isPaused s); cbn [negb] in E.
  - exfalso.
    destruct (stayOnTrack s1 _) as [[s4 vec]|] eqn:Es; [|discriminate].
    injection E as <-. cbn in Hc'.
    destruct (stayOnTrack_hasCrashed _ _ _ _ Es); congruence.
  - split; [reflexivity|].
    destruct (Reqb (value (ctl s1 Backward)) 0) eqn:E0;
      [apply Reqb_true in E0; exact E0|].
    exfalso.
    destruct (stayOnTrack s1 _) as [[s4 vec]|] eqn:Es; [|discriminate].
    injection E as <-. cbn in Hc'.
    destruct (stayOnTrack_hasCrashed _ _ _ _ Es); congruence.
Qed.

(** In play, only frames write [hasCrashed]. *)
Lemma key_events_keep_hasCrashed (e : Event) (s s' : State) :
  step e s = Some s' -> hasStarted s = true ->
  (forall now, e <> AnimationFrame now) ->
  hasCrashed s' = hasCrashed s.
Proof.
  intros E Hs Hne. destruct e as [now key|now sh key|now]; cbn [step] in E.
  - injection E as <-. destruct (keydownListener s); [|reflexivity].
    unfold onKeyDown. split_matches; reflexivity.
  - unfold onKeyUp in E. rewrite Hs in E. cbn [negb] in E.
    destruct (atTitleScreen s); [injection E as <-; reflexivity|].
    destruct (String.eqb key "p").
    { injection E as <-. unfold pause. split_ifs; reflexivity. }
    revert E. split_matches; intros E; injection E as <-; reflexivity.
  - exfalso. apply (Hne now). reflexivity.
Qed.

(** C5 (amended): over any run of key events and frames,
    [hasReachedCheckpoint] and [hasWon] only go from false to true;
    [hasCrashed] does not share this: in play it is written by frames only,
    and a frame takes it back only when the game is not paused and the
    backward value has returned to 0. *)
Theorem progress_flags_one_way (es : list Event) (s s' : State) :
  run es s = Some s' ->
  (hasWon s = true -> hasWon s' = true)
  /\ (hasReachedCheckpoint s = true -> hasReachedCheckpoint s' = true)
  /\ (forall e t t', step e t = Some t' -> hasStarted t = true ->
        hasCrashed t = true -> hasCrashed t' = false ->
        exists now, e = AnimationFrame now
                    /\ isPaused t = false
                    /\ value (ctl (accelerate (checkProgress t)) Backward)
                       = 0).
Proof.
  intros E.
  assert (Hk : flagsKept s s').
  { revert s E. induction es as [|e es IH]; intros s E; cbn [run] in E.
    - injection E as <-. apply flagsKept_refl.
    - destruct (step e s) as [s1|] eqn:E1; [|discriminate].
      eapply flagsKept_trans; [exact (flagsKept_step _ _ _ E1)|].
      apply IH. exact E. }
  destruct Hk as [Hw Hc]. split; [exact Hw|]. split; [exact Hc|].
  intros e t t' Et Hs Ht Ht'.
  destruct e as [now key|now sh key|now].
  - rewrite (key_events_keep_hasCrashed _ _ _ Et Hs) in Ht';
      [congruence|discriminate].
  - rewrite (key_events_keep_hasCrashed _ _ _ Et Hs) in Ht';
      [congruence|discriminate].
  - exists now. split; [reflexivity|].
    cbn [step] in Et. rewrite Hs in Et. unfold render in Et.
    destruct (updatePosition t) as [t1|] eqn:E1; [|discriminate].
    injection Et as <-.
    apply (updatePosition_resets_hasCrashed t t1 E1 Ht).
    revert Ht'. unfold updateTimer, calculateElapsedTime.
    split_matches; cbn; auto.
Qed.

Lemma progress_flags_one_way_witness :
  (hasWon nearFinish = true ->
   hasWon (pause (onKeyDown 0 "w" nearFinish)) = true)
  /\ (hasReachedCheckpoint nearFinish = true ->
      hasReachedCheckpoint (pause (onKeyDown 0 "w" nearFinish)) = true).
Proof.
  destruct (progress_flags_one_way
              [KeyDown 0 "w"; KeyUp 0 ("w", "a", "s", "d")%string "p"]
              nearFinish (pause (onKeyDown 0 "w" nearFinish)) eq_refl)
    as (H1 & H2 & _).
  split; assumption.
Defined.

(** ** The world-space transform of a sample *)

(** What [getCurvePoint] computes: only the roll, the fixed 85 degrees and
    the translation reach the result. *)
Lemma getCurvePoint_computes (s : State) (i : Z) :
  fst (getCurvePoint s i)
  = option_map
      (fun p =>
         GlMatrix.add
           (GlMatrix.rotateY
              (GlMatrix.rotateZ p (Vec 0 0 0) (deg2rad (v2 (rotation s))))
              (Vec 0 0 0) (deg2rad 85))
           (Vec (v0 (trackPosition s)) (v1 (trackPosition s))
                (v2 (trackPosition s) + v2 carPosition)))
      (vecOfArray (subarray (curve_verts s) i (i + 3))).
Proof.
  unfold getCurvePoint. cbn [fst].
  destruct (vecOfArray _); reflexivity.
Qed.

(** With pitch and yaw at 0 the code and the specification agree. *)
Lemma getCurvePoint_spec_level (s : State) (i : Z) :
  v0 (rotation s) = 0 -> v1 (rotation s) = 0 ->
  fst (getCurvePoint s i)
  = option_map (specWorldTransform s)
      (vecOfArray (subarray (curve_verts s) i (i + 3))).
Proof.
  intros H0 H1. rewrite getCurvePoint_computes.
  unfold specWorldTransform. rewrite H0, H1, deg2rad_0.
  destruct (vecOfArray _) as [p|]; [|reflexivity].
  cbn [option_map]. rewrite rotateX_0, rotateY_0. reflexivity.
Qed.

(** C3 (the code at yaw 90): the second sample of the track is (1, 0, 0);
    the point [getCurvePoint] returns for it is not the point the stated
    composition of rotations gives. *)
Theorem getCurvePoint_drops_pitch_and_yaw :
  rotation quarterTurn = Vec 0 90 0
  /\ vecOfArray (subarray (curve_verts quarterTurn) 3 (3 + 3))
     = Some (Vec 1 0 0)
  /\ fst (getCurvePoint quarterTurn 3)
     = Some (Vec (c85 + 0) (-0.15) (- s85 + (-0.25 + -0.155)))
  /\ specWorldTransform quarterTurn (Vec 1 0 0)
     = Vec (- s85 + 0) (-0.15) (- c85 + (-0.25 + -0.155))
  /\ fst (getCurvePoint quarterTurn 3)
     <> Some (specWorldTransform quarterTurn (Vec 1 0 0)).
Proof.
  assert (Hcode : fst (getCurvePoint quarterTurn 3)
                  = Some (Vec (c85 + 0) (-0.15)
                              (- s85 + (-0.25 + -0.155)))).
  { rewrite getCurvePoint_computes.
    change (vecOfArray (subarray (curve_verts quarterTurn) 3 (3 + 3)))
      with (Some (Vec 1 0 0)).
    cbn [option_map]. f_equal.
    apply vec3_eq;
      cbn [GlMatrix.add GlMatrix.rotateY GlMatrix.rotateZ v0 v1 v2
           quarterTurn set_rotation rotation trackPosition playing
           set_atTitleScreen set_hasStarted initialState carPosition];
      rewrite deg2rad_0, cos_0, sin_0; fold c85 s85; ring. }
  assert (Hspec : specWorldTransform quarterTurn (Vec 1 0 0)
                  = Vec (- s85 + 0) (-0.15) (- c85 + (-0.25 + -0.155))).
  { unfold specWorldTransform.
    apply vec3_eq;
      cbn [GlMatrix.add GlMatrix.rotateX GlMatrix.rotateY GlMatrix.rotateZ
           v0 v1 v2 quarterTurn set_rotation rotation trackPosition playing
           set_atTitleScreen set_hasStarted initialState carPosition];
      rewrite deg2rad_0, deg2rad_90, cos_0, sin_0, cos_PI2, sin_PI2;
      fold c85 s85; ring. }
  split; [reflexivity|]. split; [reflexivity|].
  split; [exact Hcode|]. split; [exact Hspec|].
  rewrite Hcode, Hspec. intros E. injection E as Ex Ez.
  pose proof c85_s85. nra.
Qed.

(** ** Paused frames on a climbing track *)

Section Sloped.

Variables (s : State) (tp : vec3).
Hypothesis Hcurve : curve_verts s = slopedTrack.
Hypothesis Hroll : v2 (rotation s) = 0.
Hypothesis Htp : trackPosition s = tp.

Lemma sloped_length : List.length (curve_verts s) = (3 * 2)%nat.
Proof. rewrite Hcurve. reflexivity. Qed.

Lemma sloped_sample0 :
  worldSample s 0 = Some (Vec (v0 tp) (v1 tp) (v2 tp + -0.155)).
Proof.
  unfold worldSample, getCurvePoint. rewrite Hcurve, Hroll, Htp.
  change (subarray slopedTrack (3 * Z.of_nat 0) (3 * Z.of_nat 0 + 3))
    with [0; 0; 0].
  cbn [fst vecOfArray]. f_equal.
  apply vec3_eq;
    cbn [GlMatrix.add GlMatrix.rotateY GlMatrix.rotateZ v0 v1 v2
         carPosition];
    ring.
Qed.

Lemma sloped_sample1 :
  worldSample s 1
  = Some (Vec (c85 + v0 tp) (1 + v1 tp) (- s85 + (v2 tp + -0.155))).
Proof.
  unfold worldSample, getCurvePoint. rewrite Hcurve, Hroll, Htp.
  change (subarray slopedTrack (3 * Z.of_nat 1) (3 * Z.of_nat 1 + 3))
    with [1; 1; 0].
  cbn [fst vecOfArray]. f_equal.
  apply vec3_eq;
    cbn [GlMatrix.add GlMatrix.rotateY GlMatrix.rotateZ v0 v1 v2
         carPosition];
    rewrite deg2rad_0, cos_0, sin_0; fold c85 s85; ring.
Qed.

Lemma sloped_projection_from0 :
  getClosestCurvePointOnTrack
    (Vec (c85 + v0 tp) (1 + v1 tp) (- s85 + (v2 tp + -0.155)))
    (Vec (v0 tp) (v1 tp) (v2 tp + -0.155)) carPosition
  = slopedFoot tp.
Proof.
  pose proof c85_s85 as Hcs.
  apply (projection_foot _ _ _ _ (slopedParam tp));
    unfold slopedFoot, slopedParam, carPosition, GlMatrix.dot,
      GlMatrix.subtract, GlMatrix.scaleAndAdd; cbn [v0 v1 v2].
  - intros H. ring_simplify in H. nra.
  - apply vec3_eq; cbn [v0 v1 v2]; ring.
  - set (T := (c85 * (0.01 - v0 tp) + (-0.08 - v1 tp) + s85 * v2 tp) / 2).
    transitivity (c85 * (0.01 - v0 tp) + (-0.08 - v1 tp) + s85 * v2 tp
                  - T * (c85 * c85 + s85 * s85 + 1)); [ring|].
    rewrite Hcs. unfold T. field.
Qed.

Lemma sloped_projection_from1 :
  getClosestCurvePointOnTrack
    (Vec (v0 tp) (v1 tp) (v2 tp + -0.155))
    (Vec (c85 + v0 tp) (1 + v1 tp) (- s85 + (v2 tp + -0.155))) carPosition
  = slopedFoot tp.
Proof.
  pose proof c85_s85 as Hcs.
  apply (projection_foot _ _ _ _ (1 - slopedParam tp));
    unfold slopedFoot, slopedParam, carPosition, GlMatrix.dot,
      GlMatrix.subtract, GlMatrix.scaleAndAdd; cbn [v0 v1 v2].
  - intros H. ring_simplify in H. nra.
  - apply vec3_eq; cbn [v0 v1 v2]; ring.
  - set (T := (c85 * (0.01 - v0 tp) + (-0.08 - v1 tp) + s85 * v2 tp) / 2).
    transitivity (- (c85 * (0.01 - v0 tp) + (-0.08 - v1 tp) + s85 * v2 tp)
                  + T * (c85 * c85 + s85 * s85 + 1)); [ring|].
    rewrite Hcs. unfold T. field.
Qed.

Lemma sloped_adjacent (sd : Shortest) (k : nat) (w : vec3) :
  (k < 2)%nat -> index sd = (3 * Z.of_nat k)%Z ->
  worldSample s k = Some w -> vertex sd = Some w ->
  exists v,
    adjacentPoints s sd
    = (Some v, Some (slopedFoot tp), Some (slopedFoot tp)).
Proof.
  intros Hk Hi Hw Hv.
  pose proof sloped_length as Hlen.
  unfold adjacentPoints.
  rewrite (getCurvePoint_eta s (index sd + 3)),
          (getCurvePoint_eta s (index sd - 3)),
          (getCurvePoint_eta s 0),
          (getCurvePoint_eta s (curveLength s - 3)).
  rewrite (curveLength_samples s 2 Hlen), Hi, Hv.
  assert (Hk' : k = 0%nat \/ k = 1%nat) by lia.
  destruct Hk' as [-> | ->].
  - rewrite sloped_sample0 in Hw. injection Hw as <-.
    change (3 * Z.of_nat 0 + 3 >=? 3 * Z.of_nat 2)%Z with false.
    change (3 * Z.of_nat 0 - 3 <? 0)%Z with true. cbv iota.
    rewrite (getCurvePoint_worldSample s (3 * Z.of_nat 2 - 3) 1)
      by reflexivity.
    rewrite (getCurvePoint_worldSample s (3 * Z.of_nat 0 + 3) 1)
      by reflexivity.
    rewrite sloped_sample1.
    cbn [getClosestCurvePointOnTrackN].
    rewrite sloped_projection_from0. eauto.
  - rewrite sloped_sample1 in Hw. injection Hw as <-.
    change (3 * Z.of_nat 1 + 3 >=? 3 * Z.of_nat 2)%Z with true. cbv iota.
    rewrite (getCurvePoint_worldSample s 0 0) by reflexivity.
    rewrite (getCurvePoint_worldSample s (3 * Z.of_nat 1 - 3) 0)
      by reflexivity.
    rewrite sloped_sample0.
    cbn [getClosestCurvePointOnTrackN].
    rewrite sloped_projection_from1. eauto.
Qed.

(** On the climbing track [stayOnTrack] adds [slopedLift] to the elevation
    of the vector, whatever [collide] decides. *)
Lemma sloped_toCollide (dv : vec3) :
  exists a r,
    stayOnTrack_toCollide s dv = Some a
    /\ ca_state a = set_rotation r s
    /\ v2 r = 0
    /\ ca_directionVector a
       = Vec (v0 dv) (v1 dv + slopedLift tp) (v2 dv).
Proof.
  pose proof sloped_length as Hlen.
  destruct (getClosestPointOnCurve_sample s 2 Hlen)
    as (sd & k & w & E & Hk & Hi & Hw & Hv); [lia|].
  destruct (sloped_adjacent sd k w Hk Hi Hw Hv) as (v & Ea).
  unfold stayOnTrack_toCollide, getRotationAngleAndTranslate.
  rewrite E, Ea, !determinePointByDistance_before.
  eexists. eexists. split; [reflexivity|].
  cbn [ca_state ca_directionVector]. split; [reflexivity|].
  split; [exact Hroll|]. reflexivity.
Qed.

End Sloped.

Lemma collide_result (s : State) (point dv : vec3) (tl tr : R) :
  exists d,
    -0.05 <= d <= 0.5
    /\ snd (collide s point dv tl tr) = Vec (v0 dv + d) (v1 dv) (v2 dv)
    /\ trackPosition (fst (collide s point dv tl tr)) = trackPosition s
    /\ rotation (fst (collide s point dv tl tr)) = rotation s.
Proof.
  unfold collide.
  destruct (getDirection s), (Rgtb (v0 point) 0), (Rgtb tl 0.2),
    (Rgtb tr 0.1); cbn [fst snd addX];
    first [ solve [exists (-0.05); split; [lra|repeat split; reflexivity]]
          | solve [exists 0.05; split; [lra|repeat split; reflexivity]]
          | solve [exists 0.50; split; [lra|repeat split; reflexivity]]
          | exists 0; split; [lra|];
            split; [destruct dv; cbn; f_equal; lra|split; reflexivity] ].
Qed.

Lemma sloped_stayOnTrack (s : State) (dv : vec3) :
  curve_verts s = slopedTrack -> v2 (rotation s) = 0 ->
  exists s' d,
    stayOnTrack s dv
    = Some (s', Vec (v0 dv + d) (v1 dv + slopedLift (trackPosition s))
                    (v2 dv))
    /\ -0.05 <= d <= 0.5
    /\ trackPosition s' = trackPosition s
    /\ v2 (rotation s') = 0.
Proof.
  intros Hc Hr.
  destruct (sloped_toCollide s (trackPosition s) Hc Hr eq_refl dv)
    as (a & r & Ea & Hs & Hr' & Hd).
  destruct (collide_result (ca_state a) (ca_point a) (ca_directionVector a)
              (ca_topLeft a) (ca_topRight a)) as (d & Hd1 & Hd2 & Ht & Hrot).
  unfold stayOnTrack. rewrite Ea.
  destruct (collide _ _ _ _ _) as [s' dv'] eqn:Ec. cbn [fst snd] in *.
  exists s', d. subst dv'. rewrite Hd. cbn [v0 v1 v2].
  split; [reflexivity|]. split; [exact Hd1|].
  rewrite Ht, Hrot, Hs. cbn. auto.
Qed.

(** A frame on the climbing track in which nothing drives the car. *)
Lemma sloped_still_frame (s s2 : State) :
  curve_verts s = slopedTrack -> v2 (rotation s) = 0 ->
  updatePosition_toTrack s = (s2, Vec 0 0 0) -> samePose s s2 ->
  exists s' d,
    updatePosition s = Some s'
    /\ -0.05 <= d <= 0.5
    /\ trackPosition s'
       = Vec (v0 (trackPosition s) + d)
             (v1 (trackPosition s) + slopedLift (trackPosition s))
             (v2 (trackPosition s))
    /\ curve_verts s' = slopedTrack
    /\ v2 (rotation s') = 0.
Proof.
  intros Hc Hr Et Hp.
  destruct (sloped_stayOnTrack s2 (Vec 0 0 0))
    as (s' & d & Es & Hd & Ht & Hr');
    [rewrite (sp_curve_verts _ _ Hp); exact Hc
    |rewrite (sp_rotation _ _ Hp); exact Hr|].
  assert (E : updatePosition s
              = Some (set_trackPosition
                        (GlMatrix.add (trackPosition s')
                           (Vec (v0 (Vec 0 0 0) + d)
                                (v1 (Vec 0 0 0)
                                 + slopedLift (trackPosition s2))
                                (v2 (Vec 0 0 0)))) s')).
  { unfold updatePosition. rewrite Et, Es. reflexivity. }
  eexists. exists d. split; [exact E|]. split; [exact Hd|].
  pose proof (updatePosition_curve_verts _ _ E) as Hcv.
  split; [|split; [rewrite Hcv; exact Hc|exact Hr']].
  cbn [trackPosition set_trackPosition].
  rewrite Ht, (sp_trackPosition _ _ Hp).
  apply vec3_eq; cbn [GlMatrix.add v0 v1 v2]; ring.
Qed.

Lemma toTrack_paused (s : State) :
  isPaused s = true ->
  exists s2, updatePosition_toTrack s = (s2, Vec 0 0 0) /\ samePose s s2.
Proof.
  intros Hp.
  destruct (toTrack_straight_on s (or_introl Hp)) as (s2 & v & E & Hs & Hv).
  exists s2. split; [|exact Hs].
  rewrite E, (Hv Hp), rotate_origin. reflexivity.
Qed.

Lemma accelerate_at_rest (s : State) :
  isPaused s = false ->
  controls s = controls (setControls s) ->
  accelerate s = set_isIdle true s.
Proof.
  intros Hp Hc. unfold accelerate, ctl, Rgtb. rewrite Hp.
  do 3 (rewrite ?Hc;
        cbn [negb setControls set_controls controls getControl c_forward
             c_backward pressed value];
        rewrite ?(Rltb_ge 0 0) by lra; cbv iota).
  rewrite !(Reqb_eq 0 0) by reflexivity. reflexivity.
Qed.

(** The first half of a frame right after [setControls]: no key is held
    and both values are 0. *)
Lemma toTrack_at_rest (s : State) :
  isPaused s = false -> hasCrashed s = false ->
  controls s = controls (setControls s) ->
  exists s2, updatePosition_toTrack s = (s2, Vec 0 0 0) /\ samePose s s2.
Proof.
  intros Hp Hc Hctl.
  destruct (checkProgress_physics s) as (Ec & Eh & Ep & _).
  assert (Ha : accelerate (checkProgress s)
               = set_isIdle true (checkProgress s)).
  { apply accelerate_at_rest; [congruence|]. rewrite Ec, Hctl. reflexivity. }
  assert (Hc' : controls (checkProgress s) = controls (setControls s))
    by (rewrite Ec; exact Hctl).
  unfold updatePosition_toTrack. rewrite Ha.
  unfold drive.
  cbn [isPaused hasCrashed set_isIdle]. rewrite Ep, Eh, Hp, Hc.
  cbn [negb fold_left driveKey ctl controls set_isIdle getControl].
  do 3 (rewrite ?Hc';
        cbn [setControls set_controls controls c_forward c_right c_backward
             c_left pressed value v0 v1 v2 rotation set_isIdle]).
  eexists. split.
  - f_equal. apply vec3_eq;
      cbn [GlMatrix.rotateX GlMatrix.rotateY GlMatrix.rotateZ v0 v1 v2];
      ring.
  - pose proof (samePose_checkProgress s) as [].
    split; cbn; assumption.
Qed.

Lemma c85_pos : 0 < c85.
Proof.
  unfold c85, deg2rad. pose proof PI_RGT_0.
  apply cos_gt_0; lra.
Qed.

Lemma c85_lt_s85 : c85 < s85.
Proof.
  rewrite <- cos_5_85. unfold c85, deg2rad. pose proof PI_RGT_0.
  apply cos_decreasing_1; lra.
Qed.

Lemma checkProgress_menu (s : State) :
  atTitleScreen (checkProgress s) = atTitleScreen s
  /\ hasStarted (checkProgress s) = hasStarted s
  /\ gameStartTime (checkProgress s) = gameStartTime s.
Proof.
  unfold checkProgress, checkReachedCheckpoint, checkReachedFinish.
  split_ifs; cbn; auto.
Qed.

Lemma updatePosition_menu (s s' : State) :
  updatePosition s = Some s' ->
  atTitleScreen s' = atTitleScreen s
  /\ hasStarted s' = hasStarted s
  /\ gameStartTime s' = gameStartTime s
  /\ isPaused s' = isPaused s.
Proof.
  intros E. apply updatePosition_sameSession in E.
  destruct (checkProgress_menu s) as (H1 & H2 & H3).
  destruct (checkProgress_physics s) as (_ & _ & H4 & _).
  rewrite (ss_atTitleScreen _ _ E), (ss_hasStarted _ _ E),
    (ss_gameStartTime _ _ E), (ss_isPaused _ _ E). auto.
Qed.

(** The elevation correction of the second of two still frames, the first
    of which started from the initial [trackPosition]: it is positive. *)
Lemma slopedLift_second_frame (d : R) :
  -0.05 <= d <= 0.5 ->
  0 < slopedLift
        (Vec (0 + d) (-0.15 + slopedLift (Vec 0 (-0.15) (-0.25))) (-0.25)).
Proof.
  intros Hd. pose proof c85_pos. pose proof c85_lt_s85.
  unfold slopedLift, slopedParam. cbn [v0 v1 v2]. nra.
Qed.

(** C4 on a run from the start of the game: any key leaves the title
    screen, '1' starts the game and draws the first frame, 'p' pauses; the
    next animation frame, a paused one, moves [trackPosition]. *)
Lemma paused_frame_moves_track_from_start :
  exists s3 s4,
    run [KeyUp 0 ("w", "a", "s", "d")%string "x";
         KeyUp 0 ("w", "a", "s", "d")%string "1";
         KeyUp 0 ("w", "a", "s", "d")%string "p"] gameStart = Some s3
    /\ isPaused s3 = true
    /\ step (AnimationFrame 0) s3 = Some s4
    /\ trackPosition s4 <> trackPosition s3.
Proof.
  set (s1 := startPlaying (setControls (set_atTitleScreen false gameStart))).
  (* the first frame, drawn by initializeGame *)
  destruct (toTrack_at_rest s1) as (s1' & Et1 & Hp1); try reflexivity.
  destruct (sloped_still_frame s1 s1' eq_refl eq_refl Et1 Hp1)
    as (sA & d1 & EA & Hd1 & HtA & HcA & HrA).
  destruct (updatePosition_menu _ _ EA) as (HA1 & HA2 & HA3 & HA4).
  (* the pause *)
  set (s3 := pause sA).
  assert (Hs3 : isPaused s3 = true).
  { unfold s3, pause. rewrite HA4. reflexivity. }
  assert (Ht3 : trackPosition s3 = trackPosition sA).
  { unfold s3, pause. rewrite HA4. reflexivity. }
  assert (Hc3 : curve_verts s3 = slopedTrack).
  { unfold s3, pause. rewrite HA4. exact HcA. }
  assert (Hr3 : v2 (rotation s3) = 0).
  { unfold s3, pause. rewrite HA4. exact HrA. }
  assert (Hh3 : hasStarted s3 = true).
  { unfold s3, pause. rewrite HA4. cbn. rewrite HA2. reflexivity. }
  (* the paused frame *)
  destruct (toTrack_paused s3 Hs3) as (s3' & Et3 & Hp3).
  destruct (sloped_still_frame s3 s3' Hc3 Hr3 Et3 Hp3)
    as (s4 & d2 & E4 & Hd2 & Ht4 & _).
  destruct (updatePosition_menu _ _ E4) as (_ & _ & H43 & _).
  exists s3, s4. split; [|split; [exact Hs3|split]].
  - cbn [run step]. unfold onKeyUp at 1.
    change (atTitleScreen gameStart) with true. cbv iota.
    cbn [run step]. unfold onKeyUp at 1.
    change (atTitleScreen (set_atTitleScreen false gameStart)) with false.
    change (hasStarted (set_atTitleScreen false gameStart)) with false.
    change (String.eqb "1" "1") with true. cbv iota. cbn [negb].
    unfold initializeGame, render. fold s1. rewrite EA, HA3.
    change (gameStartTime s1) with (@None Z). cbv iota.
    cbn [run step]. unfold onKeyUp.
    rewrite HA1, HA2.
    change (atTitleScreen s1) with false. change (hasStarted s1) with true.
    cbn [negb]. change (String.eqb "p" "p") with true. cbv iota.
    reflexivity.
  - cbn [step]. rewrite Hh3. unfold render. rewrite E4, H43.
    assert (Hg : gameStartTime s3 = None).
    { unfold s3, pause. rewrite HA4. cbn. rewrite HA3. reflexivity. }
    rewrite Hg. reflexivity.
  - rewrite Ht4, Ht3, HtA. intros E. apply (f_equal v1) in E.
    cbn [v1] in E.
    pose proof (slopedLift_second_frame d1 Hd1) as Hpos.
    change (trackPosition s1) with (Vec 0 (-0.15) (-0.25)) in E.
    cbn [v0 v1 v2] in E. lra.
Qed.

(** ** The ramps in binary64 *)

Module Binary64Facts.
Import Floats.

(** The crash recovery on doubles: 80 ticks from [maxReverse] give exactly
    0, and the 80 values before are negative and strictly increasing. *)
Lemma binary64_crash_recovery :
  let '(before, after) :=
    Binary64.trajectory Binary64.backwardCrashed 80 Binary64.maxReverse in
  (after =? 0)%float = true
  /\ Binary64.increasing (before ++ [after]) = true
  /\ forallb (fun v => (v <? 0)%float) before = true.
Proof. vm_compute. repeat split. Qed.

(** The forward ramp on doubles: 1000 ticks with the key held strictly
    raise the value from 0 to exactly [maxPower], where it stays; released,
    the value comes down through the same doubles and stays at exactly 0,
    so a release at any tick ends at 0 without passing below it. *)
Lemma binary64_forward_ramp :
  let '(up, top) :=
    Binary64.trajectory Binary64.forwardHeld 1000 0%float in
  let '(down, bottom) :=
    Binary64.trajectory Binary64.forwardReleased 1000 top in
  (top =? Binary64.maxPower)%float = true
  /\ (Binary64.forwardHeld top =? top)%float = true
  /\ Binary64.increasing (up ++ [top]) = true
  /\ Binary64.sameValues (rev (down ++ [bottom])) (up ++ [top]) = true
  /\ (bottom =? 0)%float = true
  /\ (Binary64.forwardReleased bottom =? 0)%float = true.
Proof. vm_compute. repeat split. Qed.

End Binary64Facts.

(** ** The bent track *)

Lemma c85_small : c85 < 0.24.
Proof.
  rewrite <- sin_5_85. pose proof PI_4 as H4. pose proof PI_RGT_0 as H0.
  assert (H : 0 < deg2rad 5) by (unfold deg2rad; lra).
  pose proof (sin_lt_x _ H) as Hs. unfold deg2rad in *. lra.
Qed.

Lemma s85_bound : 0 < s85 <= 1.
Proof.
  pose proof c85_pos. pose proof c85_lt_s85. split; [lra|].
  unfold s85. pose proof (SIN_bound (deg2rad 85)). lra.
Qed.

Lemma bentParam_bound : 0 < bentParam < 0.07.
Proof.
  pose proof c85_pos. pose proof c85_small. pose proof s85_bound.
  unfold bentParam. lra.
Qed.

Section Bent.

Variable s : State.
Hypothesis Hcurve : curve_verts s = bentTrack.
Hypothesis Hroll : v2 (rotation s) = 0.
Hypothesis Htp : trackPosition s = Vec 0 (-0.15) (-0.25).

Lemma bent_length : List.length (curve_verts s) = (3 * 3)%nat.
Proof. rewrite Hcurve. reflexivity. Qed.

Lemma bent_sample0 : worldSample s 0 = Some bentFirst.
Proof.
  unfold worldSample, getCurvePoint. rewrite Hcurve, Hroll, Htp.
  change (subarray bentTrack (3 * Z.of_nat 0) (3 * Z.of_nat 0 + 3))
    with [0; 0; 1].
  cbn [fst vecOfArray]. f_equal.
  apply vec3_eq;
    cbn [GlMatrix.add GlMatrix.rotateY GlMatrix.rotateZ v0 v1 v2
         carPosition bentFirst];
    rewrite deg2rad_0, cos_0, sin_0; fold c85 s85; lra.
Qed.

Lemma bent_sample1 : worldSample s 1 = Some bentSecond.
Proof.
  unfold worldSample, getCurvePoint. rewrite Hcurve, Hroll, Htp.
  change (subarray bentTrack (3 * Z.of_nat 1) (3 * Z.of_nat 1 + 3))
    with [0; 0; 0].
  cbn [fst vecOfArray]. f_equal.
  apply vec3_eq;
    cbn [GlMatrix.add GlMatrix.rotateY GlMatrix.rotateZ v0 v1 v2
         carPosition bentSecond];
    lra.
Qed.

Lemma bent_sample2 : worldSample s 2 = Some bentThird.
Proof.
  unfold worldSample, getCurvePoint. rewrite Hcurve, Hroll, Htp.
  change (subarray bentTrack (3 * Z.of_nat 2) (3 * Z.of_nat 2 + 3))
    with [0; 1; 0].
  cbn [fst vecOfArray]. f_equal.
  apply vec3_eq;
    cbn [GlMatrix.add GlMatrix.rotateY GlMatrix.rotateZ v0 v1 v2
         carPosition bentThird];
    rewrite deg2rad_0, cos_0, sin_0; lra.
Qed.

Lemma bent_projection_after :
  getClosestCurvePointOnTrack bentThird bentSecond carPosition = bentAfter.
Proof.
  apply (projection_foot _ _ _ _ 0.07);
    unfold bentThird, bentSecond, bentAfter, carPosition, GlMatrix.dot,
      GlMatrix.subtract, GlMatrix.scaleAndAdd; cbn [v0 v1 v2].
  - lra.
  - apply vec3_eq; cbn [v0 v1 v2]; lra.
  - lra.
Qed.

Lemma bent_projection_before :
  getClosestCurvePointOnTrack bentFirst bentSecond carPosition = bentBefore.
Proof.
  pose proof c85_s85 as Hcs.
  apply (projection_foot _ _ _ _ bentParam);
    unfold bentFirst, bentSecond, bentBefore, carPosition, GlMatrix.dot,
      GlMatrix.subtract, GlMatrix.scaleAndAdd; cbn [v0 v1 v2].
  - intros H. ring_simplify in H. nra.
  - apply vec3_eq; cbn [v0 v1 v2]; ring.
  - transitivity (0.01 * s85 + 0.25 * c85
                  - bentParam * (c85 * c85 + s85 * s85)); [nra|].
    rewrite Hcs. unfold bentParam. ring.
Qed.

(** The car is nearer to the second sample than to the other two. *)
Lemma bent_second_nearest :
  GlMatrix.distance carPosition bentSecond
  < GlMatrix.distance carPosition bentFirst
  /\ GlMatrix.distance carPosition bentSecond
     < GlMatrix.distance carPosition bentThird.
Proof.
  pose proof c85_s85 as Hcs. pose proof c85_small. pose proof c85_pos.
  pose proof s85_bound.
  unfold GlMatrix.distance, bentFirst, bentSecond, bentThird, carPosition;
    cbn [v0 v1 v2].
  split; apply sqrt_lt_1_alt; (split; [nra|]).
  - replace ((s85 - 0.01) * (s85 - 0.01)
             + (-0.15 - -0.08) * (-0.15 - -0.08)
             + (c85 + -0.405 - -0.155) * (c85 + -0.405 - -0.155))
      with (c85 * c85 + s85 * s85 + 0.0675 - 0.02 * s85 - 0.5 * c85)
      by nra.
    rewrite Hcs. lra.
  - lra.
Qed.

(** [pointAfter] is strictly nearer to the car than [pointBefore]. *)
Lemma bent_after_nearer :
  GlMatrix.distance carPosition bentAfter
  < GlMatrix.distance carPosition bentBefore.
Proof.
  pose proof c85_s85 as Hcs. pose proof bentParam_bound as Hb.
  unfold GlMatrix.distance, bentAfter, bentBefore, carPosition;
    cbn [v0 v1 v2].
  apply sqrt_lt_1_alt. split; [nra|].
  replace ((bentParam * s85 - 0.01) * (bentParam * s85 - 0.01)
           + (-0.15 - -0.08) * (-0.15 - -0.08)
           + (bentParam * c85 + -0.405 - -0.155)
             * (bentParam * c85 + -0.405 - -0.155))
    with (bentParam * bentParam * (c85 * c85 + s85 * s85) + 0.0675
          - 2 * bentParam * (0.01 * s85 + 0.25 * c85)) by nra.
  rewrite Hcs. fold bentParam. nra.
Qed.

(** The closest sample is the second one. *)
Lemma bent_closest :
  exists sd,
    getClosestPointOnCurve s = Some sd
    /\ index sd = 3%Z /\ vertex sd = Some bentSecond.
Proof.
  destruct (getClosestPointOnCurveLog_spec s 3 bent_length) as (sd & E & Hb);
    [lia|].
  exists sd. unfold getClosestPointOnCurve. rewrite E.
  split; [reflexivity|].
  destruct Hb as (k & d & _ & Hk & Hi & Hv & _ & Hd & Hmin & Hfirst).
  destruct bent_second_nearest as [H0 H2].
  assert (E0 : sampleDistance s 0
               = Some (GlMatrix.distance carPosition bentFirst))
    by (unfold sampleDistance; rewrite bent_sample0; reflexivity).
  assert (E1 : sampleDistance s 1
               = Some (GlMatrix.distance carPosition bentSecond))
    by (unfold sampleDistance; rewrite bent_sample1; reflexivity).
  assert (E2 : sampleDistance s 2
               = Some (GlMatrix.distance carPosition bentThird))
    by (unfold sampleDistance; rewrite bent_sample2; reflexivity).
  assert (Hk' : k = 0%nat \/ k = 1%nat \/ k = 2%nat) by lia.
  destruct Hk' as [-> | [-> | ->]].
  - exfalso. destruct (Hmin 1%nat) as (dq & Eq & Hle); [lia|lia|].
    rewrite E0 in Hd. rewrite E1 in Eq.
    injection Hd as <-. injection Eq as <-. lra.
  - rewrite Hi, Hv, bent_sample1. split; reflexivity.
  - exfalso. destruct (Hfirst 1%nat) as (dq & Eq & Hlt); [lia|].
    rewrite E2 in Hd. rewrite E1 in Eq.
    injection Hd as <-. injection Eq as <-. lra.
Qed.

Lemma bent_adjacent (sd : Shortest) :
  index sd = 3%Z -> vertex sd = Some bentSecond ->
  adjacentPoints s sd = (Some bentThird, Some bentAfter, Some bentBefore).
Proof.
  intros Hi Hv. unfold adjacentPoints.
  rewrite (getCurvePoint_eta s (index sd + 3)),
          (getCurvePoint_eta s (index sd - 3)),
          (getCurvePoint_eta s 0),
          (getCurvePoint_eta s (curveLength s - 3)).
  rewrite (curveLength_samples s 3 bent_length), Hi, Hv.
  change (3 + 3 >=? 3 * Z.of_nat 3)%Z with false.
  change (3 - 3 <? 0)%Z with false. cbv iota.
  rewrite (getCurvePoint_worldSample s (3 + 3) 2) by reflexivity.
  rewrite (getCurvePoint_worldSample s (3 - 3) 0) by reflexivity.
  rewrite bent_sample0, bent_sample2.
  cbn [getClosestCurvePointOnTrackN].
  rewrite bent_projection_after, bent_projection_before. reflexivity.
Qed.

(** What [stayOnTrack] does with the two projections: the elevation is
    corrected by the car's height over [pointBefore]. *)
Lemma bent_toCollide (dv : vec3) :
  exists a,
    stayOnTrack_toCollide s dv = Some a
    /\ ca_directionVector a = Vec (v0 dv) (v1 dv + 0.07) (v2 dv).
Proof.
  destruct bent_closest as (sd & E & Hi & Hv).
  unfold stayOnTrack_toCollide, getRotationAngleAndTranslate.
  rewrite E, (bent_adjacent sd Hi Hv), !determinePointByDistance_before.
  eexists. split; [reflexivity|].
  cbn [ca_directionVector]. f_equal.
  unfold carPosition, bentBefore. cbn [v1]. lra.
Qed.

End Bent.

(** [bentStart] is the state of the first frame of a game on [bentTrack]:
    the 'keyup' of '1' on the menu calls [render] on it. *)
Lemma bentStart_first_frame :
  run [KeyUp 0 ("w", "a", "s", "d")%string "x"]
    (initialState bentTrack smallBox)
  = Some (set_atTitleScreen false (initialState bentTrack smallBox))
  /\ step (KeyUp 0 ("w", "a", "s", "d")%string "1")
       (set_atTitleScreen false (initialState bentTrack smallBox))
     = render 0 bentStart.
Proof. split; reflexivity. Qed.

(** C1 (the code at a bend): in the first frame of a game on [bentTrack],
    [stayOnTrack] finds the second sample closest; [pointAfter] is
    (0, -0.08, -0.405), at the car's height, and strictly nearer to the
    car than [pointBefore], which lies 0.07 lower;
    [determinePointByDistance] returns [pointBefore], and [stayOnTrack]
    corrects the elevation by these 0.07. *)
Theorem determinePointByDistance_keeps_farther :
  exists s dv sd vertex' pointAfter pointBefore,
    updatePosition_toTrack bentStart = (s, dv)
    /\ getClosestPointOnCurve s = Some sd
    /\ adjacentPoints s sd
       = (Some vertex', Some pointAfter, Some pointBefore)
    /\ pointAfter = Vec 0 (-0.08) (-0.405)
    /\ v1 pointBefore = -0.15
    /\ GlMatrix.distance carPosition pointAfter
       < GlMatrix.distance carPosition pointBefore
    /\ determinePointByDistance (Some pointBefore) (Some pointAfter)
       = Some pointBefore
    /\ exists a,
         stayOnTrack_toCollide s dv = Some a
         /\ ca_directionVector a = Vec (v0 dv) (v1 dv + 0.07) (v2 dv).
Proof.
  destruct (toTrack_at_rest bentStart) as (s & Et & Hp); try reflexivity.
  assert (Hc : curve_verts s = bentTrack)
    by (rewrite (sp_curve_verts _ _ Hp); reflexivity).
  assert (Hr : v2 (rotation s) = 0)
    by (rewrite (sp_rotation _ _ Hp); reflexivity).
  assert (Ht : trackPosition s = Vec 0 (-0.15) (-0.25))
    by (rewrite (sp_trackPosition _ _ Hp); reflexivity).
  destruct (bent_closest s Hc Hr Ht) as (sd & E & Hi & Hv).
  exists s, (Vec 0 0 0), sd, bentThird, bentAfter, bentBefore.
  split; [exact Et|]. split; [exact E|].
  split; [exact (bent_adjacent s Hc Hr Ht sd Hi Hv)|].
  split; [reflexivity|]. split; [reflexivity|].
  split; [exact bent_after_nearer|].
  split; [apply determinePointByDistance_before|].
  exact (bent_toCollide s Hc Hr Ht (Vec 0 0 0)).
Qed.

(* ================================================================== *)
(** * Further properties of the code *)

(** ** Degrees, radians and the projection on a line *)

(** X1: [rad2deg] and [deg2rad] are inverse to each other (in exact
    arithmetic): converting an angle to the other unit and back gives the
    angle. *)
Theorem deg2rad_rad2deg_inverse (x : R) :
  rad2deg (deg2rad x) = x /\ deg2rad (rad2deg x) = x.
Proof.
  unfold rad2deg, deg2rad. pose proof PI_neq0. split; field; assumption.
Qed.









(** ** The facing of the car and the collision response *)

Lemma getDirection_iff (s : State) :
  getDirection s = true
  <-> (0 < v1 (rotation s) < 90 \/ 270 < v1 (rotation s) < 360
       \/ 540 < v1 (rotation s) < 630 \/ 810 < v1 (rotation s) < 900).
Proof.
  unfold getDirection. cbn [existsb]. unfold Rgtb.
  rewrite !orb_true_iff, !andb_true_iff, !Rltb_true.
  split.
  - intros [H|[H|[H|[H|H]]]]; [| | | |discriminate]; lra.
  - intros [H|[H|[H|H]]]; [left|right; left|do 2 right; left|do 3 right; left];
      lra.
Qed.

(** X4: [getDirection] answers true exactly when the yaw [rotation[1]] lies
    strictly inside one of the four windows (0, 90), (270, 360), (540, 630)
    and (810, 900) degrees; in particular it answers false for every yaw
    that is negative, zero, a window bound, or 900 and more. *)
Theorem getDirection_windows (s : State) :
  getDirection s = true
  <-> (0 < v1 (rotation s) < 90 \/ 270 < v1 (rotation s) < 360
       \/ 540 < v1 (rotation s) < 630 \/ 810 < v1 (rotation s) < 900).
Proof. apply getDirection_iff. Qed.

(** X5: the answer of [getDirection] is not periodic in the yaw: whenever
    it is true, it is false one full turn (360 degrees) further in either
    direction, although the car faces the same way. *)
Theorem getDirection_full_turn (s s' : State) :
  getDirection s = true ->
  v1 (rotation s') = v1 (rotation s) + 360
  \/ v1 (rotation s') = v1 (rotation s) - 360 ->
  getDirection s' = false.
Proof.
  intros H E. apply getDirection_iff in H.
  apply not_true_is_false. intros H'. apply getDirection_iff in H'.
  lra.
Qed.

Lemma getDirection_full_turn_witness :
  getDirection (set_rotation (Vec 0 (45 + 360) 0) playing) = false.
Proof.
  apply (getDirection_full_turn (set_rotation (Vec 0 45 0) playing)).
  - apply getDirection_iff. cbn. lra.
  - left. reflexivity.
Defined.

(** X6: [collide] never changes the second and the third component of the
    direction vector and always stores the current pitch and yaw as the
    previous ones.  When it calls [crash()] it shifts the first component
    against the side the track point is on: by -0.05 for a point at
    [x > 0]; for a point at [x <= 0] by +0.05 when [getDirection] is true
    and by +0.5 when it is false; the crash flag is then set, [onKeyDown]
    is removed and the backward control is pressed at [maxReverse].
    Without a crash the vector, the controls, the crash flag and the
    listener are returned as they were. *)
Theorem collide_nudge (s : State) (point directionVector : vec3)
  (topLeft topRight : R) :
  let s' := fst (collide s point directionVector topLeft topRight) in
  let vector := snd (collide s point directionVector topLeft topRight) in
  v1 vector = v1 directionVector /\ v2 vector = v2 directionVector
  /\ previousXRotation s' = v0 (rotation s')
  /\ previousYRotation s' = v1 (rotation s')
  /\ if collideCrashes s point topLeft topRight
     then (v0 vector - v0 directionVector = - 0.05 /\ 0 < v0 point
           \/ v0 vector - v0 directionVector = 0.05 /\ v0 point <= 0
              /\ getDirection s = true
           \/ v0 vector - v0 directionVector = 0.5 /\ v0 point <= 0
              /\ getDirection s = false)
          /\ hasCrashed s' = true
          /\ keydownListener s' = false
          /\ ctl s' Backward = {| pressed := true; value := maxReverse |}
     else vector = directionVector /\ controls s' = controls s
          /\ hasCrashed s' = hasCrashed s
          /\ keydownListener s' = keydownListener s.
Proof.
  unfold collide, collideCrashes, Rgtb.
  destruct (getDirection s), (Rltb 0 (v0 point)) eqn:Ep,
    (Rltb 0.2 topLeft), (Rltb 0.1 topRight);
    cbn; repeat split; try reflexivity;
    try (apply Rltb_true in Ep); try (apply Rltb_false in Ep).
  all: try solve [left; split; [lra|assumption]].
  all: try solve [right; left; split; [lra|split; [assumption|reflexivity]]].
  all: try solve [right; right; split; [lra|split; [assumption|reflexivity]]].
Qed.

(** ** [round] and the reverse ramp *)

(** X7: [round(value, factor)] is a whole number of millionths and differs
    from [value + factor] by at most half a millionth (a tie goes up). *)
Theorem round_nearest_millionth (x factor : R) :
  exists k : Z,
    round x factor = micro k
    /\ - (1 / 2000000) < round x factor - (x + factor) <= 1 / 2000000.
Proof.
  unfold round, Math_round, micro.
  set (y := 1000000 * (x + factor)).
  exists (Zfloor (y + 1 / 2)). split; [reflexivity|].
  pose proof (Zfloor_bound (y + 1 / 2)) as [H1 H2].
  replace (x + factor) with (y / 1000000) by (unfold y; field).
  lra.
Qed.

Lemma ticks_hasCrashed (n : nat) (s : State) :
  hasCrashed (ticks n s) = hasCrashed s.
Proof. apply (sv_hasCrashed _ _ (ticks_sameButValues n s)). Qed.

(** Backward held from rest, not crashed: [n] ticks give
    [-5 * min n 400] millionths. *)
Lemma reverse_up (s : State) (n : nat) :
  isPaused s = false -> hasCrashed s = false ->
  pressed (ctl s Backward) = true -> value (ctl s Backward) = 0 ->
  value (ctl (ticks n s) Backward) = micro (-5 * Z.min (Z.of_nat n) 400).
Proof.
  intros Hp Hc Hb H0. induction n as [|n IH].
  - change (ticks 0 s) with s.
    rewrite H0, Z.min_l by lia. symmetry. apply micro_0.
  - change (ticks (S n) s) with (accelerate (ticks n s)).
    rewrite accelerate_backward by (rewrite ticks_isPaused; exact Hp).
    rewrite (sv_pressed _ _ (ticks_sameButValues n s)), Hb,
      ticks_hasCrashed, Hc, IH.
    unfold Rgtb. rewrite maxReverse_micro.
    destruct (Rltb _ _) eqn:E.
    + apply Rltb_true, micro_lt in E.
      rewrite (round_micro' (-5 * Z.min (Z.of_nat n) 400) (-5))
        by (auto using reverseFactor_micro).
      f_equal. lia.
    + apply Rltb_false in E. f_equal.
      assert (~ (-2000 < -5 * Z.min (Z.of_nat n) 400)%Z)
        by (intros H; apply micro_lt in H; lra).
      lia.
Qed.

(** Backward released at [-5 * m] millionths: [k] ticks give
    [-5 * max (m - k) 0]. *)
Lemma reverse_down (s : State) (m : Z) (k : nat) :
  isPaused s = false -> pressed (ctl s Backward) = false ->
  (0 <= m)%Z -> value (ctl s Backward) = micro (-5 * m) ->
  value (ctl (ticks k s) Backward) = micro (-5 * Z.max (m - Z.of_nat k) 0).
Proof.
  intros Hp Hb Hm H0. induction k as [|k IH].
  - change (ticks 0 s) with s. rewrite H0. f_equal. lia.
  - change (ticks (S k) s) with (accelerate (ticks k s)).
    rewrite accelerate_backward by (rewrite ticks_isPaused; exact Hp).
    rewrite (sv_pressed _ _ (ticks_sameButValues k s)), Hb, IH.
    rewrite <- micro_0 at 1.
    destruct (Rltb _ _) eqn:E.
    + apply Rltb_true, micro_lt in E.
      rewrite (round_micro' (-5 * Z.max (m - Z.of_nat k) 0) 5).
      * f_equal. lia.
      * reflexivity.
      * rewrite reverseFactor_micro. unfold micro. lra.
    + apply Rltb_false in E. f_equal.
      assert (~ (-5 * Z.max (m - Z.of_nat k) 0 < 0)%Z)
        by (intros H; apply micro_lt in H; lra).
      lia.
Qed.

(** X8: from backward value 0 with the backward key held, the game not
    paused and the car not crashed, each of the first 400 ticks strictly
    lowers the value, which stays above [maxReverse] until tick 400 and
    equals [maxReverse] from then on; once the key is released (after any
    number [n] of ticks) the value is never positive, every tick strictly
    raises it while it is below 0, and it is exactly 0 from tick
    [min n 400] on. *)
Theorem backward_ramp (s : State) :
  isPaused s = false -> hasCrashed s = false ->
  pressed (ctl s Backward) = true -> value (ctl s Backward) = 0 ->
  (forall n, (n < 400)%nat ->
     value (ctl (ticks (S n) s) Backward) < value (ctl (ticks n s) Backward)
     /\ maxReverse < value (ctl (ticks n s) Backward))
  /\ (forall n, (400 <= n)%nat ->
        value (ctl (ticks n s) Backward) = maxReverse)
  /\ (forall n k,
        let released := setPressed Backward false (ticks n s) in
        value (ctl (ticks k released) Backward) <= 0
        /\ ((k < Nat.min n 400)%nat ->
            value (ctl (ticks k released) Backward)
            < value (ctl (ticks (S k) released) Backward))
        /\ ((Nat.min n 400 <= k)%nat ->
            value (ctl (ticks k released) Backward) = 0)).
Proof.
  intros Hp Hc Hb H0.
  split; [|split].
  - intros n Hn. rewrite !(reverse_up s _ Hp Hc Hb H0), maxReverse_micro.
    split; apply micro_lt; lia.
  - intros n Hn. rewrite (reverse_up s _ Hp Hc Hb H0), maxReverse_micro.
    f_equal. lia.
  - intros n k released.
    assert (Hr : forall j,
               value (ctl (ticks j released) Backward)
               = micro (-5 * Z.max (Z.min (Z.of_nat n) 400 - Z.of_nat j) 0)).
    { intros j. apply reverse_down.
      - unfold released. cbn. rewrite ticks_isPaused. exact Hp.
      - reflexivity.
      - lia.
      - unfold released. cbn. apply (reverse_up s n Hp Hc Hb H0). }
    rewrite !Hr. rewrite <- micro_0.
    repeat split.
    + destruct (Z.eq_dec (Z.max (Z.min (Z.of_nat n) 400 - Z.of_nat k) 0) 0)
        as [->|Hne]; [right; reflexivity|left; apply micro_lt; lia].
    + intros H. apply micro_lt. lia.
    + intros H. f_equal. lia.
Qed.

Lemma backward_ramp_witness :
  value (ctl (ticks 400 (setPressed Backward true playing)) Backward)
  = maxReverse.
Proof.
  refine (proj1 (proj2 (backward_ramp (setPressed Backward true playing)
                          eq_refl eq_refl eq_refl eq_refl)) 400%nat _).
  apply le_n.
Defined.

(** ** Loading the models *)

Lemma fold_gather (coords : list R) (step : Z) (inds : list Z) (acc : list R) :
  fold_left
    (fun formattedCoords index =>
       formattedCoords
       ++ subarray coords (index * step) (index * step + step))
    inds acc
  = acc ++ flat_map
             (fun index => subarray coords (index * step) (index * step + step))
             inds.
Proof.
  revert acc. induction inds as [|i inds IH]; intros acc;
    cbn [fold_left flat_map].
  - now rewrite app_nil_r.
  - rewrite IH, app_assoc. reflexivity.
Qed.

Lemma subarray_tuple (coords : list R) (index step : Z) :
  (0 <= index)%Z -> (0 <= step)%Z ->
  (index * step + step <= Z.of_nat (List.length coords))%Z ->
  subarray coords (index * step) (index * step + step)
  = firstn (Z.to_nat step) (skipn (Z.to_nat (index * step)) coords).
Proof.
  intros Hi Hs Hl. unfold subarray.
  assert (H0 : (0 <= index * step)%Z) by nia.
  destruct (Z.ltb_spec (index * step) 0); [lia|].
  destruct (Z.ltb_spec (index * step + step) 0); [lia|].
  rewrite !Z.min_l by lia.
  f_equal. f_equal. lia.
Qed.

Lemma subarray_tuple_length (coords : list R) (index step : Z) :
  (0 <= index)%Z -> (0 <= step)%Z ->
  (index * step + step <= Z.of_nat (List.length coords))%Z ->
  List.length (subarray coords (index * step) (index * step + step))
  = Z.to_nat step.
Proof.
  intros Hi Hs Hl. rewrite subarray_tuple by assumption.
  rewrite length_firstn, length_skipn. nia.
Qed.

Lemma gather_length (coords : list R) (step : Z) (inds : list Z) :
  (0 <= step)%Z -> Forall (validIndex coords step) inds ->
  List.length
    (flat_map
       (fun index => subarray coords (index * step) (index * step + step))
       inds)
  = (List.length inds * Z.to_nat step)%nat.
Proof.
  intros Hs H. induction H as [|i inds [Hi Hl] _ IH]; [reflexivity|].
  cbn [flat_map List.length]. rewrite length_app, IH.
  rewrite subarray_tuple_length by assumption. lia.
Qed.

Lemma gather_nth (coords : list R) (step : Z) (inds : list Z) (i j : nat)
  (index : Z) :
  (0 <= step)%Z -> Forall (validIndex coords step) inds ->
  nth_error inds i = Some index -> (j < Z.to_nat step)%nat ->
  nth_error
    (flat_map
       (fun index => subarray coords (index * step) (index * step + step))
       inds) (i * Z.to_nat step + j)
  = nth_error coords (Z.to_nat (index * step) + j).
Proof.
  intros Hs H. revert i. induction H as [|i0 inds [Hi Hl] _ IH]; intros i Hn Hj.
  - destruct i; discriminate.
  - cbn [flat_map]. destruct i as [|i].
    + injection Hn as ->. cbn [Nat.mul Nat.add].
      rewrite nth_error_app1
        by (rewrite subarray_tuple_length by assumption; exact Hj).
      rewrite subarray_tuple by assumption.
      rewrite nth_error_firstn, nth_error_skipn.
      destruct (Nat.ltb_spec j (Z.to_nat step)); [reflexivity|lia].
    + cbn [nth_error] in Hn.
      rewrite nth_error_app2
        by (rewrite subarray_tuple_length by assumption; lia).
      rewrite subarray_tuple_length by assumption.
      replace (S i * Z.to_nat step + j - Z.to_nat step)%nat
        with (i * Z.to_nat step + j)%nat by lia.
      apply IH; assumption.
Qed.

(** X9: when every index of [inds] selects a whole [step]-tuple of
    [coords], [getFormattedVertices] returns [step] numbers per index, and
    number [j] of tuple [i] of the result is number [j] of tuple [inds[i]]
    of [coords]: the indexed vertices are laid out one after the other in
    the order of [inds]. *)
Theorem getFormattedVertices_gathers (coords : list R) (inds : list Z)
  (step : Z) :
  (0 <= step)%Z -> Forall (validIndex coords step) inds ->
  List.length (getFormattedVertices coords inds step)
  = (List.length inds * Z.to_nat step)%nat
  /\ forall (i j : nat) (index : Z),
       nth_error inds i = Some index -> (j < Z.to_nat step)%nat ->
       nth_error (getFormattedVertices coords inds step)
         (i * Z.to_nat step + j)
       = nth_error coords (Z.to_nat (index * step) + j).
Proof.
  intros Hs H. unfold getFormattedVertices. rewrite fold_gather.
  cbn [app]. split; [apply gather_length; assumption|].
  intros i j index. apply gather_nth; assumption.
Qed.

Lemma getFormattedVertices_gathers_witness :
  List.length (getFormattedVertices [1; 2; 3; 4; 5; 6] [1; 0; 1]%Z 3)
  = (3 * 3)%nat.
Proof.
  refine (proj1 (getFormattedVertices_gathers [1; 2; 3; 4; 5; 6] [1; 0; 1]%Z 3
                   _ _)).
  - discriminate.
  - repeat constructor; cbn; discriminate.
Defined.

(** X10: an index whose tuple starts at or past the end of [coords] is
    skipped without an error: the result is the one for the list of
    indices without it, so it is shorter and the later tuples move up. *)
Theorem getFormattedVertices_skips_past_end (coords : list R)
  (before after : list Z) (index step : Z) :
  (0 <= step)%Z -> (Z.of_nat (List.length coords) <= index * step)%Z ->
  getFormattedVertices coords (before ++ index :: after) step
  = getFormattedVertices coords (before ++ after) step.
Proof.
  intros Hs Hi. unfold getFormattedVertices. rewrite !fold_gather.
  cbn [app]. rewrite !flat_map_app. cbn [flat_map].
  rewrite (subarray_past_end coords _ _ Hi) by lia. reflexivity.
Qed.

Lemma getFormattedVertices_skips_past_end_witness :
  getFormattedVertices [1; 2; 3; 4; 5; 6] ([1] ++ 2 :: [0])%Z 3
  = getFormattedVertices [1; 2; 3; 4; 5; 6] ([1] ++ [0])%Z 3.
Proof.
  apply (getFormattedVertices_skips_past_end [1; 2; 3; 4; 5; 6] [1]%Z [0]%Z
           2 3); discriminate.
Defined.

Lemma carBoxStep_maxX (c : CarBox) (x : R) (z : option R) :
  maxX (carBoxStep c x z)
  = if Rgtb x (maxX c) then x + v0 carPosition else maxX c.
Proof.
  unfold carBoxStep.
  destruct (Rgtb x (maxX c)); [|destruct (Rltb x (minX c))];
    destruct z as [z|]; cbn [maxX]; split_ifs; reflexivity.
Qed.

Lemma carBoxStep_maxX_bounds (c : CarBox) (x : R) (z : option R) :
  maxX c <= maxX (carBoxStep c x z)
  /\ x <= maxX (carBoxStep c x z)
  /\ (maxX (carBoxStep c x z) = maxX c
      \/ maxX (carBoxStep c x z) = x + v0 carPosition).
Proof.
  rewrite carBoxStep_maxX. unfold Rgtb.
  destruct (Rltb (maxX c) x) eqn:E;
    [apply Rltb_true in E|apply Rltb_false in E]; cbn [carPosition v0];
    repeat split; auto; lra.
Qed.

Lemma carBoxLoop_maxX (n : nat) :
  forall (verts : list R) (c : CarBox),
    (List.length verts <= n)%nat ->
    maxX c <= maxX (carBoxLoop verts c)
    /\ (forall k x, nth_error verts (3 * k) = Some x ->
                    x <= maxX (carBoxLoop verts c))
    /\ (maxX (carBoxLoop verts c) = maxX c
        \/ exists k x, nth_error verts (3 * k) = Some x
                       /\ maxX (carBoxLoop verts c) = x + v0 carPosition).
Proof.
  induction n as [|n IH]; intros verts c Hn.
  - destruct verts; [|cbn in Hn; lia]. cbn [carBoxLoop].
    split; [lra|]. split; [|left; reflexivity].
    intros k x H. destruct (3 * k)%nat; discriminate.
  - destruct verts as [|x [|y [|z rest]]].
    + cbn [carBoxLoop]. split; [lra|]. split; [|left; reflexivity].
      intros k x H. destruct (3 * k)%nat; discriminate.
    + cbn [carBoxLoop].
      destruct (carBoxStep_maxX_bounds c x None) as (H1 & H2 & H3).
      split; [exact H1|]. split.
      * intros [|k] x' H; [cbn in H; injection H as <-; exact H2|].
        replace (3 * S k)%nat with (S (S (S (3 * k)))) in H by lia.
        cbn in H. destruct (3 * k)%nat; discriminate.
      * destruct H3 as [->|H3]; [left; reflexivity|].
        right. exists 0%nat, x. split; [reflexivity|exact H3].
    + cbn [carBoxLoop].
      destruct (carBoxStep_maxX_bounds c x None) as (H1 & H2 & H3).
      split; [exact H1|]. split.
      * intros [|k] x' H; [cbn in H; injection H as <-; exact H2|].
        replace (3 * S k)%nat with (S (S (S (3 * k)))) in H by lia.
        cbn in H. destruct (3 * k)%nat; discriminate.
      * destruct H3 as [->|H3]; [left; reflexivity|].
        right. exists 0%nat, x. split; [reflexivity|exact H3].
    + cbn [carBoxLoop].
      destruct (carBoxStep_maxX_bounds c x (Some z)) as (H1 & H2 & H3).
      destruct (IH rest (carBoxStep c x (Some z))) as (G1 & G2 & G3);
        [cbn in Hn; lia|].
      split; [lra|]. split.
      * intros [|k] x' H; [cbn in H; injection H as <-; lra|].
        replace (3 * S k)%nat with (S (S (S (3 * k)))) in H by lia.
        cbn [nth_error] in H. apply (G2 k x' H).
      * destruct G3 as [G3|(k & x' & Hk & G3)].
        -- rewrite G3. destruct H3 as [->|H3]; [left; reflexivity|].
           right. exists 0%nat, x. split; [reflexivity|exact H3].
        -- right. exists (S k), x'. split; [|exact G3].
           replace (3 * S k)%nat with (S (S (S (3 * k)))) by lia.
           exact Hk.
Qed.

(** X11: the [maxX] of the box [calculateCarBox] returns is a right bound
    of the car: the scaled x coordinate of every vertex is at most [maxX],
    and [maxX] is the scaled x coordinate of some vertex, or that
    coordinate plus [carPosition[0]] before scaling, so it overshoots the
    rightmost vertex by at most [carPosition[0] * mustangScale]. *)
Theorem calculateCarBox_maxX (verts : list R) (box : CarBox) :
  calculateCarBox verts = Some box ->
  (forall k x, nth_error verts (3 * k) = Some x ->
               x * mustangScale <= maxX box)
  /\ exists k x,
       nth_error verts (3 * k) = Some x
       /\ (maxX box = x * mustangScale
           \/ maxX box = (x + v0 carPosition) * mustangScale).
Proof.
  unfold calculateCarBox.
  destruct verts as [|x0 [|y0 [|z0 rest]]]; try discriminate.
  intros E; injection E as <-. cbn [maxX].
  destruct (carBoxLoop_maxX (List.length rest) rest
              {| maxX := x0; minX := x0; maxZ := z0; minZ := z0 |}
              (le_n _)) as (G1 & G2 & G3).
  cbn [maxX] in G1, G3.
  assert (Hs : 0 < mustangScale) by (unfold mustangScale; lra).
  split.
  - intros [|k] x H.
    + cbn in H. injection H as <-. apply Rmult_le_compat_r; lra.
    + replace (3 * S k)%nat with (S (S (S (3 * k)))) in H by lia.
      cbn [nth_error] in H. apply Rmult_le_compat_r; [lra|].
      apply (G2 k x H).
  - destruct G3 as [G3|(k & x & Hk & G3)].
    + exists 0%nat, x0. split; [reflexivity|]. left. rewrite G3. reflexivity.
    + exists (S k), x. split.
      * replace (3 * S k)%nat with (S (S (S (3 * k)))) by lia. exact Hk.
      * right. rewrite G3. reflexivity.
Qed.

Lemma calculateCarBox_two_vertices :
  calculateCarBox [1; 0; 5; 2; 0; 7]
  = Some {| maxX := (2 + v0 carPosition) * mustangScale;
            minX := 1 * mustangScale;
            maxZ := (7 + v2 carPosition) * mustangScale;
            minZ := 5 * mustangScale |}.
Proof.
  unfold calculateCarBox, carBoxLoop, carBoxStep, Rgtb.
  cbn [maxX minX maxZ minZ].
  rewrite (Rltb_lt 1 2) by lra. cbn [maxX minX maxZ minZ].
  rewrite (Rltb_lt 5 7) by lra. reflexivity.
Qed.

Lemma calculateCarBox_maxX_witness :
  2 * mustangScale <= (2 + v0 carPosition) * mustangScale.
Proof.
  exact (proj1 (calculateCarBox_maxX _ _ calculateCarBox_two_vertices)
           1%nat 2 eq_refl).
Defined.

(** ** The shuffle of the random mode *)

Lemma floor_index (r : R) (len : nat) :
  0 <= r < 1 -> (0 < len)%nat ->
  (0 <= Zfloor (r * INR len) < Z.of_nat len)%Z.
Proof.
  intros [H0 H1] Hl.
  assert (Hpos : 0 < INR len) by (apply lt_0_INR; exact Hl).
  split.
  - apply Zfloor_lub. cbn. apply Rmult_le_pos; lra.
  - pose proof (Zfloor_bound (r * INR len)) as [Hb _].
    apply lt_IZR. rewrite <- INR_IZR_INZ.
    apply Rle_lt_trans with (r * INR len); [exact Hb|]. nra.
Qed.

Lemma splice1_perm {A : Type} (keys : list A) (i : nat) :
  (i < List.length keys)%nat ->
  exists c, elementAt keys (Z.of_nat i) = Some c
            /\ Permutation (c :: splice1 keys (Z.of_nat i)) keys
            /\ List.length (splice1 keys (Z.of_nat i))
               = (List.length keys - 1)%nat.
Proof.
  intros Hi. unfold elementAt, splice1.
  destruct (Z.ltb_spec (Z.of_nat i) 0); [lia|].
  rewrite Z.min_l by lia. rewrite Nat2Z.id.
  destruct (nth_error keys i) as [c|] eqn:E;
    [|apply nth_error_None in E; lia].
  exists c. split; [reflexivity|].
  apply nth_error_split in E. destruct E as (l1 & l2 & -> & <-).
  rewrite firstn_app, firstn_all, Nat.sub_diag. cbn [firstn].
  rewrite app_nil_r.
  replace (skipn (S (List.length l1)) (l1 ++ c :: l2)) with l2.
  - split; [apply Permutation_middle|].
    rewrite !length_app. cbn [List.length]. lia.
  - rewrite skipn_app, skipn_all2 by lia.
    replace (S (List.length l1) - List.length l1)%nat with 1%nat by lia.
    reflexivity.
Qed.

Lemma shuffleLoop_perm (random : nat -> R) :
  (forall n, 0 <= random n < 1) ->
  forall (fuel n : nat) (keys : list string)
         (newControls : list (option string)),
    (List.length keys < fuel)%nat ->
    exists picked,
      shuffleLoop fuel random n keys newControls
      = Some (newControls ++ map Some picked)
      /\ Permutation picked keys.
Proof.
  intros Hr fuel. induction fuel as [|fuel IH]; intros n keys nc Hf; [lia|].
  cbn [shuffleLoop].
  destruct keys as [|k0 keys'] eqn:Ek.
  - cbn. exists []. rewrite app_nil_r. split; [reflexivity|constructor].
  - rewrite <- Ek in *. assert (Hl : (0 < List.length keys)%nat)
      by (rewrite Ek; cbn; lia).
    destruct (Nat.eqb_spec (List.length keys) 0) as [?|_]; [lia|].
    cbn [negb].
    pose proof (floor_index (random n) (List.length keys) (Hr n) Hl) as Hi.
    set (index := Zfloor (random n * INR (List.length keys))) in *.
    destruct (splice1_perm keys (Z.to_nat index)) as (c & Ec & Hp & Hlen);
      [lia|].
    rewrite Z2Nat.id in Ec, Hp, Hlen by lia.
    destruct (IH (S n) (splice1 keys index) (nc ++ [elementAt keys index]))
      as (picked & E & Hq); [lia|].
    exists (c :: picked). split.
    + rewrite E, Ec, <- app_assoc. reflexivity.
    + rewrite <- Hp. constructor. exact Hq.
Qed.

(** X12: when [Math.random()] returns numbers of [0, 1), the loop of
    [randomRacingMode] ends after four rounds with four defined keys, and
    the keys it binds to forward, right, backward and left are a
    permutation of 'w', 's', 'a', 'd': every one of the four keys drives
    exactly one direction and no two directions share a key. *)
Theorem randomRacingMode_shuffle (fuel : nat) (random : nat -> R) :
  (forall n, 0 <= random n < 1) -> (5 <= fuel)%nat ->
  exists f r b l : string,
    shuffledKeys fuel random = Some [Some f; Some r; Some b; Some l]
    /\ Permutation [f; r; b; l] ["w"; "s"; "a"; "d"]%string
    /\ NoDup [f; r; b; l].
Proof.
  intros Hr Hf.
  destruct (shuffleLoop_perm random Hr fuel 0 ["w"; "s"; "a"; "d"]%string [])
    as (picked & E & Hp); [cbn; lia|].
  pose proof (Permutation_length Hp) as Hl.
  destruct picked as [|f [|r [|b [|l [|? ?]]]]]; try discriminate.
  exists f, r, b, l. split; [exact E|]. split; [exact Hp|].
  apply (Permutation_NoDup (Permutation_sym Hp)).
  repeat constructor; cbn; intuition discriminate.
Qed.

Lemma randomRacingMode_shuffle_witness :
  exists f r b l : string,
    shuffledKeys 5 (fun _ => 0) = Some [Some f; Some r; Some b; Some l]
    /\ Permutation [f; r; b; l] ["w"; "s"; "a"; "d"]%string
    /\ NoDup [f; r; b; l].
Proof.
  apply (randomRacingMode_shuffle 5 (fun _ => 0)).
  - intros _. lra.
  - apply le_n.
Defined.

(** ** The text of the timer *)

(** The zero padding of [updateTimer], for the numbers below 100, by
    evaluation of the 100 cases. *)
Lemma padded_table :
  forallb
    (fun n =>
       String.eqb
         (if (Z.of_nat n <? 10)%Z
          then ("0" ++ numberText (Z.of_nat n))%string
          else numberText (Z.of_nat n))
         (twoDigits (Z.of_nat n)))
    (seq 0 100) = true.
Proof. vm_compute. reflexivity. Qed.

Lemma padded_twoDigits (n : Z) :
  (0 <= n < 100)%Z ->
  (if (n <? 10)%Z then ("0" ++ numberText n)%string else numberText n)
  = twoDigits n.
Proof.
  intros Hn. pose proof padded_table as H. rewrite forallb_forall in H.
  specialize (H (Z.to_nat n)). rewrite Z2Nat.id in H by lia.
  apply String.eqb_eq, H, in_seq. lia.
Qed.

(** X13: for an elapsed time of 0 to 5999 seconds the text of the timer
    has exactly five characters, "MM:SS": the minutes and the seconds below
    60, each with two decimal digits and a leading zero where needed. *)
Theorem timerText_clock (e : Z) :
  (0 <= e < 6000)%Z ->
  timerText e = clockText e /\ String.length (timerText e) = 5%nat.
Proof.
  intros He.
  assert (E : timerText e = clockText e).
  { unfold timerText, clockText. cbv zeta.
    rewrite Z.rem_mod_nonneg by lia.
    rewrite (padded_twoDigits (e / 60)), (padded_twoDigits (e mod 60)).
    - reflexivity.
    - pose proof (Z.mod_pos_bound e 60). lia.
    - split; [apply Z.div_pos; lia|].
      apply Z.div_lt_upper_bound; lia. }
  split; [exact E|]. rewrite E. reflexivity.
Qed.

Lemma timerText_clock_witness :
  timerText 754 = "12:34"%string /\ String.length (timerText 754) = 5%nat.
Proof. apply (timerText_clock 754). lia. Defined.

(** ** What a frame and a key event leave alone

    For a projection [f] of the state: if the assignments a function makes
    do not change [f], neither does the function. *)

Section Stable.

Context {A : Type} (f : State -> A).

Hypothesis f_hasCrashed : forall x s, f (set_hasCrashed x s) = f s.
Hypothesis f_pressedBackward : forall x s, f (setPressed Backward x s) = f s.
Hypothesis f_valueBackward : forall x s, f (setValue Backward x s) = f s.
Hypothesis f_listener : forall x s, f (set_keydownListener x s) = f s.
Hypothesis f_checkpoint : forall x s, f (set_hasReachedCheckpoint x s) = f s.
Hypothesis f_hasWon : forall x s, f (set_hasWon x s) = f s.
Hypothesis f_message : forall x s, f (set_message x s) = f s.
Hypothesis f_previousX : forall x s, f (set_previousXRotation x s) = f s.
Hypothesis f_previousY : forall x s, f (set_previousYRotation x s) = f s.
Hypothesis f_trackPosition : forall x s, f (set_trackPosition x s) = f s.
Hypothesis f_pitch : forall x s, f (set_pitch x s) = f s.

Lemma crash_stable (s : State) : f (crash s) = f s.
Proof.
  unfold crash.
  now rewrite f_listener, f_valueBackward, f_pressedBackward, f_hasCrashed.
Qed.

Lemma checkProgress_stable (s : State) : f (checkProgress s) = f s.
Proof.
  unfold checkProgress, checkReachedCheckpoint, checkReachedFinish.
  split_ifs; rewrite ?f_message, ?f_hasWon, ?f_listener, ?f_checkpoint;
    reflexivity.
Qed.

Lemma collide_stable (s : State) (point dv : vec3) (tl tr : R) :
  f (fst (collide s point dv tl tr)) = f s.
Proof.
  unfold collide.
  split_ifs; cbn [fst]; rewrite f_previousY, f_previousX, ?crash_stable;
    reflexivity.
Qed.

Lemma toCollide_stable (s : State) (dv : vec3) (a : CollideArgs) :
  stayOnTrack_toCollide s dv = Some a -> f (ca_state a) = f s.
Proof.
  unfold stayOnTrack_toCollide.
  destruct (getClosestPointOnCurve s) as [sd|]; [|discriminate].
  destruct (adjacentPoints s sd) as [[[v|] pa] pb]; [|discriminate].
  destruct (getRotationAngleAndTranslate dv v pb pa) as [[ang dv']|];
    [|discriminate].
  destruct (determinePointByDistance pb pa); [|discriminate].
  intros E; injection E as <-. cbn [ca_state]. apply f_pitch.
Qed.

Lemma stayOnTrack_stable (s s' : State) (dv dv' : vec3) :
  stayOnTrack s dv = Some (s', dv') -> f s' = f s.
Proof.
  unfold stayOnTrack.
  destruct (stayOnTrack_toCollide s dv) as [a|] eqn:Ea; [|discriminate].
  intros E; injection E as E. apply (f_equal fst) in E. cbn [fst] in E.
  rewrite <- E, collide_stable. exact (toCollide_stable _ _ _ Ea).
Qed.

(** After [stayOnTrack] the frame only adds the vector to
    [trackPosition]. *)
Lemma updatePosition_after_drive (s s' : State) :
  updatePosition s = Some s' ->
  f s' = f (fst (drive (accelerate (checkProgress s)) (Vec 0 0 0))).
Proof.
  unfold updatePosition, updatePosition_toTrack.
  destruct (drive (accelerate (checkProgress s)) (Vec 0 0 0)) as [s3 dv].
  cbn [fst].
  destruct (stayOnTrack s3 _) as [[s4 vec]|] eqn:Es; [|discriminate].
  intros E; injection E as <-.
  rewrite f_trackPosition. exact (stayOnTrack_stable _ _ _ _ Es).
Qed.

Hypothesis f_yaw : forall x s, f (set_yaw x s) = f s.

Lemma driveKey_stable (s : State) (dv : vec3) (key : Dir) :
  f (fst (driveKey (s, dv) key)) = f s.
Proof.
  unfold driveKey. destruct key; cbn [fst]; split_ifs;
    try reflexivity; apply f_yaw.
Qed.

Lemma drive_stable (s : State) (dv : vec3) : f (fst (drive s dv)) = f s.
Proof.
  unfold drive.
  destruct (negb (isPaused s)); [|reflexivity].
  destruct (negb (hasCrashed s)).
  - cbn [fold_left].
    repeat match goal with
           | |- context [driveKey (?a, ?b) ?k] =>
             let H := fresh in
             pose proof (driveKey_stable a b k) as H;
             destruct (driveKey (a, b) k); cbn [fst] in H
           end.
    cbn [fst]. congruence.
  - split_ifs; cbn [fst]; [|reflexivity].
    now rewrite f_listener, f_pressedBackward, f_hasCrashed.
Qed.

Hypothesis f_valueForward : forall x s, f (setValue Forward x s) = f s.
Hypothesis f_isIdle : forall x s, f (set_isIdle x s) = f s.

Lemma accelerate_stable (s : State) : f (accelerate s) = f s.
Proof.
  unfold accelerate.
  repeat match goal with
         | |- context [if ?c then _ else _] => destruct c
         end;
    rewrite ?f_isIdle, ?f_valueBackward, ?f_valueForward; reflexivity.
Qed.

Lemma updatePosition_stable (s s' : State) :
  updatePosition s = Some s' -> f s' = f s.
Proof.
  intros E. rewrite (updatePosition_after_drive _ _ E).
  now rewrite drive_stable, accelerate_stable, checkProgress_stable.
Qed.


(** The same for the key handlers of a session in play. *)

Hypothesis f_gameStartTime : forall x s, f (set_gameStartTime x s) = f s.
Hypothesis f_pressed : forall d x s, f (setPressed d x s) = f s.
Hypothesis f_turningWhileIdle :
  forall x s, f (set_turningWhileIdle x s) = f s.
Hypothesis f_isPaused : forall x s, f (set_isPaused x s) = f s.

Lemma pause_stable (s : State) : f (pause s) = f s.
Proof.
  unfold pause. destruct (isPaused s); cbn [fold_left].
  - now rewrite f_isPaused, f_message, f_listener.
  - now rewrite f_isPaused, f_message, !f_pressed, f_listener.
Qed.

Lemma onKeyDown_stable (now : Z) (key : string) (s : State) :
  f (onKeyDown now key s) = f s.
Proof.
  unfold onKeyDown.
  repeat match goal with
         | |- context [match ?c with Some _ => _ | None => _ end] =>
           destruct c
         | |- context [if ?c then _ else _] => destruct c
         end;
    rewrite ?f_turningWhileIdle, ?f_pressed, ?f_isIdle, ?f_pressed,
      ?f_gameStartTime; reflexivity.
Qed.

Lemma onKeyUp_play_stable (now : Z) (sh : string * string * string * string)
  (key : string) (s s' : State) :
  atTitleScreen s = false -> hasStarted s = true ->
  onKeyUp now sh key s = Some s' -> f s' = f s.
Proof.
  intros Ht Hs. unfold onKeyUp. rewrite Ht, Hs. cbn [negb].
  destruct (String.eqb key "p").
  { intros E; injection E as <-. apply pause_stable. }
  repeat match goal with
         | |- context [match ?c with Some _ => _ | None => _ end] =>
           destruct c
         | |- context [if ?c then _ else _] => destruct c
         end;
    intros E; injection E as <-;
    rewrite ?f_turningWhileIdle, ?f_pressed; reflexivity.
Qed.

(** The same for every event, the menus included. *)

Hypothesis f_atTitleScreen : forall x s, f (set_atTitleScreen x s) = f s.
Hypothesis f_inHelpMenu : forall x s, f (set_inHelpMenu x s) = f s.
Hypothesis f_hasStarted : forall x s, f (set_hasStarted x s) = f s.
Hypothesis f_controls : forall x s, f (set_controls x s) = f s.
Hypothesis f_forward : forall x s, f (set_forward x s) = f s.
Hypothesis f_right : forall x s, f (set_right x s) = f s.
Hypothesis f_backward : forall x s, f (set_backward x s) = f s.
Hypothesis f_left : forall x s, f (set_left x s) = f s.
Hypothesis f_gamePausedTime : forall x s, f (set_gamePausedTime x s) = f s.
Hypothesis f_gameCurrTime : forall x s, f (set_gameCurrTime x s) = f s.

Lemma updateTimer_stable (now : Z) (s : State) : f (updateTimer now s) = f s.
Proof.
  unfold updateTimer, calculateElapsedTime.
  split_ifs; rewrite ?f_gameCurrTime, ?f_gamePausedTime; reflexivity.
Qed.

Lemma render_stable (now : Z) (s s' : State) :
  render now s = Some s' -> f s' = f s.
Proof.
  unfold render.
  destruct (updatePosition s) as [s1|] eqn:E; [|discriminate].
  intros E'; injection E' as <-.
  destruct (gameStartTime s1); rewrite ?updateTimer_stable;
    exact (updatePosition_stable _ _ E).
Qed.

Lemma initializeGame_stable (now : Z) (s s' : State) :
  initializeGame now s = Some s' -> f s' = f s.
Proof.
  unfold initializeGame, startPlaying, setControls. intros E.
  rewrite (render_stable _ _ _ E). now rewrite f_hasStarted, f_controls.
Qed.

Lemma onKeyUp_stable (now : Z) (sh : string * string * string * string)
  (key : string) (s s' : State) :
  onKeyUp now sh key s = Some s' -> f s' = f s.
Proof.
  destruct (atTitleScreen s) eqn:Ht.
  { unfold onKeyUp. rewrite Ht. intros E; injection E as <-.
    apply f_atTitleScreen. }
  destruct (hasStarted s) eqn:Hs;
    [exact (onKeyUp_play_stable now sh key s s' Ht Hs)|].
  unfold onKeyUp. rewrite Ht, Hs. cbn [negb].
  destruct (String.eqb key "1"); [apply initializeGame_stable|].
  destruct (String.eqb key "2").
  { destruct sh as [[[k1 k2] k3] k4]. unfold randomRacingMode. intros E.
    rewrite (initializeGame_stable _ _ _ E).
    now rewrite f_left, f_backward, f_right, f_forward. }
  destruct (String.eqb key "3"); [apply initializeGame_stable|].
  split_ifs; intros E; injection E as <-; rewrite ?f_inHelpMenu;
    reflexivity.
Qed.

End Stable.


(** ** Steering *)

Lemma drive_yaw (s : State) (dv : vec3) :
  v1 (rotation (fst (drive s dv)))
  = if isPaused s || hasCrashed s then v1 (rotation s)
    else
      let yaw := if pressed (ctl s Right)
                 then v1 (rotation s) + value (ctl s Right)
                 else v1 (rotation s) in
      if pressed (ctl s Left) then yaw + value (ctl s Left) else yaw.
Proof.
  unfold drive.
  destruct (isPaused s); [reflexivity|]. cbn [negb orb].
  destruct (hasCrashed s); cbn [negb].
  - split_ifs; reflexivity.
  - cbn [fold_left driveKey]. unfold ctl.
    destruct (pressed (getControl (controls s) Right));
      cbn [controls set_rotation];
      destruct (pressed (getControl (controls s) Left)); reflexivity.
Qed.

Lemma frame_turns (s s' : State) :
  updatePosition s = Some s' ->
  v1 (rotation s') - v1 (rotation s)
  = (if isPaused s || hasCrashed s then 0
     else (if pressed (ctl s Right) then value (ctl s Right) else 0)
          + (if pressed (ctl s Left) then value (ctl s Left) else 0))
  /\ v2 (rotation s') = v2 (rotation s)
  /\ ctl s' Right = ctl s Right /\ ctl s' Left = ctl s Left.
Proof.
  intros E.
  pose proof (@accelerate_stable _
                (fun t => (isPaused t, hasCrashed t, ctl t Right, ctl t Left,
                           v1 (rotation t)))) as Ha.
  pose proof (@checkProgress_stable _
                (fun t => (isPaused t, hasCrashed t, ctl t Right, ctl t Left,
                           v1 (rotation t)))) as Hc.
  pose proof (@updatePosition_after_drive _ (fun t => v1 (rotation t))) as Hd.
  pose proof (@updatePosition_stable _
                (fun t => (v2 (rotation t), ctl t Right, ctl t Left))) as Hu.
  stable_in Ha. stable_in Hc. stable_in Hd. stable_in Hu.
  specialize (Ha (checkProgress s)). rewrite Hc in Ha.
  injection Ha as Hp Hx Hr Hl Hy.
  injection (Hu _ _ E) as H2 H3 H4.
  split; [|split; [exact H2|split; [exact H3|exact H4]]].
  rewrite (Hd _ _ E), drive_yaw. cbn [ctl getControl].
  rewrite Hp, Hx, Hr, Hl, Hy.
  destruct (isPaused s || hasCrashed s); [lra|].
  cbv zeta.
  destruct (pressed (c_right (controls s))), (pressed (c_left (controls s)));
    lra.
Qed.


(** The branches of [onKeyUp]. *)
Lemma onKeyUp_cases (now : Z) (sh : string * string * string * string)
  (key : string) (s s' : State) :
  onKeyUp now sh key s = Some s' ->
  s' = set_atTitleScreen false s
  \/ (hasStarted s = false
      /\ exists s0,
           (s0 = s
            \/ exists f r b l,
                 s0 = set_left l (set_backward b (set_right r
                                                   (set_forward f s))))
           /\ render now (startPlaying (setControls s0)) = Some s')
  \/ (hasStarted s = false
      /\ (s' = set_inHelpMenu true s \/ s' = set_inHelpMenu false s
          \/ s' = s))
  \/ (atTitleScreen s = false /\ hasStarted s = true).
Proof.
  unfold onKeyUp.
  destruct (atTitleScreen s).
  { intros E; injection E as <-. left. reflexivity. }
  destruct (hasStarted s); cbn [negb]; [intros _; do 3 right; auto|].
  intros E. right. revert E.
  destruct (String.eqb key "1").
  { intros E. left. split; [reflexivity|]. exists s. split; [left|]; auto. }
  destruct (String.eqb key "2").
  { destruct sh as [[[k1 k2] k3] k4]. intros E. left.
    split; [reflexivity|]. eexists. split; [right; eauto|exact E]. }
  destruct (String.eqb key "3").
  { intros E. left. split; [reflexivity|]. exists s. split; [left|]; auto. }
  split_ifs; intros E; injection E as <-; right; left;
    (split; [reflexivity|auto]).
Qed.

Lemma render_turns (now : Z) (s s' : State) :
  render now s = Some s' ->
  v1 (rotation s') - v1 (rotation s)
  = (if isPaused s || hasCrashed s then 0
     else (if pressed (ctl s Right) then value (ctl s Right) else 0)
          + (if pressed (ctl s Left) then value (ctl s Left) else 0))
  /\ v2 (rotation s') = v2 (rotation s)
  /\ ctl s' Right = ctl s Right /\ ctl s' Left = ctl s Left.
Proof.
  unfold render.
  destruct (updatePosition s) as [s1|] eqn:E; [|discriminate].
  intros E'; injection E' as <-.
  pose proof (@updateTimer_stable _
                (fun t => (rotation t, ctl t Right, ctl t Left))) as Ht.
  stable_in Ht.
  assert (Hs : (rotation (match gameStartTime s1 with
                          | Some _ => updateTimer now s1
                          | None => s1
                          end),
                ctl (match gameStartTime s1 with
                     | Some _ => updateTimer now s1
                     | None => s1
                     end) Right,
                ctl (match gameStartTime s1 with
                     | Some _ => updateTimer now s1
                     | None => s1
                     end) Left)
               = (rotation s1, ctl s1 Right, ctl s1 Left))
    by (destruct (gameStartTime s1); [apply Ht|reflexivity]).
  injection Hs as -> H1 H2.
  change (c_right (controls ?t)) with (ctl t Right) in H1.
  change (c_left (controls ?t)) with (ctl t Left) in H2.
  rewrite H1, H2. exact (frame_turns _ _ E).
Qed.

Lemma render_steering (now : Z) (s s' : State) :
  turnRates s -> render now s = Some s' ->
  turnRates s' /\ v2 (rotation s') = v2 (rotation s)
  /\ exists k : Z, (-1 <= k <= 1)%Z
                   /\ v1 (rotation s') = v1 (rotation s) + IZR k / 2.
Proof.
  intros [Hr Hl] E.
  destruct (render_turns _ _ _ E) as (Hy & H2 & H3 & H4).
  split; [unfold turnRates; rewrite H3, H4; auto|]. split; [exact H2|].
  rewrite Hr, Hl in Hy.
  destruct (isPaused s || hasCrashed s);
    [exists 0%Z; split; [lia|lra]|].
  destruct (pressed (ctl s Right)), (pressed (ctl s Left)).
  - exists 0%Z. split; [lia|lra].
  - exists (-1)%Z. split; [lia|lra].
  - exists 1%Z. split; [lia|lra].
  - exists 0%Z. split; [lia|lra].
Qed.

Lemma step_steering (e : Event) (s s' : State) :
  turnRates s -> step e s = Some s' ->
  turnRates s' /\ v2 (rotation s') = v2 (rotation s)
  /\ exists k : Z, (-1 <= k <= 1)%Z
                   /\ v1 (rotation s') = v1 (rotation s) + IZR k / 2.
Proof.
  intros Ht E.
  assert (Hsame : (value (ctl s' Right), value (ctl s' Left), rotation s')
                  = (value (ctl s Right), value (ctl s Left), rotation s)
                  -> turnRates s' /\ v2 (rotation s') = v2 (rotation s)
                     /\ exists k : Z,
                          (-1 <= k <= 1)%Z
                          /\ v1 (rotation s')
                             = v1 (rotation s) + IZR k / 2).
  { intros H; injection H as H1 H2 H3. destruct Ht as [Hr Hl].
    split; [split; cbn [ctl getControl] in *; congruence|]. rewrite H3.
    split; [reflexivity|]. exists 0%Z. split; [lia|lra]. }
  destruct e as [now key|now sh key|now]; cbn [step] in E.
  - injection E as <-. apply Hsame.
    destruct (keydownListener s); [|reflexivity].
    apply (onKeyDown_stable
             (fun t => (value (ctl t Right), value (ctl t Left), rotation t)));
      stable.
  - destruct (onKeyUp_cases _ _ _ _ _ E)
      as [->|[(_ & s0 & H0 & Er)|[(_ & H0)|[H1 H2]]]].
    + apply Hsame. reflexivity.
    + assert (Hr0 : rotation (startPlaying (setControls s0)) = rotation s)
        by (destruct H0 as [->|(f & r & b & l & ->)]; reflexivity).
      rewrite <- Hr0. apply (render_steering now); [|exact Er].
      split; reflexivity.
    + apply Hsame. destruct H0 as [->|[->| ->]]; reflexivity.
    + apply Hsame.
      pose proof (@onKeyUp_play_stable _
                    (fun t => (value (ctl t Right), value (ctl t Left),
                               rotation t))) as Hk.
      stable_in Hk. exact (Hk _ _ _ _ _ H1 H2 E).
  - destruct (hasStarted s); [exact (render_steering _ _ _ Ht E)|].
    injection E as <-. apply Hsame. reflexivity.
Qed.

Lemma run_steering (es : list Event) (s s' : State) :
  turnRates s -> run es s = Some s' ->
  turnRates s' /\ v2 (rotation s') = v2 (rotation s)
  /\ exists k : Z,
       (Z.abs k <= Z.of_nat (List.length es))%Z
       /\ v1 (rotation s') = v1 (rotation s) + IZR k / 2.
Proof.
  revert s. induction es as [|e es IH]; intros s Ht E; cbn [run] in E.
  - injection E as <-. split; [exact Ht|]. split; [reflexivity|].
    exists 0%Z. split; [cbn; lia|lra].
  - destruct (step e s) as [s1|] eqn:E1; [|discriminate].
    destruct (step_steering _ _ _ Ht E1) as (Ht1 & H2 & k1 & Hk1 & Hy1).
    destruct (IH _ Ht1 E) as (Ht' & H2' & k & Hk & Hy).
    split; [exact Ht'|]. split; [congruence|].
    exists (k1 + k)%Z. split; [cbn [List.length]; lia|].
    rewrite Hy, Hy1, plus_IZR. lra.
Qed.

(** X14: a frame turns the car by the values of the turn keys that are
    pressed, -0.5 for right and 0.5 for left as [setControls] sets them,
    so by nothing when both or none are pressed, and by nothing at all
    while the game is paused or the car is crashed; the roll [rotation[2]]
    is not changed by a frame. *)
Theorem frame_steering (s s' : State) :
  updatePosition s = Some s' ->
  v1 (rotation s') - v1 (rotation s)
  = (if isPaused s || hasCrashed s then 0
     else (if pressed (ctl s Right) then value (ctl s Right) else 0)
          + (if pressed (ctl s Left) then value (ctl s Left) else 0))
  /\ v2 (rotation s') = v2 (rotation s).
Proof.
  intros E. destruct (frame_turns _ _ E) as (H1 & H2 & _). auto.
Qed.

Lemma frame_steering_witness :
  exists s', updatePosition pausedAboveTrack = Some s'
             /\ v2 (rotation s') = v2 (rotation pausedAboveTrack).
Proof.
  destruct (straight_paused_frame pausedAboveTrack 0 (-0.07) 0
              pausedAboveTrack_onStraight) as (s' & E & _);
    [lra|reflexivity|].
  exists s'. split; [exact E|]. exact (proj2 (frame_steering _ _ E)).
Defined.

(** X15: once [setControls] has set the turn rates, over any run of key
    events and frames the turn rates stay -0.5 and 0.5, the roll never
    changes, and the yaw moves on the half-degree grid through its start
    value, by at most half a degree per event. *)
Theorem steering_invariant (es : list Event) (s s' : State) :
  turnRates s -> run es s = Some s' ->
  turnRates s' /\ v2 (rotation s') = v2 (rotation s)
  /\ exists k : Z,
       (Z.abs k <= Z.of_nat (List.length es))%Z
       /\ v1 (rotation s') = v1 (rotation s) + IZR k / 2.
Proof. apply run_steering. Qed.

Lemma turnRates_playing : turnRates playing.
Proof. split; reflexivity. Qed.

Lemma steering_invariant_witness :
  turnRates (pause (onKeyDown 0 "a" playing))
  /\ v2 (rotation (pause (onKeyDown 0 "a" playing))) = v2 (rotation playing)
  /\ exists k : Z,
       (Z.abs k <= 2)%Z
       /\ v1 (rotation (pause (onKeyDown 0 "a" playing)))
          = v1 (rotation playing) + IZR k / 2.
Proof.
  exact (steering_invariant
           [KeyDown 0 "a"; KeyUp 0 ("w", "a", "s", "d")%string "p"]
           playing (pause (onKeyDown 0 "a" playing))
           turnRates_playing eq_refl).
Defined.

(** ** The forward speed *)

Lemma accelerate_paused (s : State) :
  isPaused s = true -> controls (accelerate s) = controls s.
Proof.
  intros Hp. unfold accelerate. rewrite Hp. cbn [negb]. split_ifs; reflexivity.
Qed.

Lemma forwardOnRamp_bounds (s : State) :
  forwardOnRamp s -> 0 <= value (ctl s Forward) <= maxPower.
Proof.
  intros (k & Hk & ->). rewrite maxPower_micro. unfold micro.
  assert (0 <= IZR (10 * k) <= IZR 10000)
    by (split; apply IZR_le; lia).
  lra.
Qed.

Lemma accelerate_onRamp (s : State) :
  forwardOnRamp s -> forwardOnRamp (accelerate s).
Proof.
  intros (k & Hk & Hv). unfold forwardOnRamp.
  destruct (isPaused s) eqn:Hp.
  { exists k. split; [exact Hk|]. unfold ctl.
    rewrite (accelerate_paused s Hp). exact Hv. }
  rewrite (accelerate_forward s Hp), Hv, maxPower_micro. unfold Rgtb.
  rewrite <- micro_0.
  destruct (pressed (ctl s Forward)).
  - destruct (Rltb _ _) eqn:E.
    + apply Rltb_true, micro_lt in E. exists (k + 1)%Z. split; [lia|].
      rewrite (round_micro' (10 * k) 10) by (auto using powerFactor_micro).
      f_equal. lia.
    + exists k. auto.
  - destruct (Rltb _ _) eqn:E.
    + apply Rltb_true, micro_lt in E. exists (k - 1)%Z. split; [lia|].
      rewrite (round_micro' (10 * k) (-10)).
      * f_equal. lia.
      * reflexivity.
      * rewrite powerFactor_micro. unfold micro. lra.
    + exists k. auto.
Qed.

Lemma frame_forward (s s' : State) :
  updatePosition s = Some s' ->
  ctl s' Forward = ctl (accelerate (checkProgress s)) Forward.
Proof.
  intros E.
  pose proof (@updatePosition_after_drive _ (fun t => ctl t Forward)) as Hd.
  pose proof (@drive_stable _ (fun t => ctl t Forward)) as Hv.
  stable_in Hd. stable_in Hv.
  rewrite (Hd _ _ E). apply Hv.
Qed.

Lemma render_onRamp (now : Z) (s s' : State) :
  forwardOnRamp s -> render now s = Some s' -> forwardOnRamp s'.
Proof.
  intros Hf. unfold render.
  destruct (updatePosition s) as [s1|] eqn:E; [|discriminate].
  intros E'; injection E' as <-.
  assert (H1 : forwardOnRamp s1).
  { unfold forwardOnRamp. rewrite (frame_forward _ _ E).
    apply accelerate_onRamp.
    unfold forwardOnRamp, ctl.
    rewrite (checkProgress_stable controls) by stable. exact Hf. }
  destruct (gameStartTime s1); [|exact H1].
  unfold forwardOnRamp, ctl.
  rewrite (updateTimer_stable controls) by stable. exact H1.
Qed.

Lemma step_onRamp (e : Event) (s s' : State) :
  forwardOnRamp s -> step e s = Some s' -> forwardOnRamp s'.
Proof.
  intros Hf E.
  assert (Hsame : value (ctl s' Forward) = value (ctl s Forward)
                  -> forwardOnRamp s').
  { intros H. unfold forwardOnRamp. rewrite H. exact Hf. }
  destruct e as [now key|now sh key|now]; cbn [step] in E.
  - injection E as <-. apply Hsame.
    destruct (keydownListener s); [|reflexivity].
    apply (onKeyDown_stable (fun t => value (ctl t Forward))); stable.
  - destruct (onKeyUp_cases _ _ _ _ _ E)
      as [->|[(_ & s0 & H0 & Er)|[(_ & H0)|[H1 H2]]]].
    + apply Hsame. reflexivity.
    + apply (render_onRamp now _ _) in Er; [exact Er|].
      exists 0%Z. split; [lia|]. cbn. symmetry. apply micro_0.
    + apply Hsame. destruct H0 as [->|[->| ->]]; reflexivity.
    + apply Hsame.
      pose proof (@onKeyUp_play_stable _ (fun t => value (ctl t Forward)))
        as Hk.
      stable_in Hk. exact (Hk _ _ _ _ _ H1 H2 E).
  - destruct (hasStarted s); [exact (render_onRamp _ _ _ Hf E)|].
    injection E as <-. exact Hf.
Qed.

Lemma run_invariant (P : State -> Prop) :
  (forall e s s', P s -> step e s = Some s' -> P s') ->
  forall es s s', P s -> run es s = Some s' -> P s'.
Proof.
  intros Hstep es. induction es as [|e es IH]; intros s s' Hs E;
    cbn [run] in E.
  - injection E as <-. exact Hs.
  - destruct (step e s) as [s1|] eqn:E1; [|discriminate].
    exact (IH _ _ (Hstep _ _ _ Hs E1) E).
Qed.

(** X16: over any run of key events and frames that starts with the
    forward value at a whole number of [powerFactor] steps between 0 and
    [maxPower] (as [setControls] leaves it), the forward value stays such a
    number: the forward speed is never negative and never above
    [maxPower], whatever keys are pressed, also across pauses and
    crashes. *)
Theorem forward_speed_bounded (es : list Event) (s s' : State) :
  forwardOnRamp s -> run es s = Some s' ->
  forwardOnRamp s' /\ 0 <= value (ctl s' Forward) <= maxPower.
Proof.
  intros Hf E.
  assert (H : forwardOnRamp s')
    by exact (run_invariant forwardOnRamp step_onRamp es s s' Hf E).
  split; [exact H|apply forwardOnRamp_bounds, H].
Qed.

Lemma forwardOnRamp_playing : forwardOnRamp playing.
Proof. exists 0%Z. split; [lia|]. cbn. symmetry. apply micro_0. Qed.

Lemma forward_speed_bounded_witness :
  forwardOnRamp
    (pause (onKeyDown 0 "w" playing))
  /\ 0 <= value (ctl (pause (onKeyDown 0 "w" playing)) Forward) <= maxPower.
Proof.
  exact (forward_speed_bounded
           [KeyDown 0 "w"; KeyUp 0 ("w", "a", "s", "d")%string "p"]
           playing (pause (onKeyDown 0 "w" playing))
           forwardOnRamp_playing eq_refl).
Defined.

Lemma control_eq (a b : Control) :
  pressed a = pressed b -> value a = value b -> a = b.
Proof. destruct a, b; cbn; intros -> ->; reflexivity. Qed.

Lemma accelerate_forward_ctl (s t : State) :
  isPaused s = isPaused t -> ctl s Forward = ctl t Forward ->
  ctl (accelerate s) Forward = ctl (accelerate t) Forward.
Proof.
  intros Hp Hc. apply control_eq.
  - rewrite !(sv_pressed _ _ (accelerate_sameButValues _)). congruence.
  - destruct (isPaused s) eqn:Es.
    + unfold ctl. rewrite (accelerate_paused s Es).
      rewrite (accelerate_paused t) by congruence.
      fold (ctl s Forward) (ctl t Forward). congruence.
    + rewrite (accelerate_forward s Es), (accelerate_forward t)
        by congruence.
      rewrite Hc. reflexivity.
Qed.

Lemma frames_ticks (n : nat) :
  forall s s', frames n s = Some s' ->
               ctl s' Forward = ctl (ticks n s) Forward
               /\ isPaused s' = isPaused s.
Proof.
  induction n as [|n IH]; intros s s'.
  - cbn. intros E; injection E as <-. auto.
  - rewrite frames_snoc.
    destruct (frames n s) as [s1|] eqn:E1; [|discriminate].
    destruct (IH _ _ E1) as [Hc Hp]. intros E.
    change (ticks (S n) s) with (accelerate (ticks n s)).
    pose proof (@checkProgress_stable _
                  (fun t => (isPaused t, ctl t Forward))) as Hk.
    stable_in Hk. injection (Hk s1) as Hk1 Hk2.
    pose proof (@updatePosition_stable _ isPaused) as Hu. stable_in Hu.
    split; [|rewrite (Hu _ _ E); exact Hp].
    rewrite (frame_forward _ _ E).
    apply accelerate_forward_ctl.
    + rewrite Hk1, Hp. symmetry. apply ticks_isPaused.
    + cbn [ctl getControl]. rewrite Hk2. exact Hc.
Qed.

(** X17: in a row of frames with no key event in between, the forward
    control after [n] frames is what [n] calls of [accelerate] alone make
    of it: the progress check, the steering, the track follower and
    [collide] (even when it calls [crash()]) never touch the forward
    control, so the forward ramp holds frame by frame. *)
Theorem frames_follow_ticks (n : nat) (s s' : State) :
  frames n s = Some s' -> ctl s' Forward = ctl (ticks n s) Forward.
Proof. intros E. exact (proj1 (frames_ticks n s s' E)). Qed.

Lemma frames_follow_ticks_witness :
  exists s', frames 1 pausedAboveTrack = Some s'
             /\ ctl s' Forward = ctl (ticks 1 pausedAboveTrack) Forward.
Proof.
  destruct (straight_paused_frame pausedAboveTrack 0 (-0.07) 0
              pausedAboveTrack_onStraight) as (s' & E & _);
    [lra|reflexivity|].
  assert (E1 : frames 1 pausedAboveTrack = Some s')
    by (cbn [frames]; rewrite E; reflexivity).
  exists s'. split; [exact E1|]. exact (frames_follow_ticks _ _ _ E1).
Defined.

(** ** The pitch *)










(** ** Winning *)

Lemma render_flags (now : Z) (s s' : State) :
  render now s = Some s' ->
  exists s1, updatePosition s = Some s1
             /\ hasWon s' = hasWon s1
             /\ hasReachedCheckpoint s' = hasReachedCheckpoint s1
             /\ gameStartTime s' = gameStartTime s1.
Proof.
  unfold render.
  destruct (updatePosition s) as [s1|] eqn:E; [|discriminate].
  intros E'; injection E' as <-. exists s1. split; [reflexivity|].
  pose proof (@updateTimer_stable _
                (fun t => (hasWon t, hasReachedCheckpoint t,
                           gameStartTime t))) as Ht.
  stable_in Ht.
  destruct (gameStartTime s1) eqn:Eg; [|rewrite Eg; auto].
  injection (Ht now s1) as -> -> ->. auto.
Qed.

Lemma render_win (now : Z) (s s' : State) :
  (hasWon s = true -> hasReachedCheckpoint s = true) ->
  render now s = Some s' ->
  hasWon s' = true -> hasReachedCheckpoint s' = true.
Proof.
  intros Hinv E. destruct (render_flags _ _ _ E) as (s1 & E1 & -> & -> & _).
  destruct (flagsKept_updatePosition _ _ E1) as [_ Hc].
  destruct (updatePosition_progress _ _ E1) as [Hw _].
  intros H1. apply Hc.
  destruct (hasWon s) eqn:E0; [auto|]. apply (Hw eq_refl H1).
Qed.

Lemma step_win (e : Event) (s s' : State) :
  (hasWon s = true -> hasReachedCheckpoint s = true) ->
  step e s = Some s' ->
  hasWon s' = true -> hasReachedCheckpoint s' = true.
Proof.
  intros Hinv E.
  assert (Hsame : (hasWon s', hasReachedCheckpoint s')
                  = (hasWon s, hasReachedCheckpoint s)
                  -> hasWon s' = true -> hasReachedCheckpoint s' = true).
  { intros H; injection H as -> ->. exact Hinv. }
  destruct e as [now key|now sh key|now]; cbn [step] in E.
  - injection E as <-. apply Hsame.
    destruct (keydownListener s); [|reflexivity].
    apply (onKeyDown_stable (fun t => (hasWon t, hasReachedCheckpoint t)));
      stable.
  - destruct (onKeyUp_cases _ _ _ _ _ E)
      as [->|[(_ & s0 & H0 & Er)|[(_ & H0)|[H1 H2]]]].
    + apply Hsame. reflexivity.
    + refine (render_win now _ _ _ Er).
      destruct H0 as [->|(f & r & b & l & ->)]; exact Hinv.
    + apply Hsame. destruct H0 as [->|[->| ->]]; reflexivity.
    + apply Hsame.
      pose proof (@onKeyUp_play_stable _
                    (fun t => (hasWon t, hasReachedCheckpoint t))) as Hk.
      stable_in Hk. exact (Hk _ _ _ _ _ H1 H2 E).
  - destruct (hasStarted s); [exact (render_win _ _ _ Hinv E)|].
    injection E as <-. exact Hinv.
Qed.

(** X19: over any run of key events and frames that starts in a state
    where [hasWon] implies [hasReachedCheckpoint] (as at the start of the
    game, where both are false), [hasWon] implies [hasReachedCheckpoint]:
    the game cannot be won without passing the checkpoint first. *)
Theorem win_needs_checkpoint (es : list Event) (s s' : State) :
  (hasWon s = true -> hasReachedCheckpoint s = true) ->
  run es s = Some s' ->
  hasWon s' = true -> hasReachedCheckpoint s' = true.
Proof.
  intros Hinv E.
  exact (run_invariant
           (fun t => hasWon t = true -> hasReachedCheckpoint t = true)
           step_win es s s' Hinv E).
Qed.

Lemma win_needs_checkpoint_witness :
  hasReachedCheckpoint
    (pause (onKeyDown 0 "w" (set_hasWon true nearFinish))) = true.
Proof.
  apply (win_needs_checkpoint
           [KeyDown 0 "w"; KeyUp 0 ("w", "a", "s", "d")%string "p"]
           (set_hasWon true nearFinish)
           (pause (onKeyDown 0 "w" (set_hasWon true nearFinish))));
    reflexivity.
Defined.

(** ** The timer *)

Lemma step_gameStartTime (e : Event) (s s' : State) (t : Z) :
  gameStartTime s = Some t -> step e s = Some s' -> gameStartTime s' = Some t.
Proof.
  intros Hg E. destruct e as [now key|now sh key|now]; cbn [step] in E.
  - injection E as <-. destruct (keydownListener s); [|exact Hg].
    unfold onKeyDown. rewrite Hg. split_matches; exact Hg.
  - pose proof (@onKeyUp_stable _ gameStartTime) as Hk. stable_in Hk.
    rewrite (Hk _ _ _ _ _ E). exact Hg.
  - destruct (hasStarted s); [|injection E as <-; exact Hg].
    pose proof (@render_stable _ gameStartTime) as Hk. stable_in Hk.
    rewrite (Hk _ _ _ E). exact Hg.
Qed.

Lemma gameStartTime_kept (es : list Event) (s s' : State) (t : Z) :
  gameStartTime s = Some t -> run es s = Some s' -> gameStartTime s' = Some t.
Proof.
  exact (run_invariant (fun u => gameStartTime u = Some t)
           (fun e u u' => step_gameStartTime e u u' t) es s s').
Qed.

(** X20: once [gameStartTime] is set, no key event and no frame changes
    it: the timer keeps counting from the first accepted key. *)
Theorem gameStartTime_set_once (es : list Event) (s s' : State) (t : Z) :
  gameStartTime s = Some t -> run es s = Some s' -> gameStartTime s' = Some t.
Proof. apply gameStartTime_kept. Qed.

Lemma gameStartTime_set_once_witness :
  gameStartTime (onKeyDown 9 "a" (set_gameStartTime (Some 5%Z) playing))
  = Some 5%Z.
Proof.
  exact (gameStartTime_set_once [KeyDown 9 "a"]
           (set_gameStartTime (Some 5%Z) playing)
           (onKeyDown 9 "a" (set_gameStartTime (Some 5%Z) playing))
           5 eq_refl eq_refl).
Defined.

(** X21: [gameStartTime] is set only by a 'keydown' of one of the four
    bound keys that [onKeyDown] receives in a started game, and it is set
    to the time of that event; no key-up and no frame sets it. *)
Theorem gameStartTime_first_key (e : Event) (s s' : State) (t : Z) :
  step e s = Some s' -> gameStartTime s = None ->
  gameStartTime s' = Some t ->
  exists key d,
    e = KeyDown t key /\ dirOfKey s key = Some d
    /\ hasStarted s = true /\ keydownListener s = true.
Proof.
  intros E Hg Hg'. destruct e as [now key|now sh key|now]; cbn [step] in E.
  - injection E as <-. destruct (keydownListener s) eqn:El; [|congruence].
    revert Hg'. unfold onKeyDown.
    destruct (hasStarted s) eqn:Hs; cbn [negb]; [|congruence].
    destruct (dirOfKey s key) as [d|] eqn:Ed; [|congruence].
    rewrite Hg. intros H.
    assert (now = t).
    { revert H. split_matches; cbn; congruence. }
    subst now. exists key, d. auto.
  - exfalso. pose proof (@onKeyUp_stable _ gameStartTime) as Hk.
    stable_in Hk. rewrite (Hk _ _ _ _ _ E) in Hg'. congruence.
  - exfalso. destruct (hasStarted s); [|injection E as <-; congruence].
    pose proof (@render_stable _ gameStartTime) as Hk. stable_in Hk.
    rewrite (Hk _ _ _ E) in Hg'. congruence.
Qed.

Lemma gameStartTime_first_key_witness :
  exists key d,
    KeyDown 5 "w" = KeyDown 5 key /\ dirOfKey playing key = Some d
    /\ hasStarted playing = true /\ keydownListener playing = true.
Proof.
  exact (gameStartTime_first_key (KeyDown 5 "w") playing
           (onKeyDown 5 "w" playing) 5 eq_refl eq_refl eq_refl).
Defined.

Lemma calculateElapsedTime_won (now : Z) (s : State) :
  hasWon s = true ->
  gameCurrTime (calculateElapsedTime now s) = gameCurrTime s.
Proof.
  intros Hw. unfold calculateElapsedTime.
  destruct (isPaused s); cbn; rewrite Hw; reflexivity.
Qed.

Lemma step_won (e : Event) (s s' : State) :
  hasWon s = true -> step e s = Some s' ->
  hasWon s' = true /\ gameCurrTime s' = gameCurrTime s.
Proof.
  intros Hw E.
  split; [exact (proj1 (flagsKept_step _ _ _ E) Hw)|].
  assert (Hr : forall now t t', hasWon t = true -> render now t = Some t' ->
                                gameCurrTime t' = gameCurrTime t).
  { intros now t t' Ht. unfold render.
    destruct (updatePosition t) as [t1|] eqn:E1; [|discriminate].
    intros E'; injection E' as <-.
    pose proof (@updatePosition_stable _ gameCurrTime) as Hu. stable_in Hu.
    rewrite <- (Hu _ _ E1).
    destruct (gameStartTime t1); [|reflexivity].
    apply calculateElapsedTime_won.
    exact (proj1 (flagsKept_updatePosition _ _ E1) Ht). }
  destruct e as [now key|now sh key|now]; cbn [step] in E.
  - injection E as <-. destruct (keydownListener s); [|reflexivity].
    apply (onKeyDown_stable gameCurrTime); stable.
  - destruct (onKeyUp_cases _ _ _ _ _ E)
      as [->|[(_ & s0 & H0 & Er)|[(_ & H0)|[H1 H2]]]].
    + reflexivity.
    + assert (H0' : hasWon (startPlaying (setControls s0)) = true
                    /\ gameCurrTime (startPlaying (setControls s0))
                       = gameCurrTime s)
        by (destruct H0 as [->|(f & r & b & l & ->)]; auto).
      destruct H0' as [H1 H2]. rewrite (Hr _ _ _ H1 Er). exact H2.
    + destruct H0 as [->|[->| ->]]; reflexivity.
    + pose proof (@onKeyUp_play_stable _ gameCurrTime) as Hk.
      stable_in Hk. exact (Hk _ _ _ _ _ H1 H2 E).
  - destruct (hasStarted s); [exact (Hr _ _ _ Hw E)|].
    injection E as <-. reflexivity.
Qed.

(** X22: once the game is won, over any run of key events and frames
    [hasWon] stays true and [gameCurrTime] keeps its value, and with the
    timer started the elapsed seconds on display stay the same too: the
    final time stands, also across a pause. *)
Theorem clock_frozen_after_win (es : list Event) (s s' : State) :
  hasWon s = true -> run es s = Some s' ->
  hasWon s' = true /\ gameCurrTime s' = gameCurrTime s
  /\ (gameStartTime s <> None -> elapsedTime s' = elapsedTime s).
Proof.
  intros Hw E.
  assert (H : hasWon s' = true /\ gameCurrTime s' = gameCurrTime s).
  { refine (run_invariant
              (fun t => hasWon t = true /\ gameCurrTime t = gameCurrTime s)
              _ es s s' (conj Hw eq_refl) E).
    intros e t t' [H1 H2] Et. destruct (step_won _ _ _ H1 Et) as [H3 H4].
    split; congruence. }
  destruct H as [H1 H2]. split; [exact H1|]. split; [exact H2|].
  intros Hg. destruct (gameStartTime s) as [t|] eqn:Eg; [|congruence].
  unfold elapsedTime.
  rewrite (gameStartTime_kept es s s' t Eg E), Eg, H2. reflexivity.
Qed.

Lemma clock_frozen_after_win_witness :
  hasWon (pause (onKeyDown 0 "w" (set_hasWon true nearFinish))) = true
  /\ gameCurrTime (pause (onKeyDown 0 "w" (set_hasWon true nearFinish)))
     = gameCurrTime (set_hasWon true nearFinish).
Proof.
  destruct (clock_frozen_after_win
              [KeyDown 0 "w"; KeyUp 0 ("w", "a", "s", "d")%string "p"]
              (set_hasWon true nearFinish)
              (pause (onKeyDown 0 "w" (set_hasWon true nearFinish)))
              eq_refl eq_refl) as (H1 & H2 & _).
  split; assumption.
Defined.

Lemma last_cons (ts : list Z) (t d : Z) : last (t :: ts) d = last ts t.
Proof.
  revert t d. induction ts as [|z ts IH]; intros t d; [reflexivity|].
  change (last (t :: z :: ts) d) with (last (z :: ts) d).
  rewrite (IH z d), (IH z t). reflexivity.
Qed.

Lemma paused_frames_clock (ts : list Z) (t0 : Z) (s : State) :
  hasWon s = false -> isPaused s = true ->
  gamePausedTime s = (t0 - gameCurrTime s)%Z ->
  let c := fold_left (fun u t => calculateElapsedTime t u) ts s in
  hasWon c = false /\ isPaused c = true
  /\ gameCurrTime c = gameCurrTime s
  /\ gamePausedTime c = (last ts t0 - gameCurrTime s)%Z.
Proof.
  revert t0 s. induction ts as [|t ts IH]; intros t0 s Hw Hp Hg.
  - cbn. auto.
  - cbn [fold_left].
    assert (H : hasWon (calculateElapsedTime t s) = false
                /\ isPaused (calculateElapsedTime t s) = true
                /\ gameCurrTime (calculateElapsedTime t s) = gameCurrTime s
                /\ gamePausedTime (calculateElapsedTime t s)
                   = (t - gameCurrTime s)%Z).
    { unfold calculateElapsedTime. rewrite Hp. cbn. rewrite Hw. cbn.
      repeat split; auto; lia. }
    destruct H as (H1 & H2 & H3 & H4).
    destruct (IH t (calculateElapsedTime t s) H1 H2) as (G1 & G2 & G3 & G4);
      [rewrite H4, H3; reflexivity|].
    cbv zeta. rewrite G3, G4, H3, last_cons.
    repeat split; auto.
Qed.

(** X23: the game clock across a pause.  In a game that is not won, take
    the clock update of a frame ([calculateElapsedTime], as [updateTimer]
    calls it) at [t0], then [pause()], then the updates of the paused
    frames at the times [ts], then [pause()] again and the update of a
    frame at [t2].  Through the paused updates [gameCurrTime] keeps the
    value of the update at [t0], and the update at [t2] adds to it the
    time since the last paused update (since [t0] when there was none):
    the time between the last running frame and the last paused frame
    does not count. *)
Theorem clock_excludes_pause (t0 t2 : Z) (ts : list Z) (s : State) :
  hasWon s = false -> isPaused s = false ->
  let running := calculateElapsedTime t0 s in
  let paused :=
    fold_left (fun u t => calculateElapsedTime t u) ts (pause running) in
  gameCurrTime paused = gameCurrTime running
  /\ gameCurrTime (calculateElapsedTime t2 (pause paused))
     = (gameCurrTime running + (t2 - last ts t0))%Z.
Proof.
  intros Hw Hp running paused.
  assert (Hr : hasWon running = false /\ isPaused running = false
               /\ gamePausedTime running = (t0 - gameCurrTime running)%Z).
  { unfold running, calculateElapsedTime. rewrite Hp. cbn. rewrite Hw. cbn.
    repeat split; auto; lia. }
  destruct Hr as (R1 & R2 & R3).
  assert (Hq : hasWon (pause running) = false
               /\ isPaused (pause running) = true
               /\ gameCurrTime (pause running) = gameCurrTime running
               /\ gamePausedTime (pause running)
                  = (t0 - gameCurrTime running)%Z).
  { unfold pause. rewrite R2. cbn. auto. }
  destruct Hq as (Q1 & Q2 & Q3 & Q4).
  destruct (paused_frames_clock ts t0 (pause running) Q1 Q2)
    as (G1 & G2 & G3 & G4); [rewrite Q4, Q3; reflexivity|].
  fold paused in G1, G2, G3, G4. rewrite Q3 in G3, G4.
  split; [exact G3|].
  unfold pause. rewrite G2. unfold calculateElapsedTime. cbn.
  rewrite G1. cbn. rewrite G4. lia.
Qed.

Lemma clock_excludes_pause_witness :
  gameCurrTime
    (calculateElapsedTime 9000
       (pause (fold_left (fun u t => calculateElapsedTime t u)
                 [2000; 3000; 8000]%Z
                 (pause (calculateElapsedTime 1000 playing)))))
  = (gameCurrTime (calculateElapsedTime 1000 playing) + (9000 - 8000))%Z.
Proof.
  exact (proj2 (clock_excludes_pause 1000 9000 [2000; 3000; 8000]%Z playing
                  eq_refl eq_refl)).
Defined.
(** ** The session in play *)

Lemma step_started (e : Event) (s s' : State) :
  hasStarted s = true -> step e s = Some s' ->
  (hasStarted s', forward s', right s', backward s', left s', inHelpMenu s')
  = (hasStarted s, forward s, right s, backward s, left s, inHelpMenu s).
Proof.
  intros Hs E. destruct e as [now key|now sh key|now]; cbn [step] in E.
  - injection E as <-. destruct (keydownListener s); [|reflexivity].
    apply (onKeyDown_stable
             (fun t => (hasStarted t, forward t, right t, backward t, left t,
                        inHelpMenu t))); stable.
  - destruct (onKeyUp_cases _ _ _ _ _ E)
      as [->|[(H & _)|[(H & _)|[H1 H2]]]]; try congruence.
    + reflexivity.
    + pose proof (@onKeyUp_play_stable _
                    (fun t => (hasStarted t, forward t, right t, backward t,
                               left t, inHelpMenu t))) as Hk.
      stable_in Hk. exact (Hk _ _ _ _ _ H1 H2 E).
  - rewrite Hs in E.
    pose proof (@render_stable _
                  (fun t => (hasStarted t, forward t, right t, backward t,
                             left t, inHelpMenu t))) as Hk.
    stable_in Hk. exact (Hk _ _ _ E).
Qed.

(** X24: once a mode is chosen ([hasStarted]), over any run of key events
    and frames the game stays started and the four bound keys and the help
    flag never change: the mode keys '1', '2', '3' and the help keys do
    nothing in play, so the bindings cannot be shuffled again. *)
Theorem started_is_final (es : list Event) (s s' : State) :
  hasStarted s = true -> run es s = Some s' ->
  hasStarted s' = true
  /\ forward s' = forward s /\ right s' = right s
  /\ backward s' = backward s /\ left s' = left s
  /\ inHelpMenu s' = inHelpMenu s.
Proof.
  intros Hs E.
  assert (H : hasStarted s' = true
              /\ (forward s', right s', backward s', left s', inHelpMenu s')
                 = (forward s, right s, backward s, left s, inHelpMenu s)).
  { refine (run_invariant
              (fun t => hasStarted t = true
                        /\ (forward t, right t, backward t, left t,
                            inHelpMenu t)
                           = (forward s, right s, backward s, left s,
                              inHelpMenu s))
              _ es s s' (conj Hs eq_refl) E).
    intros e t t' [H1 H2] Et. pose proof (step_started _ _ _ H1 Et) as H3.
    injection H3 as -> -> -> -> -> ->. auto. }
  destruct H as [H1 H2]. injection H2 as -> -> -> -> ->. auto 10.
Qed.

Lemma started_is_final_witness :
  hasStarted (onKeyDown 0 "w" playing) = true
  /\ forward (onKeyDown 0 "w" playing) = forward playing.
Proof.
  destruct (started_is_final
              [KeyUp 0 ("d", "a", "s", "w")%string "2"; KeyDown 0 "w"]
              playing (onKeyDown 0 "w" playing) eq_refl eq_refl)
    as (H1 & H2 & _).
  split; assumption.
Defined.

(** X25: in a started game a key event ('keydown' or 'keyup', the pause key
    included) never changes the rotation, the track position, the value of
    any control, the crash flag, the win flag or the game clock: key events
    only set pressed flags and bookkeeping, all motion happens in
    frames. *)
Theorem key_events_keep_motion (e : Event) (s s' : State) :
  hasStarted s = true -> (forall now, e <> AnimationFrame now) ->
  step e s = Some s' ->
  rotation s' = rotation s /\ trackPosition s' = trackPosition s
  /\ (forall d, value (ctl s' d) = value (ctl s d))
  /\ hasCrashed s' = hasCrashed s /\ hasWon s' = hasWon s
  /\ gameCurrTime s' = gameCurrTime s.
Proof.
  intros Hs Hne E.
  assert (H : (rotation s', trackPosition s', value (ctl s' Forward),
               value (ctl s' Right), value (ctl s' Backward),
               value (ctl s' Left), hasCrashed s', hasWon s',
               gameCurrTime s')
              = (rotation s, trackPosition s, value (ctl s Forward),
                 value (ctl s Right), value (ctl s Backward),
                 value (ctl s Left), hasCrashed s, hasWon s,
                 gameCurrTime s)).
  { destruct e as [now key|now sh key|now]; cbn [step] in E.
    - injection E as <-. destruct (keydownListener s); [|reflexivity].
      apply (onKeyDown_stable
               (fun t => (rotation t, trackPosition t, value (ctl t Forward),
                          value (ctl t Right), value (ctl t Backward),
                          value (ctl t Left), hasCrashed t, hasWon t,
                          gameCurrTime t))); stable.
    - destruct (onKeyUp_cases _ _ _ _ _ E)
        as [->|[(H & _)|[(H & _)|[H1 H2]]]]; try congruence.
      + reflexivity.
      + pose proof (@onKeyUp_play_stable _
                      (fun t => (rotation t, trackPosition t,
                                 value (ctl t Forward), value (ctl t Right),
                                 value (ctl t Backward), value (ctl t Left),
                                 hasCrashed t, hasWon t, gameCurrTime t)))
          as Hk.
        stable_in Hk. exact (Hk _ _ _ _ _ H1 H2 E).
    - exfalso. apply (Hne now). reflexivity. }
  injection H as H1 H2 H3 H4 H5 H6 H7 H8 H9.
  repeat split; try assumption. intros []; assumption.
Qed.

Lemma key_events_keep_motion_witness :
  rotation (onKeyDown 0 "w" playing) = rotation playing
  /\ trackPosition (onKeyDown 0 "w" playing) = trackPosition playing.
Proof.
  destruct (key_events_keep_motion (KeyDown 0 "w") playing
              (onKeyDown 0 "w" playing) eq_refl) as (H1 & H2 & _);
    [discriminate|reflexivity|].
  split; assumption.
Defined.

(** X26: pausing and resuming.  After two calls of [pause()] from a game
    that is not paused, the game is not paused, every pressed flag is false
    (held keys must be pressed again) and the values of the controls are as
    before; [onKeyDown] is registered and the message is empty whatever
    they were before, so a pause also gives the keyboard back during a
    crash recovery or after the finish and erases "COMPLETE!"; the crash
    and win flags are as before. *)
Theorem pause_resume (s : State) :
  isPaused s = false ->
  isPaused (pause (pause s)) = false
  /\ keydownListener (pause (pause s)) = true
  /\ message (pause (pause s)) = ""%string
  /\ (forall d, pressed (ctl (pause (pause s)) d) = false
                /\ value (ctl (pause (pause s)) d) = value (ctl s d))
  /\ hasCrashed (pause (pause s)) = hasCrashed s
  /\ hasWon (pause (pause s)) = hasWon s.
Proof.
  intros Hp.
  assert (E : pause s
              = set_isPaused true
                  (set_message "PAUSED"
                     (fold_left (fun s key => setPressed key false s)
                        [Forward; Right; Backward; Left]
                        (set_keydownListener false s))))
    by (unfold pause; rewrite Hp; reflexivity).
  rewrite E. unfold pause. cbn.
  repeat split;
    try match goal with d : Dir |- _ => destruct d end; reflexivity.
Qed.

Lemma pause_resume_witness :
  keydownListener (pause (pause crashedOnStraight)) = true
  /\ hasCrashed (pause (pause crashedOnStraight)) = true.
Proof.
  destruct (pause_resume crashedOnStraight eq_refl)
    as (_ & H1 & _ & _ & H2 & _).
  split; assumption.
Defined.

Lemma keysDistinct_eqb (s : State) :
  keysDistinct s ->
  String.eqb (right s) (forward s) = false
  /\ String.eqb (backward s) (forward s) = false
  /\ String.eqb (backward s) (right s) = false
  /\ String.eqb (left s) (forward s) = false
  /\ String.eqb (left s) (right s) = false
  /\ String.eqb (left s) (backward s) = false.
Proof.
  unfold keysDistinct. intros H.
  inversion H as [|? ? H1 H2]; subst. inversion H2 as [|? ? H3 H4]; subst.
  inversion H4 as [|? ? H5 _]; subst. cbn in H1, H3, H5.
  repeat split; apply String.eqb_neq; intros E; rewrite E in *; tauto.
Qed.

Lemma dirOfKey_keyOfDir (s : State) (d : Dir) :
  keysDistinct s -> dirOfKey s (keyOfDir s d) = Some d.
Proof.
  intros H. destruct (keysDistinct_eqb s H) as (E1 & E2 & E3 & E4 & E5 & E6).
  unfold dirOfKey. destruct d; cbn [keyOfDir];
    rewrite ?String.eqb_refl, ?E1, ?E2, ?E3, ?E4, ?E5, ?E6; reflexivity.
Qed.

(** Whether a bound key is a turn key, and whether it is a drive key. *)
Lemma turnKey_test (s : State) (d : Dir) :
  keysDistinct s ->
  String.eqb (keyOfDir s d) (right s) || String.eqb (keyOfDir s d) (left s)
  = match d with Right | Left => true | _ => false end.
Proof.
  intros H. destruct (keysDistinct_eqb s H) as (E1 & E2 & E3 & E4 & E5 & E6).
  destruct d; cbn [keyOfDir];
    rewrite ?String.eqb_refl, ?E5, ?E3, ?(String.eqb_sym (forward s)),
      ?(String.eqb_sym (backward s) (left s)), ?E1, ?E4, ?E6;
    reflexivity.
Qed.

Lemma driveKey_test (s : State) (d : Dir) :
  keysDistinct s ->
  String.eqb (keyOfDir s d) (forward s)
  || String.eqb (keyOfDir s d) (backward s)
  = match d with Forward | Backward => true | _ => false end.
Proof.
  intros H. destruct (keysDistinct_eqb s H) as (E1 & E2 & E3 & E4 & E5 & E6).
  destruct d; cbn [keyOfDir];
    rewrite ?String.eqb_refl, ?E1, ?E2, ?E4, ?E6,
      ?(String.eqb_sym (right s) (backward s)), ?E3;
    reflexivity.
Qed.

(** [onKeyDown] past its two guards, in a started game and for a bound
    key. *)
Lemma onKeyDown_bound (now : Z) (d : Dir) (s : State) :
  keysDistinct s -> hasStarted s = true ->
  exists s0,
    (s0 = s \/ s0 = set_gameStartTime (Some now) s)
    /\ onKeyDown now (keyOfDir s d) s
       = if match d with Right | Left => true | _ => false end && isIdle s
         then set_turningWhileIdle
                {| isTurning := true; direction := keyOfDir s d |}
                (setPressed d false s0)
         else
           let s1 := set_isIdle false (setPressed d true s0) in
           if match d with Forward | Backward => true | _ => false end
              && isTurning (turningWhileIdle s)
           then match dirOfKey s (direction (turningWhileIdle s)) with
                | Some t => setPressed t true s1
                | None => s1
                end
           else s1.
Proof.
  intros Hk Hs. unfold onKeyDown. rewrite Hs. cbn [negb].
  rewrite (dirOfKey_keyOfDir s d Hk).
  pose proof (turnKey_test s d Hk) as Ht.
  pose proof (driveKey_test s d Hk) as Hd.
  destruct (gameStartTime s);
    [exists s; split; [left; reflexivity|]
    |exists (set_gameStartTime (Some now) s); split; [right; reflexivity|]].
  all: change (right (set_gameStartTime _ ?x)) with (right x).
  all: change (left (set_gameStartTime _ ?x)) with (left x).
  all: change (isIdle (set_gameStartTime _ ?x)) with (isIdle x).
  all: rewrite Ht.
  all: destruct (match d with Right | Left => true | _ => false end
                 && isIdle s); [reflexivity|].
  all: cbv zeta.
  all: change (forward (set_isIdle _ (setPressed _ _ ?x))) with (forward x).
  all: change (backward (set_isIdle _ (setPressed _ _ ?x)))
         with (backward x).
  all: change (forward (set_gameStartTime _ ?x)) with (forward x).
  all: change (backward (set_gameStartTime _ ?x)) with (backward x).
  all: rewrite Hd; reflexivity.
Qed.

(** [onKeyUp] in play, for a bound key other than 'p'. *)
Lemma onKeyUp_bound (now : Z) (sh : string * string * string * string)
  (d : Dir) (s : State) :
  keysDistinct s -> hasStarted s = true -> atTitleScreen s = false ->
  keyOfDir s d <> "p"%string ->
  onKeyUp now sh (keyOfDir s d) s
  = Some
      (let s1 := setPressed d false s in
       let s2 :=
         if match d with Forward | Backward => true | _ => false end
            && isTurning (turningWhileIdle s)
         then match dirOfKey s (direction (turningWhileIdle s)) with
              | Some t => setPressed t false s1
              | None => s1
              end
         else s1 in
       if String.eqb (direction (turningWhileIdle s)) (keyOfDir s d)
       then set_turningWhileIdle
              {| isTurning := false;
                 direction := direction (turningWhileIdle s) |} s2
       else s2).
Proof.
  intros Hk Hs Ht Hp. unfold onKeyUp. rewrite Ht, Hs. cbn [negb].
  apply String.eqb_neq in Hp. rewrite Hp.
  rewrite (dirOfKey_keyOfDir s d Hk).
  change (forward (setPressed _ _ ?x)) with (forward x).
  change (backward (setPressed _ _ ?x)) with (backward x).
  rewrite (driveKey_test s d Hk).
  change (turningWhileIdle (setPressed _ _ ?x)) with (turningWhileIdle x).
  change (dirOfKey (setPressed ?a ?b ?x) ?k) with (dirOfKey x k).
  cbv zeta.
  destruct (match d with Forward | Backward => true | _ => false end
            && isTurning (turningWhileIdle s)); [|reflexivity].
  destruct (dirOfKey s (direction (turningWhileIdle s))); reflexivity.
Qed.

(** X27: turning while idle.  In a started, idle game with four distinct
    bound keys, a 'keydown' of a turn key does not press it (the car does
    not turn on the spot) but records it in [turningWhileIdle]; a following
    'keydown' of the forward or the backward key presses both that key and
    the recorded turn key and ends the idle state; the 'keyup' of that
    drive key then releases both, although the turn key was never
    released. *)
Theorem idle_turn_deferred (t1 t2 t3 : Z)
  (sh : string * string * string * string) (turn go : Dir) (s : State) :
  keysDistinct s -> hasStarted s = true -> atTitleScreen s = false ->
  isIdle s = true ->
  turn = Right \/ turn = Left -> go = Forward \/ go = Backward ->
  keyOfDir s go <> "p"%string ->
  let s1 := onKeyDown t1 (keyOfDir s turn) s in
  let s2 := onKeyDown t2 (keyOfDir s go) s1 in
  (pressed (ctl s1 turn) = false /\ isIdle s1 = true
   /\ turningWhileIdle s1
      = {| isTurning := true; direction := keyOfDir s turn |})
  /\ (pressed (ctl s2 turn) = true /\ pressed (ctl s2 go) = true
      /\ isIdle s2 = false)
  /\ exists s3, onKeyUp t3 sh (keyOfDir s go) s2 = Some s3
                /\ pressed (ctl s3 turn) = false
                /\ pressed (ctl s3 go) = false.
Proof.
  intros Hk Hs Ht Hi Hturn Hgo Hp s1 s2.
  assert (Hturn' : match turn with Right | Left => true | _ => false end
                   = true /\ match turn with
                             | Forward | Backward => true
                             | _ => false
                             end = false)
    by (destruct Hturn as [-> | ->]; split; reflexivity).
  assert (Hgo' : match go with Right | Left => true | _ => false end = false
                 /\ match go with
                    | Forward | Backward => true
                    | _ => false
                    end = true)
    by (destruct Hgo as [-> | ->]; split; reflexivity).
  assert (Hne : turn <> go)
    by (destruct Hturn as [-> | ->], Hgo as [-> | ->]; discriminate).
  destruct Hturn' as [Ht1 Ht2], Hgo' as [Hg1 Hg2].
  (* the turn key while idle *)
  destruct (onKeyDown_bound t1 turn s Hk Hs) as (s0 & H0 & E1).
  rewrite Ht1, Hi in E1. cbn [andb] in E1. fold s1 in E1.
  assert (F1 : hasStarted s1 = true /\ keysDistinct s1
               /\ atTitleScreen s1 = false
               /\ (forall d, keyOfDir s1 d = keyOfDir s d)
               /\ pressed (ctl s1 turn) = false /\ isIdle s1 = true
               /\ turningWhileIdle s1
                  = {| isTurning := true; direction := keyOfDir s turn |}).
  { rewrite E1.
    destruct H0 as [-> | ->];
      (split; [exact Hs|]; split; [exact Hk|]; split; [exact Ht|];
       split; [intros []; reflexivity|];
       split; [destruct turn; reflexivity|];
       split; [exact Hi|reflexivity]). }
  clear E1. clearbody s1.
  destruct F1 as (Hs1 & Hk1 & Hti1 & Hkey1 & Hp1 & Hi1 & Htw1).
  split; [auto|].
  (* the drive key *)
  destruct (onKeyDown_bound t2 go s1 Hk1 Hs1) as (s0' & H0' & E2).
  rewrite Hkey1, Hg1, Hg2, Htw1 in E2. cbn [andb isTurning direction] in E2.
  rewrite <- (Hkey1 turn), (dirOfKey_keyOfDir s1 turn Hk1) in E2.
  cbv zeta in E2. fold s2 in E2.
  assert (F2 : hasStarted s2 = true /\ keysDistinct s2
               /\ atTitleScreen s2 = false
               /\ (forall d, keyOfDir s2 d = keyOfDir s1 d)
               /\ pressed (ctl s2 turn) = true /\ pressed (ctl s2 go) = true
               /\ isIdle s2 = false
               /\ turningWhileIdle s2 = turningWhileIdle s1).
  { rewrite E2.
    destruct H0' as [-> | ->];
      (split; [exact Hs1|]; split; [exact Hk1|]; split; [exact Hti1|];
       split; [intros []; reflexivity|];
       split; [destruct turn; reflexivity|];
       split; [destruct turn, go; try reflexivity; contradiction|];
       split; reflexivity). }
  clear E2. clearbody s2.
  destruct F2 as (Hs2 & Hk2 & Hti2 & Hkey2 & Hp2 & Hq2 & Hi2 & Htw2).
  split; [auto|].
  (* the drive key released *)
  assert (Hp' : keyOfDir s2 go <> "p"%string)
    by (rewrite Hkey2, Hkey1; exact Hp).
  pose proof (onKeyUp_bound t3 sh go s2 Hk2 Hs2 Hti2 Hp') as E3.
  rewrite Hkey2, Hkey1, Hg2, Htw2, Htw1 in E3.
  cbn [andb isTurning direction] in E3.
  rewrite <- (Hkey1 turn), <- (Hkey2 turn),
    (dirOfKey_keyOfDir s2 turn Hk2) in E3.
  eexists. split; [exact E3|].
  cbv zeta.
  destruct (String.eqb _ _);
    split; destruct turn, go; try reflexivity; contradiction.
Qed.

Lemma keysDistinct_playing : keysDistinct playing.
Proof.
  unfold keysDistinct. repeat constructor; cbn; intuition discriminate.
Qed.

Lemma idle_turn_deferred_witness :
  pressed (ctl (onKeyDown 1 "a" playing) Right) = false
  /\ pressed (ctl (onKeyDown 2 "w" (onKeyDown 1 "a" playing)) Right) = true.
Proof.
  destruct (idle_turn_deferred 1 2 3 ("w", "a", "s", "d")%string Right Forward
              playing keysDistinct_playing eq_refl eq_refl eq_refl
              (or_introl eq_refl) (or_introl eq_refl))
    as ((H1 & _) & (H2 & _) & _).
  - discriminate.
  - split; assumption.
Defined.

(** ** The neighbours of the closest sample *)

(** X28: on a track of [N >= 2] whole samples [stayOnTrack] treats the
    polyline as a closed loop.  For the closest sample [k], the point
    after is the projection on the line to sample [k + 1], which is sample
    0 for the last sample, and the point before is the projection on the
    line to sample [k - 1], which is the last sample for sample 0.  The
    vertex handed to [getRotationAngleAndTranslate] is the next sample,
    except for [k = 0], where it is the previous (the last) one. *)
Theorem adjacentPoints_wraps (s : State) (N k : nat) (sd : Shortest) :
  List.length (curve_verts s) = (3 * N)%nat -> (2 <= N)%nat ->
  (k < N)%nat -> index sd = (3 * Z.of_nat k)%Z ->
  let next := worldSample s (S k mod N) in
  let prev := worldSample s ((k + N - 1) mod N) in
  adjacentPoints s sd
  = (if (k =? 0)%nat then prev else next,
     getClosestCurvePointOnTrackN next (vertex sd) carPosition,
     getClosestCurvePointOnTrackN prev (vertex sd) carPosition).
Proof.
  intros Hlen HN Hk Hi next prev. unfold adjacentPoints.
  rewrite (getCurvePoint_eta s (index sd + 3)),
          (getCurvePoint_eta s (index sd - 3)),
          (getCurvePoint_eta s 0),
          (getCurvePoint_eta s (curveLength s - 3)).
  rewrite (curveLength_samples s N Hlen), Hi.
  destruct (Z.geb_spec (3 * Z.of_nat k + 3) (3 * Z.of_nat N)) as [Hj|Hj].
  - (* the closest sample is the last one *)
    assert (Ek : k = (N - 1)%nat) by lia.
    assert (En : (S k mod N = 0)%nat)
      by (replace (S k) with N by lia; apply Nat.Div0.mod_same).
    assert (Ep : ((k + N - 1) mod N = k - 1)%nat).
    { replace (k + N - 1)%nat with ((k - 1) + 1 * N)%nat by lia.
      rewrite Nat.Div0.mod_add. apply Nat.mod_small. lia. }
    unfold next, prev. rewrite En, Ep.
    destruct (Nat.eqb_spec k 0); [lia|].
    rewrite (getCurvePoint_worldSample s 0 0) by reflexivity.
    rewrite (getCurvePoint_worldSample s _ (k - 1)) by lia.
    reflexivity.
  - assert (En : (S k mod N = S k)%nat) by (apply Nat.mod_small; lia).
    unfold next, prev. rewrite En.
    destruct (Z.ltb_spec (3 * Z.of_nat k - 3) 0) as [Hk0|Hk0].
    + (* the closest sample is the first one *)
      assert (Ek : k = 0%nat) by lia. subst k. cbn [Nat.eqb Nat.add].
      rewrite (Nat.mod_small (N - 1) N) by lia.
      rewrite (getCurvePoint_worldSample s (3 * Z.of_nat N - 3) (N - 1))
        by lia.
      rewrite (getCurvePoint_worldSample s (3 * Z.of_nat 0 + 3) 1)
        by lia.
      reflexivity.
    + assert (Ep : ((k + N - 1) mod N = k - 1)%nat).
      { replace (k + N - 1)%nat with ((k - 1) + 1 * N)%nat by lia.
        rewrite Nat.Div0.mod_add. apply Nat.mod_small. lia. }
      rewrite Ep. destruct (Nat.eqb_spec k 0); [lia|].
      rewrite (getCurvePoint_worldSample s (3 * Z.of_nat k + 3) (S k))
        by lia.
      rewrite (getCurvePoint_worldSample s (3 * Z.of_nat k - 3) (k - 1))
        by lia.
      reflexivity.
Qed.

Lemma adjacentPoints_wraps_witness :
  adjacentPoints playing
    {| vertex := worldSample playing 0; distance := None; index := 0 |}
  = (worldSample playing 1,
     getClosestCurvePointOnTrackN (worldSample playing 1)
       (worldSample playing 0) carPosition,
     getClosestCurvePointOnTrackN (worldSample playing 1)
       (worldSample playing 0) carPosition).
Proof.
  apply (adjacentPoints_wraps playing 2 0
           {| vertex := worldSample playing 0; distance := None;
              index := 0 |}); [reflexivity|lia|lia|reflexivity].
Defined.

(** ** The reverse ramp in binary64 *)

Module Binary64ReverseFacts.
Import Floats.

(** The reverse ramp on doubles: 400 ticks with the key held strictly
    lower the value from 0 to exactly [maxReverse], where it stays;
    released, the value comes back up through the same doubles and stays
    at exactly 0. *)
Lemma binary64_backward_ramp :
  let '(down, bottom) :=
    Binary64.trajectory Binary64Reverse.backwardHeld 400 0%float in
  let '(up, top) :=
    Binary64.trajectory Binary64Reverse.backwardReleased 400 bottom in
  (bottom =? Binary64.maxReverse)%float = true
  /\ (Binary64Reverse.backwardHeld bottom =? bottom)%float = true
  /\ Binary64.increasing (rev (down ++ [bottom])) = true
  /\ Binary64.sameValues (rev (up ++ [top])) (down ++ [bottom]) = true
  /\ (top =? 0)%float = true
  /\ (Binary64Reverse.backwardReleased top =? 0)%float = true.
Proof. vm_compute. repeat split. Qed.

End Binary64ReverseFacts.
